(** * Fixed-length packet framing: [FixedPacket] and [TransceiverManager]

    A shallow embedding of [hardware/serial/fixed_packet.hpp] and
    [hardware/serial/transceiver_manager.hpp], followed by the properties
    of the link-layer specification that are settled against it, and of
    the two transports, [hardware/serial/protocol/uart_protocol.cpp] and
    [hardware/serial/protocol/usb_bulk_protocol.cpp], with further
    properties of all four.

    Conventions of the embedding:
    - a byte is a [Byte.byte]; an array or a region of memory reached
      through a pointer is a [list byte], the pointer [p + i] being the
      suffix [drop i];
    - [int] and [std::size_t] values are integers of [Z], every arithmetic
      operation of the source being written with its wrap-around
      ([int_wrap], [size_t_wrap]);
    - the template parameter [Capacity] is a section variable;
    - the transport ([ProtocolInterface]) is a type class over an abstract
      transport state, each call returning its result and the next state;
    - a member function of the manager is a computation of the monad [M]:
      it threads the manager's fields and ends by returning, by throwing,
      or in undefined behaviour. *)

From Stdlib Require Import ZArith Lia Bool.
From Stdlib Require Import Init.Byte Strings.Byte.
From Stdlib Require Strings.String.
From stdpp Require Import base option list.

Local Open Scope Z_scope.

(** ** Machine integers *)

Definition INT_MAX : Z := 2 ^ 31 - 1.
Definition INT_MIN : Z := - 2 ^ 31.
Definition SIZE_MAX : Z := 2 ^ 64 - 1.

(** Two's complement reduction to a 32-bit [int]. *)
Definition int_wrap (z : Z) : Z := (z + 2 ^ 31) mod 2 ^ 32 - 2 ^ 31.

(** Reduction to a 64-bit [std::size_t]; also the conversion of an [int]
    to [std::size_t] in a mixed comparison or sum. *)
Definition size_t_wrap (z : Z) : Z := z mod 2 ^ 64.

Definition int_add (a b : Z) : Z := int_wrap (a + b).
Definition size_add (a b : Z) : Z := size_t_wrap (a + b).
Definition size_sub (a b : Z) : Z := size_t_wrap (a - b).
Definition size_mul (a b : Z) : Z := size_t_wrap (a * b).

(** [static_cast<int>(x)] of a [std::size_t]. *)
Definition static_cast_int (z : Z) : Z := int_wrap z.

(** ** Bytes *)

Definition HEAD_BYTE : byte := Byte.xff.
Definition TAIL_BYTE : byte := Byte.x0d.

#[global] Instance byte_inhabited : Inhabited byte := populate Byte.x00.
#[global] Instance byte_eq_decision : EqDecision byte := Byte.byte_eq_dec.

Definition byte_of_Z (z : Z) : byte :=
  default Byte.x00 (Byte.of_N (Z.to_N (z mod 256))).

Definition Z_of_byte (b : byte) : Z := Z.of_N (Byte.to_N b).

(** Little-endian object representation of an unsigned integer of [n]
    bytes, and the value a little-endian byte sequence stands for. *)
Fixpoint le_bytes (n : nat) (z : Z) : list byte :=
  match n with
  | O => []
  | S n' => byte_of_Z z :: le_bytes n' (z / 256)
  end.

Fixpoint le_value (l : list byte) : Z :=
  match l with
  | [] => 0
  | b :: l' => Z_of_byte b + 256 * le_value l'
  end.

(** ** Results of an operation *)

(** A memory access is either inside the object it addresses or not. *)
Inductive access (A : Type) : Type :=
  | InBounds (a : A)
  | OutOfBounds.
Arguments InBounds {A} a.
Arguments OutOfBounds {A}.

(** How a call ends: it returns a value, throws a [std::exception], or
    its behaviour is undefined. *)
Inductive outcome (A : Type) : Type :=
  | Returns (a : A)
  | Throws
  | Undefined.
Arguments Returns {A} a.
Arguments Throws {A}.
Arguments Undefined {A}.

(** ** C++ types stored in a packet *)

(** What [load_data] and [unload_data] use of their type parameter [T]:
    the trait [std::is_trivially_copyable_v<T>], [sizeof(T)], and the
    object representation that [std::memcpy] reads and writes. *)
Class CppType (T : Type) : Type := {
  is_trivially_copyable_v : bool;
  sizeof : Z;
  object_repr : T -> list byte;
  from_object_repr : list byte -> T;
}.
Arguments is_trivially_copyable_v T {_}.
Arguments sizeof T {_}.

(** [std::memcpy(dst, &data, n)], source side: the first [n] bytes of the
    object [data]. *)
Definition read_object {T} `{CppType T} (data : T) (n : Z) : access (list byte) :=
  if decide (0 <= n <= Z.of_nat (length (object_repr data)))
  then InBounds (take (Z.to_nat n) (object_repr data))
  else OutOfBounds.

(** [std::memcpy(&data, src, n)], destination side: the first [n] bytes
    of the object [data] are replaced by [bytes]. *)
Definition write_object {T} `{CppType T} (data : T) (bytes : list byte) : access T :=
  if decide (length bytes <= length (object_repr data))%nat
  then InBounds (from_object_repr (bytes ++ drop (length bytes) (object_repr data)))
  else OutOfBounds.

(** Unsigned integers of 1, 2, 4 and 8 bytes, by value, little-endian. *)
Definition uint_type (n : nat) : CppType Z := {|
  is_trivially_copyable_v := true;
  sizeof := Z.of_nat n;
  object_repr := le_bytes n;
  from_object_repr := le_value;
|}.
Definition uint8_t : CppType Z := uint_type 1.
Definition uint16_t : CppType Z := uint_type 2.
Definition uint32_t : CppType Z := uint_type 4.
Definition uint64_t : CppType Z := uint_type 8.

(** A class with a user-provided copy constructor (a [std::vector] of
    bytes, say): it has a size, and no [memcpy] is ever applied to it. *)
Definition byte_vector : CppType (list byte) := {|
  is_trivially_copyable_v := false;
  sizeof := 24;
  object_repr := fun _ => replicate 24 Byte.x00;
  from_object_repr := fun _ => [];
|}.

(** A value of a trivially copyable type is the value of its object
    representation, which has [sizeof(T)] bytes. *)
Definition represented {T} `{CppType T} (v : T) : Prop :=
  Z.of_nat (length (object_repr v)) = sizeof T /\
  from_object_repr (object_repr v) = v.

(** ** [FixedPacket<Capacity>] *)

Record FixedPacket : Type := { _buffer : list byte }.

Section FixedPacket.
Variable Capacity : Z.

(** [FixedPacket()] *)
Definition FixedPacket_new : FixedPacket :=
  let zeroed := replicate (Z.to_nat Capacity) Byte.x00 in
  {| _buffer := <[Z.to_nat (Capacity - 1) := TAIL_BYTE]> (<[0%nat := HEAD_BYTE]> zeroed) |}.

(** [clear]: [std::fill(begin + 1, end - 1, 0)]. *)
Definition clear (p : FixedPacket) : FixedPacket :=
  {| _buffer := take 1 (_buffer p)
                ++ replicate (Z.to_nat (Capacity - 2)) Byte.x00
                ++ drop (Z.to_nat (Capacity - 1)) (_buffer p) |}.

Definition set_check_byte (p : FixedPacket) (check_byte : byte) : FixedPacket :=
  {| _buffer := <[Z.to_nat (Capacity - 2) := check_byte]> (_buffer p) |}.

(** [copy_from(src)]: [src] is [None] for a null pointer, and otherwise
    the memory from the pointer on, of which [Capacity] bytes are read. *)
Definition copy_from (p : FixedPacket) (src : option (list byte)) : outcome FixedPacket :=
  match src with
  | None => Throws
  | Some mem =>
      if decide (Capacity <= Z.of_nat (length mem))
      then Returns {| _buffer := take (Z.to_nat Capacity) mem |}
      else Undefined
  end.

Definition buffer (p : FixedPacket) : list byte := _buffer p.

(** The test of [load_data] and [unload_data] on their offset:
    [index > 0 && (index + DataLen) < (Capacity - 1)], in [std::size_t]. *)
Definition bounds_check (index DataLen : Z) : bool :=
  (0 <? index) && (size_add index DataLen <? size_sub Capacity 1).

(** [std::memcpy(_buffer.data() + index, src, |src|)]. *)
Definition store_bytes (p : FixedPacket) (index : Z) (src : list byte) : access FixedPacket :=
  if decide (0 <= index /\ index + Z.of_nat (length src) <= Z.of_nat (length (_buffer p)))
  then InBounds {| _buffer := take (Z.to_nat index) (_buffer p) ++ src
                              ++ drop (Z.to_nat index + length src) (_buffer p) |}
  else OutOfBounds.

(** The [n] bytes at [_buffer.data() + index]. *)
Definition fetch_bytes (p : FixedPacket) (index n : Z) : access (list byte) :=
  if decide (0 <= index /\ 0 <= n /\ index + n <= Z.of_nat (length (_buffer p)))
  then InBounds (take (Z.to_nat n) (drop (Z.to_nat index) (_buffer p)))
  else OutOfBounds.

(** [load_data<T, DataLen>(data, index)]: the returned
    [std::optional<bool>] and the packet after the call. *)
Definition load_data {T} `{CppType T} (DataLen : Z) (p : FixedPacket)
    (data : T) (index : Z) : option bool * access FixedPacket :=
  if bounds_check index DataLen then
    if is_trivially_copyable_v T then
      (Some true,
       match read_object data DataLen with
       | InBounds src => store_bytes p index src
       | OutOfBounds => OutOfBounds
       end)
    else (None, InBounds p)
  else (None, InBounds p).

(** [unload_data<T, DataLen>(data, index)]: the returned
    [std::optional<bool>] and the output argument after the call. *)
Definition unload_data {T} `{CppType T} (DataLen : Z) (p : FixedPacket)
    (data : T) (index : Z) : option bool * access T :=
  if bounds_check index DataLen then
    if is_trivially_copyable_v T then
      (Some true,
       match fetch_bytes p index DataLen with
       | InBounds src => write_object data src
       | OutOfBounds => OutOfBounds
       end)
    else (None, InBounds data)
  else (None, InBounds data).

Definition is_valid (p : FixedPacket) : bool :=
  bool_decide (_buffer p !!! 0%nat = HEAD_BYTE)
  && bool_decide (_buffer p !!! Z.to_nat (Capacity - 1) = TAIL_BYTE).

(** A sequence of [load_data] calls on one packet, each with its own
    type, length, value and offset. *)
Record load_call : Type := {
  lc_type : Type;
  lc_cpp : CppType lc_type;
  lc_len : Z;
  lc_data : lc_type;
  lc_index : Z;
}.

Definition run_load (c : load_call) (p : FixedPacket) : option bool * access FixedPacket :=
  @load_data (lc_type c) (lc_cpp c) (lc_len c) p (lc_data c) (lc_index c).

(** The packet after a sequence of [load_data] calls that all returned
    true with their copy inside the buffer. *)
Fixpoint run_loads (cs : list load_call) (p : FixedPacket) : option FixedPacket :=
  match cs with
  | [] => Some p
  | c :: cs' =>
      match run_load c p with
      | (Some true, InBounds p') => run_loads cs' p'
      | _ => None
      end
  end.

End FixedPacket.

(** ** The transport boundary *)

(** How a call on the transport ends: with its result, or by throwing. *)
Inductive reply (A : Type) : Type :=
  | Reply (a : A)
  | Raise.
Arguments Reply {A} a.
Arguments Raise {A}.

Definition reply_outcome {A} (r : reply A) : outcome A :=
  match r with
  | Reply a => Returns a
  | Raise => Throws
  end.

(** [ProtocolInterface] over a transport state [T]. Each call returns its
    result with the state it leaves behind. [read t len] returns the
    [int] the transport reports together with the bytes it stored at the
    start of the caller's buffer. [close] is [noexcept]; the others may
    throw. ([error_message] is never called by the manager.) *)
Class ProtocolInterface (T : Type) : Type := {
  open : T -> reply bool * T;
  close : T -> T;
  is_open : T -> bool;
  read : T -> Z -> reply (Z * list byte) * T;
  write : T -> list byte -> Z -> reply Z * T;
}.

(** A transport that replays fixed answers: one per [read], one per
    [write], a failed read or write once they are used up. *)
Record scripted : Type := {
  reads : list (Z * list byte);
  writes : list Z;
  opened : bool;
}.

#[global] Instance scripted_protocol : ProtocolInterface scripted := {|
  open s := (Reply true, {| reads := reads s; writes := writes s; opened := true |});
  close s := {| reads := reads s; writes := writes s; opened := false |};
  is_open s := opened s;
  read s len :=
    match reads s with
    | [] => (Reply (-1, []), s)
    | r :: rest => (Reply r, {| reads := rest; writes := writes s; opened := opened s |})
    end;
  write s data len :=
    match writes s with
    | [] => (Reply (-1), s)
    | w :: rest => (Reply w, {| reads := reads s; writes := rest; opened := opened s |})
    end;
|}.

(** Instrumentation: a transport that behaves as the transport it wraps
    and records every state-changing call made on it, oldest first. *)
Inductive call : Type :=
  | CallOpen
  | CallClose
  | CallRead (len : Z)
  | CallWrite (data : list byte) (len : Z).

Record recorded (T : Type) : Type := { inner : T; calls : list call }.
Arguments inner {T} _.
Arguments calls {T} _.

Definition record_call {T} {A} (r : recorded T) (c : call) (res : A * T) : A * recorded T :=
  (res.1, {| inner := res.2; calls := calls r ++ [c] |}).

#[global] Instance recorded_protocol {T} `{ProtocolInterface T} :
    ProtocolInterface (recorded T) := {|
  open r := record_call r CallOpen (open (inner r));
  close r := {| inner := close (inner r); calls := calls r ++ [CallClose] |};
  is_open r := is_open (inner r);
  read r len := record_call r (CallRead len) (read (inner r) len);
  write r data len := record_call r (CallWrite data len) (write (inner r) data len);
|}.

(** ** [TransceiverManager<Capacity>] *)

Inductive SendMode : Type := FIFO | LATEST_ONLY | LIMITED_FIFO.

#[global] Instance SendMode_eq_decision : EqDecision SendMode.
Proof. solve_decision. Defined.

(** The data members. A [std::queue] is the list of its elements, front
    first. The two worker threads are represented by their enable flags. *)
Record TransceiverManager (T : Type) : Type := {
  _transporter : T;
  _tmp_buffer : list byte;
  _recv_buffer : list byte;
  _recv_buf_len : Z;
  _use_realtime_send : bool;
  _realtime_packets : list FixedPacket;
  _use_realtime_read : bool;
  _latest_packet : option FixedPacket;
  _send_mode : SendMode;
  _max_queue_size : Z;
}.
Arguments _transporter {T} _.
Arguments _tmp_buffer {T} _.
Arguments _recv_buffer {T} _.
Arguments _recv_buf_len {T} _.
Arguments _use_realtime_send {T} _.
Arguments _realtime_packets {T} _.
Arguments _use_realtime_read {T} _.
Arguments _latest_packet {T} _.
Arguments _send_mode {T} _.
Arguments _max_queue_size {T} _.

Section Fields.
Context {T : Type}.
Implicit Type m : TransceiverManager T.

Definition set_transporter (t : T) m : TransceiverManager T :=
  {| _transporter := t; _tmp_buffer := _tmp_buffer m;
     _recv_buffer := _recv_buffer m; _recv_buf_len := _recv_buf_len m;
     _use_realtime_send := _use_realtime_send m;
     _realtime_packets := _realtime_packets m;
     _use_realtime_read := _use_realtime_read m;
     _latest_packet := _latest_packet m; _send_mode := _send_mode m;
     _max_queue_size := _max_queue_size m |}.

Definition set_tmp_buffer (b : list byte) m : TransceiverManager T :=
  {| _transporter := _transporter m; _tmp_buffer := b;
     _recv_buffer := _recv_buffer m; _recv_buf_len := _recv_buf_len m;
     _use_realtime_send := _use_realtime_send m;
     _realtime_packets := _realtime_packets m;
     _use_realtime_read := _use_realtime_read m;
     _latest_packet := _latest_packet m; _send_mode := _send_mode m;
     _max_queue_size := _max_queue_size m |}.

Definition set_recv_buffer (b : list byte) m : TransceiverManager T :=
  {| _transporter := _transporter m; _tmp_buffer := _tmp_buffer m;
     _recv_buffer := b; _recv_buf_len := _recv_buf_len m;
     _use_realtime_send := _use_realtime_send m;
     _realtime_packets := _realtime_packets m;
     _use_realtime_read := _use_realtime_read m;
     _latest_packet := _latest_packet m; _send_mode := _send_mode m;
     _max_queue_size := _max_queue_size m |}.

Definition set_recv_buf_len (n : Z) m : TransceiverManager T :=
  {| _transporter := _transporter m; _tmp_buffer := _tmp_buffer m;
     _recv_buffer := _recv_buffer m; _recv_buf_len := n;
     _use_realtime_send := _use_realtime_send m;
     _realtime_packets := _realtime_packets m;
     _use_realtime_read := _use_realtime_read m;
     _latest_packet := _latest_packet m; _send_mode := _send_mode m;
     _max_queue_size := _max_queue_size m |}.

Definition set_use_realtime_send (b : bool) m : TransceiverManager T :=
  {| _transporter := _transporter m; _tmp_buffer := _tmp_buffer m;
     _recv_buffer := _recv_buffer m; _recv_buf_len := _recv_buf_len m;
     _use_realtime_send := b;
     _realtime_packets := _realtime_packets m;
     _use_realtime_read := _use_realtime_read m;
     _latest_packet := _latest_packet m; _send_mode := _send_mode m;
     _max_queue_size := _max_queue_size m |}.

Definition set_realtime_packets (q : list FixedPacket) m : TransceiverManager T :=
  {| _transporter := _transporter m; _tmp_buffer := _tmp_buffer m;
     _recv_buffer := _recv_buffer m; _recv_buf_len := _recv_buf_len m;
     _use_realtime_send := _use_realtime_send m;
     _realtime_packets := q;
     _use_realtime_read := _use_realtime_read m;
     _latest_packet := _latest_packet m; _send_mode := _send_mode m;
     _max_queue_size := _max_queue_size m |}.

Definition set_use_realtime_read (b : bool) m : TransceiverManager T :=
  {| _transporter := _transporter m; _tmp_buffer := _tmp_buffer m;
     _recv_buffer := _recv_buffer m; _recv_buf_len := _recv_buf_len m;
     _use_realtime_send := _use_realtime_send m;
     _realtime_packets := _realtime_packets m;
     _use_realtime_read := b;
     _latest_packet := _latest_packet m; _send_mode := _send_mode m;
     _max_queue_size := _max_queue_size m |}.

Definition set_latest_packet (p : option FixedPacket) m : TransceiverManager T :=
  {| _transporter := _transporter m; _tmp_buffer := _tmp_buffer m;
     _recv_buffer := _recv_buffer m; _recv_buf_len := _recv_buf_len m;
     _use_realtime_send := _use_realtime_send m;
     _realtime_packets := _realtime_packets m;
     _use_realtime_read := _use_realtime_read m;
     _latest_packet := p; _send_mode := _send_mode m;
     _max_queue_size := _max_queue_size m |}.

Definition set_mode (mode : SendMode) (max_queue_size : Z) m : TransceiverManager T :=
  {| _transporter := _transporter m; _tmp_buffer := _tmp_buffer m;
     _recv_buffer := _recv_buffer m; _recv_buf_len := _recv_buf_len m;
     _use_realtime_send := _use_realtime_send m;
     _realtime_packets := _realtime_packets m;
     _use_realtime_read := _use_realtime_read m;
     _latest_packet := _latest_packet m; _send_mode := mode;
     _max_queue_size := max_queue_size |}.

(** *** The monad of member functions *)

Definition M (A : Type) : Type :=
  TransceiverManager T -> outcome A * TransceiverManager T.

#[global] Instance M_ret : MRet M := fun A a m => (Returns a, m).

#[global] Instance M_bind : MBind M := fun A B k c m =>
  match c m with
  | (Returns a, m') => k a m'
  | (Throws, m') => (Throws, m')
  | (Undefined, m') => (Undefined, m')
  end.

(** [try { body } catch (const std::exception&) { handler }] *)
Definition try_catch {A} (body handler : M A) : M A := fun m =>
  match body m with
  | (Throws, m') => handler m'
  | r => r
  end.

Definition gets {A} (f : TransceiverManager T -> A) : M A :=
  fun m => (Returns (f m), m).

Definition modify (f : TransceiverManager T -> TransceiverManager T) : M unit :=
  fun m => (Returns tt, f m).

Definition undefined {A} : M A := fun m => (Undefined, m).

Definition lift {A} (o : outcome A) : M A := fun m => (o, m).

Definition when (b : bool) (c : M unit) : M unit :=
  if b then c else mret tt.

(** A computation that leaves the cached latest packet as it found it,
    however it ends. *)
Definition keeps_latest {A} (c : M A) : Prop :=
  forall m, _latest_packet (c m).2 = _latest_packet m.

End Fields.

Section TransceiverManager.
Variable Capacity : Z.
Context {T : Type} `{ProtocolInterface T}.

Local Abbreviation manager := (TransceiverManager T).
Local Abbreviation M := (@M T).

(** The constructor, for a non-null [transporter]: both buffers are
    filled with zero. (A null transporter makes it throw.) *)
Definition TransceiverManager_new (transporter : T) (mode : SendMode)
    (max_queue_size : Z) : manager :=
  {| _transporter := transporter;
     _tmp_buffer := replicate (Z.to_nat Capacity) Byte.x00;
     _recv_buffer := replicate (Z.to_nat (size_mul Capacity 2)) Byte.x00;
     _recv_buf_len := 0;
     _use_realtime_send := false;
     _realtime_packets := [];
     _use_realtime_read := false;
     _latest_packet := None;
     _send_mode := mode;
     _max_queue_size := max_queue_size |}.

(** *** Calls on the transport *)

(** [_transporter->read(_tmp_buffer.data(), len)]: the bytes the
    transport stores overwrite the start of [_tmp_buffer]. *)
Definition transport_read_tmp (len : Z) : M Z := fun m =>
  let '(r, t) := read (_transporter m) len in
  let m' := set_transporter t m in
  match r with
  | Reply (n, stored) =>
      if decide (length stored <= length (_tmp_buffer m))%nat
      then (Returns n,
            set_tmp_buffer (stored ++ drop (length stored) (_tmp_buffer m)) m')
      else (Undefined, m')
  | Raise => (Throws, m')
  end.

Definition transport_write (data : list byte) (len : Z) : M Z := fun m =>
  let '(r, t) := write (_transporter m) data len in
  (reply_outcome r, set_transporter t m).

Definition transport_close : M unit :=
  modify (fun m => set_transporter (close (_transporter m)) m).

Definition transport_open : M bool := fun m =>
  let '(r, t) := open (_transporter m) in
  (reply_outcome r, set_transporter t m).

(** *** [check_packet] *)

(** [buffer] is the memory from the pointer on. The second comparison is
    only evaluated when the first byte is the head byte. *)
Definition check_packet (buffer : list byte) (recv_len : Z) : outcome bool :=
  if bool_decide (recv_len ≠ static_cast_int Capacity) then Returns false
  else
    match buffer !! 0%nat with
    | None => Undefined
    | Some head =>
        if bool_decide (head ≠ HEAD_BYTE) then Returns false
        else
          match buffer !! Z.to_nat (size_sub Capacity 1) with
          | None => Undefined
          | Some tail =>
              if bool_decide (tail ≠ TAIL_BYTE) then Returns false
              else Returns true
          end
    end.

(** *** [simple_send_packet] and [send_packet] *)

Definition simple_send_packet (packet : FixedPacket) : M bool :=
  try_catch
    (bytes_written ← transport_write (buffer packet) Capacity;
     if bool_decide (bytes_written = static_cast_int Capacity) then mret true
     else
       transport_close;;
       transport_open;;
       mret false)
    (mret false).

(** [std::queue::push] and [std::queue::pop]; popping an empty queue is
    undefined. *)
Definition queue_push (packet : FixedPacket) : M unit :=
  modify (fun m => set_realtime_packets (_realtime_packets m ++ [packet]) m).

Definition queue_pop : M unit := fun m =>
  match _realtime_packets m with
  | [] => (Undefined, m)
  | _ :: rest => (Returns tt, set_realtime_packets rest m)
  end.

(** [while (!q.empty()) q.pop();], by recursion on the queue. *)
Fixpoint pop_all (q : list FixedPacket) : list FixedPacket :=
  match q with
  | [] => []
  | _ :: rest => pop_all rest
  end.

(** [while (q.size() > max) q.pop();], by recursion on the queue. *)
Fixpoint pop_while_above (max : Z) (q : list FixedPacket) : list FixedPacket :=
  match q with
  | [] => []
  | _ :: rest =>
      if Z.of_nat (length q) >? max then pop_while_above max rest else q
  end.

Definition send_packet (packet : FixedPacket) : M bool :=
  use_realtime_send ← gets _use_realtime_send;
  if (use_realtime_send : bool) then
    try_catch
      (mode ← gets _send_mode;
       match mode with
       | LATEST_ONLY =>
           modify (fun m => set_realtime_packets (pop_all (_realtime_packets m)) m);;
           queue_push packet
       | LIMITED_FIFO =>
           q ← gets _realtime_packets;
           max ← gets _max_queue_size;
           when (Z.of_nat (length q) >=? max) queue_pop;;
           queue_push packet
       | FIFO => queue_push packet
       end;;
       mret true)
      (mret false)
  else simple_send_packet packet.

Definition set_send_mode (mode : SendMode) (max_queue_size : Z) : M unit :=
  modify (set_mode mode max_queue_size);;
  q ← gets _realtime_packets;
  when (bool_decide (mode = LATEST_ONLY) && negb (bool_decide (q = [])))
    (match last q with
     | None => undefined
     | Some last_packet =>
         modify (set_realtime_packets (pop_all q));;
         queue_push last_packet
     end);;
  q ← gets _realtime_packets;
  when (bool_decide (mode = LIMITED_FIFO) && (Z.of_nat (length q) >? max_queue_size))
    (modify (set_realtime_packets (pop_while_above max_queue_size q))).

(** *** [recv_packet] *)

(** [std::memcpy(_recv_buffer.data() + _recv_buf_len, _tmp_buffer.data(),
    recv_len)] *)
Definition append_tmp (recv_len : Z) : M unit := fun m =>
  let n := size_t_wrap recv_len in
  let at_ := _recv_buf_len m in
  if decide (n <= Z.of_nat (length (_tmp_buffer m))
             /\ 0 <= at_
             /\ at_ + n <= Z.of_nat (length (_recv_buffer m)))
  then (Returns tt,
        set_recv_buffer
          (take (Z.to_nat at_) (_recv_buffer m)
           ++ take (Z.to_nat n) (_tmp_buffer m)
           ++ drop (Z.to_nat (at_ + n)) (_recv_buffer m)) m)
  else (Undefined, m).

(** [for (int j = ...; j < _recv_buf_len; j++, k++)
       _recv_buffer[k] = _recv_buffer[j];]
    returning the final [k]. [fuel] bounds the number of iterations: one
    more than the array has elements would already have indexed past it. *)
Fixpoint shift_loop (fuel : nat) (j k : Z) : M Z :=
  len ← gets _recv_buf_len;
  if j <? len then
    match fuel with
    | O => undefined
    | S fuel' =>
        buf ← gets _recv_buffer;
        match buf !! Z.to_nat (size_t_wrap j) with
        | None => undefined
        | Some b =>
            if decide (size_t_wrap k < Z.of_nat (length buf)) then
              modify (set_recv_buffer (<[Z.to_nat (size_t_wrap k) := b]> buf));;
              shift_loop fuel' (int_add j 1) (int_add k 1)
            else undefined
        end
    end
  else mret k.

(** [for (int i = ...; (i + Capacity) <= _recv_buf_len; i++)] with its
    body; [packet] is the output argument, returned with the result.
    [fuel] bounds the number of iterations as in [shift_loop]. *)
Fixpoint scan_loop (fuel : nat) (packet : FixedPacket) (i : Z)
    : M (bool * FixedPacket) :=
  len ← gets _recv_buf_len;
  if size_add (size_t_wrap i) Capacity <=? size_t_wrap len then
    match fuel with
    | O => undefined
    | S fuel' =>
        buf ← gets _recv_buffer;
        let window := drop (Z.to_nat (size_t_wrap i)) buf in
        found ← lift (check_packet window (static_cast_int Capacity));
        if (found : bool) then
          packet' ← lift (copy_from Capacity packet (Some window));
          k ← shift_loop (S (length buf))
                (static_cast_int (size_add (size_t_wrap i) Capacity)) 0;
          modify (set_recv_buf_len k);;
          mret (true, packet')
        else scan_loop fuel' packet (int_add i 1)
    end
  else mret (false, packet).

(** The statements of [recv_packet] that join a partial read to the
    carry-over buffer: the reset on overflow, the copy, the new length. *)
Definition append_to_carry_over (recv_len : Z) : M unit :=
  len ← gets _recv_buf_len;
  when (int_add len recv_len >? static_cast_int (size_mul Capacity 2))
    (modify (set_recv_buf_len 0));;
  append_tmp recv_len;;
  modify (fun m => set_recv_buf_len (int_add (_recv_buf_len m) recv_len) m).

Definition recv_packet (packet : FixedPacket) : M (bool * FixedPacket) :=
  try_catch
    (recv_len ← transport_read_tmp Capacity;
     if 0 <? recv_len then
       tmp ← gets _tmp_buffer;
       complete ← lift (check_packet tmp recv_len);
       if (complete : bool) then
         packet' ← lift (copy_from Capacity packet (Some tmp));
         mret (true, packet')
       else
         append_to_carry_over recv_len;;
         buf ← gets _recv_buffer;
         scan_loop (S (length buf)) packet 0
     else
       transport_close;;
       transport_open;;
       mret (false, packet))
    (mret (false, packet)).

(** *** The receive side of the worker threads *)

Definition get_latest_packet : M (option FixedPacket) :=
  latest ← gets _latest_packet;
  let result := None in
  mret (if bool_decide (is_Some latest) then latest else result).

(** One iteration of the receive loop started by [enable_realtime_read];
    [packet] is the loop's local packet. *)
Definition realtime_read_iteration (packet : FixedPacket) : M FixedPacket :=
  r ← recv_packet packet;
  if (r.1 : bool) then
    modify (set_latest_packet (Some r.2));;
    mret r.2
  else mret r.2.

(** One iteration of the send loop started by [enable_realtime_send]. *)
Definition realtime_send_iteration (packet : FixedPacket) : M FixedPacket :=
  q ← gets _realtime_packets;
  match q with
  | [] => mret packet
  | front :: _ =>
      queue_pop;;
      simple_send_packet front;;
      mret front
  end.

(** The flags of [enable_realtime_send] and [enable_realtime_read]. *)
Definition enable_realtime_send (enable : bool) : M unit :=
  modify (set_use_realtime_send enable).

Definition enable_realtime_read (enable : bool) : M unit :=
  modify (set_use_realtime_read enable).

(** *** Well-formed states and runs *)

(** The sizes of the two arrays, and the range of the live length. *)
Definition manager_wf (m : manager) : Prop :=
  Z.of_nat (length (_tmp_buffer m)) = Capacity /\
  Z.of_nat (length (_recv_buffer m)) = 2 * Capacity /\
  0 <= _recv_buf_len m <= 2 * Capacity.

(** The live part of the carry-over buffer. *)
Definition carry_over (m : manager) : list byte :=
  take (Z.to_nat (_recv_buf_len m)) (_recv_buffer m).

(** A window of [Capacity] bytes of [mem] starting at [i] with the head
    byte first and the tail byte last. *)
Definition framed_at (mem : list byte) (i : Z) : Prop :=
  mem !! Z.to_nat i = Some HEAD_BYTE /\
  mem !! Z.to_nat (i + Capacity - 1) = Some TAIL_BYTE.

#[global] Instance framed_at_dec mem i : Decision (framed_at mem i).
Proof. unfold framed_at. apply _. Defined.

(** A well-formed frame. *)
Definition well_formed_frame (frame : list byte) : Prop :=
  Z.of_nat (length frame) = Capacity /\ framed_at frame 0.

(** What a transport honouring the contract of [read] may answer to a
    request for [Capacity] bytes: it reports at most [Capacity] bytes,
    stores at most that many, and on success has stored what it reports. *)
Definition read_answer (n : Z) (stored : list byte) : Prop :=
  n <= Capacity /\
  Z.of_nat (length stored) <= Capacity /\
  (0 < n -> Z.of_nat (length stored) = n).

(** A [read] that honours the contract: it throws, or it returns such an
    answer. *)
Definition read_honoured (r : reply (Z * list byte)) : Prop :=
  match r with
  | Reply (n, stored) => read_answer n stored
  | Raise => True
  end.

(** Every [read] of the transport honours the contract. *)
Definition transport_honours_contract : Prop :=
  forall t : T, read_honoured (read t Capacity).1.

(** Where [append_to_carry_over] copies [n] new bytes to: the live
    length, or the start of the array when the sum would pass
    [2 * Capacity]. *)
Definition append_base (m : manager) (n : Z) : Z :=
  if _recv_buf_len m + n >? 2 * Capacity then 0 else _recv_buf_len m.

(** The live bytes once the bytes [stored] by a read are joined to the
    carry-over buffer. *)
Definition joined (m : manager) (stored : list byte) : list byte :=
  (if _recv_buf_len m + Z.of_nat (length stored) >? 2 * Capacity
   then [] else carry_over m) ++ stored.

(** The state reached by consecutive [recv_packet] calls, all with the
    same output argument, none of them ending in undefined behaviour. *)
Fixpoint recv_run (n : nat) (packet : FixedPacket) (m : manager) : option manager :=
  match n with
  | O => Some m
  | S n' =>
      match recv_packet packet m with
      | (Undefined, _) => None
      | (_, m') => recv_run n' packet m'
      end
  end.

(** [n] consecutive calls of [get_latest_packet]: what they return, in
    order, and the state after them. *)
Fixpoint poll_latest (n : nat) (m : manager) : list (outcome (option FixedPacket)) * manager :=
  match n with
  | O => ([], m)
  | S n' =>
      let '(r, m') := get_latest_packet m in
      let '(rs, m'') := poll_latest n' m' in
      (r :: rs, m'')
  end.

End TransceiverManager.

(** ** Concrete packets, transports and managers

    The instantiation [Capacity = 16] ([FixedPacket16],
    [FixedPacketTool16]) on scripted transports. *)

Definition frame16 : list byte :=
  [Byte.xff; Byte.x01; Byte.x02; Byte.x03; Byte.x04; Byte.x05; Byte.x06;
   Byte.x07; Byte.x08; Byte.x09; Byte.x0a; Byte.x0b; Byte.x0c; Byte.x0d;
   Byte.x5a; Byte.x0d].

Definition script16 (rs : list (Z * list byte)) (ws : list Z) : scripted :=
  {| reads := rs; writes := ws; opened := true |}.

Definition manager16 (rs : list (Z * list byte)) (ws : list Z)
    : TransceiverManager scripted :=
  TransceiverManager_new 16 (script16 rs ws) FIFO 100.

(** The scenario of the specification: five stray bytes, a frame, and
    four more stray bytes, read as 9 and then 16 bytes. *)
Definition scenario_first : list byte :=
  replicate 5 Byte.xaa ++ take 4 frame16.

Definition scenario_second : list byte :=
  drop 4 frame16 ++ replicate 4 Byte.xbb.

Definition scenario_start : TransceiverManager scripted :=
  manager16 [(9, scenario_first); (16, scenario_second)] [].

Definition scenario_after_first : TransceiverManager scripted :=
  (recv_packet 16 (FixedPacket_new 16) scenario_start).2.

Definition scenario_read : TransceiverManager scripted :=
  (transport_read_tmp 16 scenario_after_first).2.

Definition scenario_appended : TransceiverManager scripted :=
  (append_to_carry_over 16 16 scenario_read).2.



(** One stray head byte, then a frame whose check byte equals the tail
    byte, read as 1, 8 and 8 bytes. *)
Definition decoy_frame16 : list byte :=
  [Byte.xff; Byte.x01; Byte.x02; Byte.x03; Byte.x04; Byte.x05; Byte.x06;
   Byte.x07; Byte.x08; Byte.x09; Byte.x0a; Byte.x0b; Byte.x0c; Byte.x0e;
   Byte.x0d; Byte.x0d].

Definition decoy_start : TransceiverManager scripted :=
  manager16 [(1, [Byte.xff]); (8, take 8 decoy_frame16);
             (8, drop 8 decoy_frame16)] [].

(** A manager on a recording transport whose next [write] is short. *)
Definition short_writer : TransceiverManager (recorded scripted) :=
  TransceiverManager_new 16 {| inner := script16 [] [7]; calls := [] |} FIFO 100.

(** A manager whose send thread is active, bounded to zero packets. *)
Definition zero_bound : outcome unit * TransceiverManager scripted :=
  (enable_realtime_send true ≫= fun _ => set_send_mode LIMITED_FIFO 0)
    (manager16 [] []).







(** A transport about to deliver two frames in three reads, the second
    read holding the end of the first frame and the start of the second. *)
Definition crowded_pair_then : scripted :=
  script16 [(7, take 7 frame16); (16, drop 7 frame16 ++ take 7 decoy_frame16);
            (9, drop 7 decoy_frame16)] [].

(** Thirty stray bytes held, five more about to arrive, and then the two
    frames of [crowded_pair_then]. *)
Definition crowded_pair : TransceiverManager scripted :=
  set_recv_buf_len 30
    (set_recv_buffer (replicate 32 Byte.xaa)
       (manager16 ((5, replicate 5 Byte.xaa) :: reads crowded_pair_then) [])).

Definition crowded_pair_reset : TransceiverManager scripted :=
  (recv_packet 16 (FixedPacket_new 16) crowded_pair).2.

(** The payloads of the [write] calls a recording transport has seen,
    oldest first. *)
Definition written (cs : list call) : list (list byte) :=
  omap (fun c => match c with CallWrite data _ => Some data | _ => None end) cs.

(** What happens to the send queue, one step at a time: a client calls
    [send_packet], or the send thread runs one iteration of its loop,
    which it does only while [_use_realtime_send] holds. (The thread
    writes the packet it popped after releasing the lock; a [send_packet]
    in between touches the queue only, so the order of the two does not
    matter.) *)
Inductive send_event : Type :=
  | ClientSends (packet : FixedPacket)
  | ThreadIterates.

Section SendEvents.
Variable Capacity : Z.
Context {T : Type} `{ProtocolInterface T}.

(** [local] is the thread's local packet, returned at the end. *)
Fixpoint send_events (es : list send_event) (local : FixedPacket)
    : M (T := T) FixedPacket :=
  match es with
  | [] => mret local
  | ClientSends packet :: es' =>
      send_packet Capacity packet;;
      send_events es' local
  | ThreadIterates :: es' =>
      running ← gets _use_realtime_send;
      if (running : bool) then
        local' ← realtime_send_iteration Capacity local;
        send_events es' local'
      else send_events es' local
  end.

Definition sent_by_clients (es : list send_event) : list FixedPacket :=
  omap (fun e => match e with ClientSends p => Some p | ThreadIterates => None end) es.

End SendEvents.

Section ReceiveLoop.
Variable Capacity : Z.
Context {T : Type} `{ProtocolInterface T}.

(** The packets that [n] consecutive [recv_packet] calls return, in
    order. The output argument of each call is the packet the call before
    it left, as in the loop of the receive thread. *)
Fixpoint recv_frames (n : nat) (packet : FixedPacket)
    : M (T := T) (list FixedPacket) :=
  match n with
  | O => mret []
  | S n' =>
      r ← recv_packet Capacity packet;
      rest ← recv_frames n' r.2;
      mret (if (r.1 : bool) then r.2 :: rest else rest)
  end.

End ReceiveLoop.

(** A transport over the bytes still to come: [read] delivers the next
    bytes, at most [len] of them, and reports how many. *)
Record byte_stream : Type := { pending : list byte }.

#[global] Instance byte_stream_protocol : ProtocolInterface byte_stream := {|
  open s := (Reply true, s);
  close s := s;
  is_open s := true;
  read s len :=
    let n := Z.min len (Z.of_nat (length (pending s))) in
    (Reply (n, take (Z.to_nat n) (pending s)),
     {| pending := drop (Z.to_nat n) (pending s) |});
  write s data len := (Reply len, s);
|}.

(** A transport whose cable is out: every call on it throws. *)
Inductive unplugged : Type := Unplugged.

#[global] Instance unplugged_protocol : ProtocolInterface unplugged := {|
  open s := (Raise, s);
  close s := s;
  is_open s := false;
  read s len := (Raise, s);
  write s data len := (Raise, s);
|}.

(** ** Further concrete packets and managers *)

Definition packet16 : FixedPacket := {| _buffer := frame16 |}.

(** A [uint32_t] loaded at offset 3 and a [uint16_t] loaded at offset 9. *)
Definition two_loads : list load_call :=
  [ {| lc_type := Z; lc_cpp := uint32_t; lc_len := 4;
       lc_data := 3735928559; lc_index := 3 |};
    {| lc_type := Z; lc_cpp := uint16_t; lc_len := 2;
       lc_data := 48879; lc_index := 9 |} ].

(** A manager whose send thread is active, with packets queued. *)
Definition queued16 (q : list FixedPacket) (mode : SendMode) (max_queue_size : Z)
    : TransceiverManager scripted :=
  set_realtime_packets q
    (set_use_realtime_send true
       (TransceiverManager_new 16 (script16 [] []) mode max_queue_size)).

(** A manager on a recording transport whose first [write] is complete
    and whose second is short, the send thread active. *)
Definition fifo_recorder : TransceiverManager (recorded scripted) :=
  set_use_realtime_send true
    (TransceiverManager_new 16 {| inner := script16 [] [16; 7]; calls := [] |}
       FIFO 100).

(** Managers on recording transports: one whose next [read] reports an
    error, one whose [read] throws. *)
Definition silent_reader : TransceiverManager (recorded scripted) :=
  TransceiverManager_new 16 {| inner := script16 [] []; calls := [] |} FIFO 100.

Definition unplugged_reader : TransceiverManager (recorded unplugged) :=
  TransceiverManager_new 16 {| inner := Unplugged; calls := [] |} FIFO 100.

(** ** [UartProtocol]

    The serial port behind [ProtocolInterface]. The operating system is
    an abstract state [W] on which every system call acts; the constants
    and functions of [<termios.h>] and [<fcntl.h>] are those of a
    platform. *)

(** [struct termios]: the four flag words, the control characters, and
    the speeds. *)
Record termios : Type := {
  c_iflag : Z;
  c_oflag : Z;
  c_cflag : Z;
  c_lflag : Z;
  c_cc : list Z;
  c_ispeed : Z;
  c_ospeed : Z;
}.

Definition set_c_iflag (f : Z) (o : termios) : termios :=
  {| c_iflag := f; c_oflag := c_oflag o; c_cflag := c_cflag o;
     c_lflag := c_lflag o; c_cc := c_cc o;
     c_ispeed := c_ispeed o; c_ospeed := c_ospeed o |}.

Definition set_c_oflag (f : Z) (o : termios) : termios :=
  {| c_iflag := c_iflag o; c_oflag := f; c_cflag := c_cflag o;
     c_lflag := c_lflag o; c_cc := c_cc o;
     c_ispeed := c_ispeed o; c_ospeed := c_ospeed o |}.

Definition set_c_cflag (f : Z) (o : termios) : termios :=
  {| c_iflag := c_iflag o; c_oflag := c_oflag o; c_cflag := f;
     c_lflag := c_lflag o; c_cc := c_cc o;
     c_ispeed := c_ispeed o; c_ospeed := c_ospeed o |}.

Definition set_c_lflag (f : Z) (o : termios) : termios :=
  {| c_iflag := c_iflag o; c_oflag := c_oflag o; c_cflag := c_cflag o;
     c_lflag := f; c_cc := c_cc o;
     c_ispeed := c_ispeed o; c_ospeed := c_ospeed o |}.

Definition set_c_cc (cc : list Z) (o : termios) : termios :=
  {| c_iflag := c_iflag o; c_oflag := c_oflag o; c_cflag := c_cflag o;
     c_lflag := c_lflag o; c_cc := cc;
     c_ispeed := c_ispeed o; c_ospeed := c_ospeed o |}.

(** [flags |= bits] and [flags &= ~bits]. *)
Definition set_bits (flags bits : Z) : Z := Z.lor flags bits.
Definition clear_bits (flags bits : Z) : Z := Z.land flags (Z.lnot bits).

(** The macros of [<termios.h>] and [<fcntl.h>] that the code names, and
    the two library functions that store a speed. *)
Class Platform : Type := {
  B230400 : Z; B115200 : Z; B19200 : Z; B9600 : Z;
  B4800 : Z; B2400 : Z; B1200 : Z; B300 : Z;
  CLOCAL : Z; CREAD : Z; CRTSCTS : Z;
  IXON : Z; IXOFF : Z; IXANY : Z;
  CSIZE : Z; CS5 : Z; CS6 : Z; CS7 : Z; CS8 : Z;
  PARENB : Z; PARODD : Z; INPCK : Z; CSTOPB : Z;
  OPOST : Z;
  ICANON : Z; ECHO : Z; ECHOE : Z; ISIG : Z;
  BRKINT : Z; ICRNL : Z; ISTRIP : Z;
  VTIME : nat; VMIN : nat;
  TCIFLUSH : Z; TCSANOW : Z;
  O_RDWR : Z; O_NOCTTY : Z; O_NDELAY : Z; F_SETFL : Z;
  cfsetispeed : termios -> Z -> termios;
  cfsetospeed : termios -> Z -> termios;
}.

(** The system calls, each returning its result and the state it leaves;
    [tcgetattr] also returns the structure it fills, [sys_read] the bytes
    it stores at the start of the buffer. *)
Class Posix (W : Type) : Type := {
  errno : W -> Z;
  sys_open : W -> String.string -> Z -> Z * W;
  sys_fcntl : W -> Z -> Z -> Z -> Z * W;
  tcgetattr : W -> Z -> Z * termios * W;
  tcflush : W -> Z -> Z -> Z * W;
  tcsetattr : W -> Z -> Z -> termios -> Z * W;
  sys_close : W -> Z -> Z * W;
  sys_read : W -> Z -> Z -> Z * list byte * W;
  sys_write : W -> Z -> list byte -> Z -> Z * W;
}.

(** [std::tolower] in the C locale, which the program never leaves: its
    argument has to be representable as [unsigned char] or be [EOF]. *)
Definition tolower (ch : Z) : outcome Z :=
  if decide (-1 <= ch <= 255)
  then Returns (if decide (65 <= ch <= 90) then ch + 32 else ch)
  else Undefined.

Module UartProtocol.

(** The texts assigned to [_error_message], each with the value it
    prints. *)
Inductive message : Type :=
  | NoMessage
  | TcgetattrFailed (error : Z)
  | UnsupportedBaudRate (speed : Z)
  | InvalidFlowControl (flow_ctrl : Z)
  | InvalidDataBits (databits : Z)
  | InvalidParity (parity : Z)
  | InvalidStopBits (stopbits : Z)
  | TcflushFailed (error : Z)
  | TcsetattrFailed (error : Z)
  | CantOpenUartDevice (device_path : String.string)
  | FcntlFailed
  | Strerror (error : Z).

Record t : Type := {
  _fd : Z;
  _is_open : bool;
  _error_message : message;
  _device_path : String.string;
  _speed : Z;
  _flow_ctrl : Z;
  _databits : Z;
  _stopbits : Z;
  _parity : Z;
}.

(** [UartProtocol(device_path, speed, flow_ctrl, databits, stopbits,
    parity)] *)
Definition new (device_path : String.string)
    (speed flow_ctrl databits stopbits parity : Z) : t :=
  {| _fd := -1; _is_open := false; _error_message := NoMessage;
     _device_path := device_path; _speed := speed; _flow_ctrl := flow_ctrl;
     _databits := databits; _stopbits := stopbits; _parity := parity |}.

Definition set_fd (fd : Z) (u : t) : t :=
  {| _fd := fd; _is_open := _is_open u; _error_message := _error_message u;
     _device_path := _device_path u; _speed := _speed u;
     _flow_ctrl := _flow_ctrl u; _databits := _databits u;
     _stopbits := _stopbits u; _parity := _parity u |}.

Definition set_is_open (b : bool) (u : t) : t :=
  {| _fd := _fd u; _is_open := b; _error_message := _error_message u;
     _device_path := _device_path u; _speed := _speed u;
     _flow_ctrl := _flow_ctrl u; _databits := _databits u;
     _stopbits := _stopbits u; _parity := _parity u |}.

Definition set_error_message (msg : message) (u : t) : t :=
  {| _fd := _fd u; _is_open := _is_open u; _error_message := msg;
     _device_path := _device_path u; _speed := _speed u;
     _flow_ctrl := _flow_ctrl u; _databits := _databits u;
     _stopbits := _stopbits u; _parity := _parity u |}.

Section UartProtocol.
Context {platform : Platform}.

(** The array [baud_rates] of [set_param]: fourteen pairs of which eight
    are given; the other six are value-initialised. *)
Definition baud_rates : list (Z * Z) :=
  [(B230400, 230400); (B115200, 115200); (B19200, 19200); (B9600, 9600);
   (B4800, 4800); (B2400, 2400); (B1200, 1200); (B300, 300)]
  ++ replicate 6 (0, 0).

(** The loop over [baud_rates]: the system speed of the first pair whose
    user speed is [speed]. *)
Definition find_baud (speed : Z) : option Z :=
  fst <$> List.find (fun entry => bool_decide (speed = entry.2)) baud_rates.

(** [switch (flow)] *)
Definition flow_control (flow_ctrl : Z) (o : termios) : option termios :=
  if bool_decide (flow_ctrl = 0) then
    Some (set_c_cflag (clear_bits (c_cflag o) CRTSCTS) o)
  else if bool_decide (flow_ctrl = 1) then
    Some (set_c_cflag (set_bits (c_cflag o) CRTSCTS) o)
  else if bool_decide (flow_ctrl = 2) then
    Some (set_c_iflag (set_bits (c_iflag o) (Z.lor (Z.lor IXON IXOFF) IXANY)) o)
  else None.

Definition valid_databits : list Z := [5; 6; 7; 8].

(** [switch (databits)], which has no default. *)
Definition data_bits (databits : Z) (o : termios) : termios :=
  if bool_decide (databits = 5) then set_c_cflag (set_bits (c_cflag o) CS5) o
  else if bool_decide (databits = 6) then set_c_cflag (set_bits (c_cflag o) CS6) o
  else if bool_decide (databits = 7) then set_c_cflag (set_bits (c_cflag o) CS7) o
  else if bool_decide (databits = 8) then set_c_cflag (set_bits (c_cflag o) CS8) o
  else o.

(** [switch (std::tolower(parity))] on the lowered character: ['n'],
    ['o'], ['e'], ['s']. *)
Definition parity_bits (lower : Z) (o : termios) : option termios :=
  if bool_decide (lower = 110) then
    let o := set_c_cflag (clear_bits (c_cflag o) PARENB) o in
    Some (set_c_iflag (clear_bits (c_iflag o) INPCK) o)
  else if bool_decide (lower = 111) then
    let o := set_c_cflag (set_bits (c_cflag o) (Z.lor PARENB PARODD)) o in
    Some (set_c_iflag (set_bits (c_iflag o) INPCK) o)
  else if bool_decide (lower = 101) then
    let o := set_c_cflag (set_bits (c_cflag o) PARENB) o in
    let o := set_c_cflag (clear_bits (c_cflag o) PARODD) o in
    Some (set_c_iflag (set_bits (c_iflag o) INPCK) o)
  else if bool_decide (lower = 115) then
    Some (set_c_cflag (clear_bits (c_cflag o) PARENB) o)
  else None.

(** [switch (stopbits)] *)
Definition stop_bits (stopbits : Z) (o : termios) : option termios :=
  if bool_decide (stopbits = 1) then
    Some (set_c_cflag (clear_bits (c_cflag o) CSTOPB) o)
  else if bool_decide (stopbits = 2) then
    Some (set_c_cflag (set_bits (c_cflag o) CSTOPB) o)
  else None.

(** The last assignments of [set_param] before it flushes: raw output,
    non-canonical input, no mapping of special characters, and the two
    control characters. *)
Definition raw_mode (o : termios) : termios :=
  let o := set_c_oflag (clear_bits (c_oflag o) OPOST) o in
  let o := set_c_lflag
             (clear_bits (c_lflag o)
                (Z.lor (Z.lor (Z.lor ICANON ECHO) ECHOE) ISIG)) o in
  let o := set_c_iflag
             (clear_bits (c_iflag o)
                (Z.lor (Z.lor (Z.lor (Z.lor BRKINT ICRNL) INPCK) ISTRIP) IXON)) o in
  let o := set_c_cc (<[VTIME := 1]> (c_cc o)) o in
  set_c_cc (<[VMIN := 1]> (c_cc o)) o.

(** The statements of [set_param] between [tcgetattr] and [tcflush]: the
    structure to install, or the message of the parameter refused. *)
Definition configure (options : termios)
    (speed flow_ctrl databits stopbits parity : Z) : outcome (message + termios) :=
  match find_baud speed with
  | None => Returns (inl (UnsupportedBaudRate speed))
  | Some sys_baud =>
      let options := cfsetispeed options sys_baud in
      let options := cfsetospeed options sys_baud in
      let options :=
        set_c_cflag (set_bits (c_cflag options) (Z.lor CLOCAL CREAD)) options in
      match flow_control flow_ctrl options with
      | None => Returns (inl (InvalidFlowControl flow_ctrl))
      | Some options =>
          if bool_decide (databits ∈ valid_databits) then
            let options :=
              set_c_cflag (clear_bits (c_cflag options) CSIZE) options in
            let options := data_bits databits options in
            match tolower parity with
            | Returns lower =>
                match parity_bits lower options with
                | None => Returns (inl (InvalidParity parity))
                | Some options =>
                    match stop_bits stopbits options with
                    | None => Returns (inl (InvalidStopBits stopbits))
                    | Some options => Returns (inr (raw_mode options))
                    end
                end
            | _ => Undefined
            end
          else Returns (inl (InvalidDataBits databits))
      end
  end.

Context {W : Type} {posix : Posix W}.

Definition set_param (speed flow_ctrl databits stopbits parity : Z)
    (u : t) (w : W) : outcome bool * t * W :=
  let '(ret, options, w) := tcgetattr w (_fd u) in
  if bool_decide (ret ≠ 0) then
    (Returns false, set_error_message (TcgetattrFailed (errno w)) u, w)
  else
    match configure options speed flow_ctrl databits stopbits parity with
    | Returns (inl msg) => (Returns false, set_error_message msg u, w)
    | Returns (inr options) =>
        let '(ret, w) := tcflush w (_fd u) TCIFLUSH in
        if bool_decide (ret ≠ 0) then
          (Returns false, set_error_message (TcflushFailed (errno w)) u, w)
        else
          let '(ret, w) := tcsetattr w (_fd u) TCSANOW options in
          if bool_decide (ret ≠ 0) then
            (Returns false, set_error_message (TcsetattrFailed (errno w)) u, w)
          else (Returns true, u, w)
    | _ => (Undefined, u, w)
    end.

Definition open (u : t) (w : W) : outcome bool * t * W :=
  if _is_open u then (Returns true, u, w)
  else
    let '(fd, w) :=
      sys_open w (_device_path u) (Z.lor (Z.lor O_RDWR O_NOCTTY) O_NDELAY) in
    let u := set_fd fd u in
    if bool_decide (-1 = _fd u) then
      (Returns false, set_error_message (CantOpenUartDevice (_device_path u)) u, w)
    else
      let '(ret, w) := sys_fcntl w (_fd u) F_SETFL 0 in
      if ret <? 0 then (Returns false, set_error_message FcntlFailed u, w)
      else
        match set_param (_speed u) (_flow_ctrl u) (_databits u) (_stopbits u)
                (_parity u) u w with
        | (Returns true, u, w) => (Returns true, set_is_open true u, w)
        | r => r
        end.

Definition is_open (u : t) : bool := _is_open u.

Definition close (u : t) (w : W) : t * W :=
  if negb (_is_open u) then (u, w)
  else
    let '(ret, w) := sys_close w (_fd u) in
    let u := if bool_decide (ret = -1)
             then set_error_message (Strerror (errno w)) u else u in
    (set_is_open false (set_fd (-1) u), w).

(** [read]: the [int] returned, the bytes stored in the caller's buffer,
    and the states left. *)
Definition read (u : t) (w : W) (len : Z) : Z * list byte * t * W :=
  let '(n, stored, w) := sys_read w (_fd u) len in
  let ret := int_wrap n in
  (ret, stored,
   if ret <? 0 then set_error_message (Strerror (errno w)) u else u, w).

Definition write (u : t) (w : W) (data : list byte) (len : Z) : Z * t * W :=
  let '(n, w) := sys_write w (_fd u) data len in
  let ret := int_wrap n in
  (ret, if ret <? 0 then set_error_message (Strerror (errno w)) u else u, w).

End UartProtocol.

End UartProtocol.

(** A platform for the examples: the values of Linux's
    [<asm-generic/termbits.h>] and [<fcntl.h>], the speeds kept in the
    two speed members. *)
#[global] Instance linux : Platform := {|
  B230400 := 4099; B115200 := 4098; B19200 := 14; B9600 := 13;
  B4800 := 12; B2400 := 11; B1200 := 9; B300 := 7;
  CLOCAL := 2048; CREAD := 128; CRTSCTS := 2147483648;
  IXON := 1024; IXOFF := 4096; IXANY := 2048;
  CSIZE := 48; CS5 := 0; CS6 := 16; CS7 := 32; CS8 := 48;
  PARENB := 256; PARODD := 512; INPCK := 16; CSTOPB := 64;
  OPOST := 1;
  ICANON := 2; ECHO := 8; ECHOE := 16; ISIG := 1;
  BRKINT := 2; ICRNL := 256; ISTRIP := 32;
  VTIME := 5; VMIN := 6;
  TCIFLUSH := 0; TCSANOW := 0;
  O_RDWR := 2; O_NOCTTY := 256; O_NDELAY := 2048; F_SETFL := 4;
  cfsetispeed o speed :=
    {| c_iflag := c_iflag o; c_oflag := c_oflag o; c_cflag := c_cflag o;
       c_lflag := c_lflag o; c_cc := c_cc o;
       c_ispeed := speed; c_ospeed := c_ospeed o |};
  cfsetospeed o speed :=
    {| c_iflag := c_iflag o; c_oflag := c_oflag o; c_cflag := c_cflag o;
       c_lflag := c_lflag o; c_cc := c_cc o;
       c_ispeed := c_ispeed o; c_ospeed := speed |};
|}.

Definition zero_termios : termios :=
  {| c_iflag := 0; c_oflag := 0; c_cflag := 0; c_lflag := 0;
     c_cc := replicate 32 0; c_ispeed := 0; c_ospeed := 0 |}.

(** An operating system for the examples: it replays a list of results,
    one per system call, and fails every call once the list is used up.
    [tcgetattr] fills the structure with zeros, [sys_read] stores zeros. *)
Definition next_result (w : list Z) : Z * list Z :=
  match w with
  | [] => (-1, [])
  | r :: w' => (r, w')
  end.

#[global] Instance scripted_os : Posix (list Z) := {|
  errno w := 0;
  sys_open w path flags := next_result w;
  sys_fcntl w fd cmd arg := next_result w;
  tcgetattr w fd := let '(r, w') := next_result w in (r, zero_termios, w');
  tcflush w fd queue := next_result w;
  tcsetattr w fd actions options := next_result w;
  sys_close w fd := next_result w;
  sys_read w fd len :=
    let '(r, w') := next_result w in (r, replicate (Z.to_nat r) Byte.x00, w');
  sys_write w fd data len := next_result w;
|}.

(** A port with the default parameters of the constructor. *)
Module Examples.
Import String.
Definition ttyUSB0_path : string := "/dev/ttyUSB0"%string.
End Examples.

Definition ttyUSB0 : UartProtocol.t :=
  UartProtocol.new Examples.ttyUSB0_path 115200 0 8 1 78.

(** The port after an [open] in which every call succeeds, descriptor 3,
    and after one in which [tcgetattr] fails. *)
Definition ttyUSB0_opened : UartProtocol.t * list Z :=
  Eval vm_compute in
    let r := UartProtocol.open ttyUSB0 [3; 0; 0; 0; 0] in (r.1.2, r.2).

Definition ttyUSB0_failed : UartProtocol.t * list Z :=
  Eval vm_compute in
    let r := UartProtocol.open ttyUSB0 [3; 0; -1] in (r.1.2, r.2).

(** The settings [set_param] installs for odd parity with software flow
    control, from a structure of zeros. *)
Definition odd_parity_settings : termios :=
  Eval vm_compute in
    match UartProtocol.configure zero_termios 115200 2 8 1 79 with
    | Returns (inr installed) => installed
    | _ => zero_termios
    end.

(** ** [UsbBulkProtocol]

    The USB bulk endpoints behind [ProtocolInterface]. libusb is an
    abstract state [L] on which every call acts. A call with an output
    parameter takes the value the parameter has and returns the value it
    leaves; a null pointer is [None]. *)

(** The members of [struct libusb_device_descriptor] that are read. *)
Record libusb_device_descriptor : Type := {
  idVendor : Z;
  idProduct : Z;
  iSerialNumber : Z;
}.

Definition LIBUSB_SUCCESS : Z := 0.
Definition LIBUSB_ERROR_TIMEOUT : Z := -7.

Class Libusb (L : Type) : Type := {
  libusb_context : Type;
  libusb_device : Type;
  libusb_device_handle : Type;
  libusb_init : L -> option libusb_context -> Z * option libusb_context * L;
  libusb_exit : L -> option libusb_context -> L;
  (** the count returned and the list stored *)
  libusb_get_device_list :
    L -> option libusb_context -> Z * list libusb_device * L;
  libusb_free_device_list : L -> list libusb_device -> Z -> L;
  libusb_get_device_descriptor :
    L -> libusb_device -> Z * libusb_device_descriptor * L;
  libusb_open :
    L -> libusb_device -> option libusb_device_handle
    -> Z * option libusb_device_handle * L;
  libusb_close : L -> option libusb_device_handle -> L;
  (** the result and the bytes stored at the start of the buffer *)
  libusb_get_string_descriptor_ascii :
    L -> option libusb_device_handle -> Z -> Z -> Z * list byte * L;
  libusb_kernel_driver_active : L -> option libusb_device_handle -> Z -> Z * L;
  libusb_detach_kernel_driver : L -> option libusb_device_handle -> Z -> Z * L;
  libusb_attach_kernel_driver : L -> option libusb_device_handle -> Z -> Z * L;
  libusb_claim_interface : L -> option libusb_device_handle -> Z -> Z * L;
  libusb_release_interface : L -> option libusb_device_handle -> Z -> Z * L;
  (** the result, [actual_length], and the bytes stored for an IN
      endpoint *)
  libusb_bulk_transfer :
    L -> option libusb_device_handle -> Z -> list byte -> Z -> Z
    -> Z * Z * list byte * L;
  (** [std::to_string] *)
  to_string : Z -> list byte;
}.

Module UsbBulkProtocol.

Record UsbDeviceDescriptor : Type := {
  vendor_id : Z;
  product_id : Z;
  interface_number : Z;
  bulk_in_endpoint : Z;
  bulk_out_endpoint : Z;
  timeout_ms : Z;
}.

(** The texts assigned to [_error_message], each with the value it
    prints. *)
Inductive message : Type :=
  | NoMessage
  | DeviceNotOpen
  | InvalidBufferOrLength
  | ReadTimedOut
  | ReadFailed (error_code : Z)
  | WriteFailed (error_code : Z)
  | InitFailed (error_code : Z)
  | DeviceListFailed (error_code : Z)
  | CannotOpenDevice (error_code : Z)
  | DeviceNotFound (vendor product : Z)
  | CannotDetachKernelDriver (error_code : Z)
  | CannotClaimInterface (error_code : Z).

(** The seven bytes of ["Device_"]. *)
Definition Device_ : list byte :=
  [Byte.x44; Byte.x65; Byte.x76; Byte.x69; Byte.x63; Byte.x65; Byte.x5f].

Section UsbBulkProtocol.
Context {L : Type} {libusb : Libusb L}.

(** The data members; [_libusb_initialized] is the static member, of
    which a program with one [UsbBulkProtocol] has this one reader and
    writer. *)
Record t : Type := {
  _descriptor : UsbDeviceDescriptor;
  _serial_number : list byte;
  _ctx : option libusb_context;
  _handle : option libusb_device_handle;
  _is_open : bool;
  _error_message : message;
  _read_timeout_ms : Z;
  _write_timeout_ms : Z;
  _libusb_initialized : bool;
}.

(** [UsbBulkProtocol(descriptor, serial_number)] *)
Definition new (descriptor : UsbDeviceDescriptor) (serial_number : list byte) : t :=
  {| _descriptor := descriptor; _serial_number := serial_number;
     _ctx := None; _handle := None; _is_open := false;
     _error_message := NoMessage;
     _read_timeout_ms := timeout_ms descriptor;
     _write_timeout_ms := timeout_ms descriptor;
     _libusb_initialized := false |}.

Definition set_serial_number (s : list byte) (u : t) : t :=
  {| _descriptor := _descriptor u; _serial_number := s; _ctx := _ctx u;
     _handle := _handle u; _is_open := _is_open u;
     _error_message := _error_message u;
     _read_timeout_ms := _read_timeout_ms u;
     _write_timeout_ms := _write_timeout_ms u;
     _libusb_initialized := _libusb_initialized u |}.

Definition set_ctx (c : option libusb_context) (u : t) : t :=
  {| _descriptor := _descriptor u; _serial_number := _serial_number u;
     _ctx := c; _handle := _handle u; _is_open := _is_open u;
     _error_message := _error_message u;
     _read_timeout_ms := _read_timeout_ms u;
     _write_timeout_ms := _write_timeout_ms u;
     _libusb_initialized := _libusb_initialized u |}.

Definition set_handle (h : option libusb_device_handle) (u : t) : t :=
  {| _descriptor := _descriptor u; _serial_number := _serial_number u;
     _ctx := _ctx u; _handle := h; _is_open := _is_open u;
     _error_message := _error_message u;
     _read_timeout_ms := _read_timeout_ms u;
     _write_timeout_ms := _write_timeout_ms u;
     _libusb_initialized := _libusb_initialized u |}.

Definition set_is_open (b : bool) (u : t) : t :=
  {| _descriptor := _descriptor u; _serial_number := _serial_number u;
     _ctx := _ctx u; _handle := _handle u; _is_open := b;
     _error_message := _error_message u;
     _read_timeout_ms := _read_timeout_ms u;
     _write_timeout_ms := _write_timeout_ms u;
     _libusb_initialized := _libusb_initialized u |}.

Definition set_error_message (msg : message) (u : t) : t :=
  {| _descriptor := _descriptor u; _serial_number := _serial_number u;
     _ctx := _ctx u; _handle := _handle u; _is_open := _is_open u;
     _error_message := msg;
     _read_timeout_ms := _read_timeout_ms u;
     _write_timeout_ms := _write_timeout_ms u;
     _libusb_initialized := _libusb_initialized u |}.

Definition set_libusb_initialized (b : bool) (u : t) : t :=
  {| _descriptor := _descriptor u; _serial_number := _serial_number u;
     _ctx := _ctx u; _handle := _handle u; _is_open := _is_open u;
     _error_message := _error_message u;
     _read_timeout_ms := _read_timeout_ms u;
     _write_timeout_ms := _write_timeout_ms u;
     _libusb_initialized := b |}.

Definition set_read_timeout (timeout : Z) (u : t) : t :=
  {| _descriptor := _descriptor u; _serial_number := _serial_number u;
     _ctx := _ctx u; _handle := _handle u; _is_open := _is_open u;
     _error_message := _error_message u;
     _read_timeout_ms := timeout;
     _write_timeout_ms := _write_timeout_ms u;
     _libusb_initialized := _libusb_initialized u |}.

Definition set_write_timeout (timeout : Z) (u : t) : t :=
  {| _descriptor := _descriptor u; _serial_number := _serial_number u;
     _ctx := _ctx u; _handle := _handle u; _is_open := _is_open u;
     _error_message := _error_message u;
     _read_timeout_ms := _read_timeout_ms u;
     _write_timeout_ms := timeout;
     _libusb_initialized := _libusb_initialized u |}.

Definition init_libusb (u : t) (l : L) : bool * t * L :=
  if _libusb_initialized u then (true, u, l)
  else
    let '(result, ctx, l) := libusb_init l (_ctx u) in
    let u := set_ctx ctx u in
    if bool_decide (result ≠ LIBUSB_SUCCESS) then
      (false, set_error_message (InitFailed result) u, l)
    else (true, set_libusb_initialized true u, l).

(** [std::string(serial_buffer, serial_result)] on the 256 zeroed bytes
    of [serial_buffer] after [stored] has been written to their start. *)
Definition serial_string (stored : list byte) (serial_result : Z)
    : outcome (list byte) :=
  if decide (length stored <= 256)%nat then
    let serial_buffer := stored ++ replicate (256 - length stored) Byte.x00 in
    if decide (serial_result <= 256)
    then Returns (take (Z.to_nat serial_result) serial_buffer)
    else Undefined
  else Undefined.

(** The loop of [find_and_open_device] from index [i] on, with
    [remaining] devices to go: whether a device was found, and the
    states left. *)
Fixpoint find_devices (dev_list : list libusb_device) (remaining : nat) (i : Z)
    (u : t) (l : L) : outcome bool * t * L :=
  match remaining with
  | O => (Returns false, u, l)
  | S remaining' =>
      match dev_list !! Z.to_nat i with
      | None => (Undefined, u, l)
      | Some device =>
          let next := find_devices dev_list remaining' (i + 1) in
          let '(result, desc, l) := libusb_get_device_descriptor l device in
          if bool_decide (result ≠ LIBUSB_SUCCESS) then next u l
          else if bool_decide (idVendor desc = vendor_id (_descriptor u))
                  && bool_decide (idProduct desc = product_id (_descriptor u))
          then
            let '(result, temp_handle, l) := libusb_open l device None in
            if bool_decide (result = LIBUSB_SUCCESS)
               && bool_decide (is_Some temp_handle)
            then
              let '(serial_result, stored, l) :=
                libusb_get_string_descriptor_ascii l temp_handle
                  (iSerialNumber desc) 256 in
              match
                (if 0 <? serial_result then serial_string stored serial_result
                 else if decide (length stored <= 256)%nat
                      then Returns (Device_ ++ to_string i)
                      else Undefined)
              with
              | Returns actual_serial =>
                  let l := libusb_close l temp_handle in
                  if negb (bool_decide (_serial_number u = []))
                     && bool_decide (actual_serial ≠ _serial_number u)
                  then next u l
                  else
                    let '(result, handle, l) := libusb_open l device (_handle u) in
                    let u := set_handle handle u in
                    if bool_decide (result = LIBUSB_SUCCESS) then
                      (Returns true, set_serial_number actual_serial u, l)
                    else next (set_error_message (CannotOpenDevice result) u) l
              | _ => (Undefined, u, l)
              end
            else next u l
          else next u l
      end
  end.

Definition find_and_open_device (u : t) (l : L) : outcome bool * t * L :=
  let '(device_count, dev_list, l) := libusb_get_device_list l (_ctx u) in
  if device_count <? 0 then
    (Returns false, set_error_message (DeviceListFailed (int_wrap device_count)) u, l)
  else
    match find_devices dev_list (Z.to_nat device_count) 0 u l with
    | (Returns found, u, l) =>
        let l := libusb_free_device_list l dev_list 1 in
        if negb found || negb (bool_decide (is_Some (_handle u))) then
          (Returns false,
           set_error_message
             (DeviceNotFound (vendor_id (_descriptor u)) (product_id (_descriptor u)))
             u, l)
        else (Returns true, u, l)
    | r => r
    end.

Definition configure_device (u : t) (l : L) : bool * t * L :=
  if negb (bool_decide (is_Some (_handle u))) then (false, u, l)
  else
    let interface := interface_number (_descriptor u) in
    let '(active, l) := libusb_kernel_driver_active l (_handle u) interface in
    let detached :=
      if bool_decide (active = 1) then
        let '(result, l) := libusb_detach_kernel_driver l (_handle u) interface in
        if bool_decide (result ≠ LIBUSB_SUCCESS)
        then (Some (CannotDetachKernelDriver result), l)
        else (None, l)
      else (None, l) in
    match detached with
    | (Some msg, l) => (false, set_error_message msg u, l)
    | (None, l) =>
        let '(result, l) := libusb_claim_interface l (_handle u) interface in
        if bool_decide (result ≠ LIBUSB_SUCCESS)
        then (false, set_error_message (CannotClaimInterface result) u, l)
        else (true, u, l)
    end.

Definition release_device (u : t) (l : L) : t * L :=
  if bool_decide (is_Some (_handle u)) then
    let interface := interface_number (_descriptor u) in
    let l := (libusb_release_interface l (_handle u) interface).2 in
    let l := (libusb_attach_kernel_driver l (_handle u) interface).2 in
    let l := libusb_close l (_handle u) in
    (set_handle None u, l)
  else (u, l).

Definition open (u : t) (l : L) : outcome bool * t * L :=
  if _is_open u then (Returns true, u, l)
  else
    let u := set_error_message NoMessage u in
    let '(ok, u, l) := init_libusb u l in
    if negb ok then (Returns false, u, l)
    else
      match find_and_open_device u l with
      | (Returns true, u, l) =>
          let '(ok, u, l) := configure_device u l in
          if negb ok then
            let '(u, l) := release_device u l in
            (Returns false, u, l)
          else (Returns true, set_is_open true u, l)
      | r => r
      end.

Definition close (u : t) (l : L) : t * L :=
  if _is_open u then
    let '(u, l) := release_device u l in
    (set_is_open false u, l)
  else (u, l).

Definition is_open (u : t) : bool := _is_open u.

(** [read(buffer, len)]: [buffer] is [None] for a null pointer. The
    [int] returned, the bytes stored in the buffer, and the states left. *)
Definition read (u : t) (l : L) (buffer : option unit) (len : Z)
    : Z * list byte * t * L :=
  if negb (_is_open u) || negb (bool_decide (is_Some (_handle u))) then
    (-1, [], set_error_message DeviceNotOpen u, l)
  else if negb (bool_decide (is_Some buffer)) || bool_decide (len = 0) then
    (-1, [], set_error_message InvalidBufferOrLength u, l)
  else
    let '(result, actual_length, stored, l) :=
      libusb_bulk_transfer l (_handle u) (bulk_in_endpoint (_descriptor u))
        [] (static_cast_int len) (_read_timeout_ms u) in
    if bool_decide (result = LIBUSB_SUCCESS) then (actual_length, stored, u, l)
    else if bool_decide (result = LIBUSB_ERROR_TIMEOUT) then
      (0, stored, set_error_message ReadTimedOut u, l)
    else (-1, stored, set_error_message (ReadFailed result) u, l).

(** [write(buffer, len)]: [buffer] is the memory the pointer leads to,
    [None] for a null pointer. *)
Definition write (u : t) (l : L) (buffer : option (list byte)) (len : Z)
    : Z * t * L :=
  if negb (_is_open u) || negb (bool_decide (is_Some (_handle u))) then
    (-1, set_error_message DeviceNotOpen u, l)
  else
    match buffer with
    | None => (-1, set_error_message InvalidBufferOrLength u, l)
    | Some data =>
        if bool_decide (len = 0) then
          (-1, set_error_message InvalidBufferOrLength u, l)
        else
          let '(result, actual_length, _, l) :=
            libusb_bulk_transfer l (_handle u) (bulk_out_endpoint (_descriptor u))
              data (static_cast_int len) (_write_timeout_ms u) in
          if bool_decide (result = LIBUSB_SUCCESS) then (actual_length, u, l)
          else (-1, set_error_message (WriteFailed result) u, l)
    end.

Definition cleanup_libusb (u : t) (l : L) : t * L :=
  if _libusb_initialized u && bool_decide (is_Some (_ctx u)) then
    let l := libusb_exit l (_ctx u) in
    (set_libusb_initialized false (set_ctx None u), l)
  else (u, l).

(** [~UsbBulkProtocol()] *)
Definition destroy (u : t) (l : L) : t * L :=
  let '(u, l) := close u l in
  cleanup_libusb u l.

End UsbBulkProtocol.

End UsbBulkProtocol.

(** A manager on a stream of five stray bytes and two frames. *)
Definition stream16 : TransceiverManager byte_stream :=
  TransceiverManager_new 16
    {| pending := replicate 5 Byte.xaa ++ concat [frame16; decoy_frame16] |}
    FIFO 100.

(** A libusb for the examples: one device, with the serial string [A1],
    on which every call succeeds; the state counts the calls. *)
#[global] Instance one_device : Libusb nat := {|
  libusb_context := unit;
  libusb_device := unit;
  libusb_device_handle := unit;
  libusb_init l ctx := (0, Some tt, S l);
  libusb_exit l ctx := S l;
  libusb_get_device_list l ctx := (1, [tt], S l);
  libusb_free_device_list l dev_list unref := S l;
  libusb_get_device_descriptor l device :=
    (0, {| idVendor := 1155; idProduct := 22336; iSerialNumber := 3 |}, S l);
  libusb_open l device handle := (0, Some tt, S l);
  libusb_close l handle := S l;
  libusb_get_string_descriptor_ascii l handle index length :=
    (2, [Byte.x41; Byte.x31], S l);
  libusb_kernel_driver_active l handle interface := (0, S l);
  libusb_detach_kernel_driver l handle interface := (0, S l);
  libusb_attach_kernel_driver l handle interface := (0, S l);
  libusb_claim_interface l handle interface := (0, S l);
  libusb_release_interface l handle interface := (0, S l);
  libusb_bulk_transfer l handle endpoint data length timeout :=
    (0, length, [], S l);
  to_string i := [Byte.x30];
|}.

(** A port for that device, no serial asked for. *)
Definition usb_port : UsbBulkProtocol.t :=
  UsbBulkProtocol.new
    {| UsbBulkProtocol.vendor_id := 1155;
       UsbBulkProtocol.product_id := 22336;
       UsbBulkProtocol.interface_number := 0;
       UsbBulkProtocol.bulk_in_endpoint := 129;
       UsbBulkProtocol.bulk_out_endpoint := 1;
       UsbBulkProtocol.timeout_ms := 100 |}
    [].

(** The port after [open], and after [close] and a second [open]. *)
Definition usb_port_opened : UsbBulkProtocol.t * nat :=
  Eval vm_compute in
    let r := UsbBulkProtocol.open usb_port 0%nat in (r.1.2, r.2).

Definition usb_port_reopened : UsbBulkProtocol.t * nat :=
  Eval vm_compute in
    let c := UsbBulkProtocol.close usb_port_opened.1 usb_port_opened.2 in
    let r := UsbBulkProtocol.open c.1 c.2 in (r.1.2, r.2).

(** * Properties *)

(** ** Machine integers *)

Lemma int_wrap_small z : INT_MIN <= z <= INT_MAX -> int_wrap z = z.
Proof.
  unfold int_wrap, INT_MIN, INT_MAX. intros Hz.
  rewrite Z.mod_small; lia.
Qed.

Lemma size_t_wrap_small z : 0 <= z <= SIZE_MAX -> size_t_wrap z = z.
Proof.
  unfold size_t_wrap, SIZE_MAX. intros Hz. apply Z.mod_small. lia.
Qed.

Lemma INT_MAX_lt_SIZE_MAX : INT_MAX < SIZE_MAX.
Proof. reflexivity. Qed.

(** ** Bytes and little-endian representations *)

Lemma Z_of_byte_range b : 0 <= Z_of_byte b < 256.
Proof.
  unfold Z_of_byte. pose proof (Byte.to_N_bounded b). lia.
Qed.

Lemma Z_of_byte_of_Z z : Z_of_byte (byte_of_Z z) = z mod 256.
Proof.
  unfold Z_of_byte, byte_of_Z.
  pose proof (Z.mod_pos_bound z 256 ltac:(lia)) as Hr.
  destruct (Byte.of_N (Z.to_N (z mod 256))) as [b|] eqn:Hb; simpl.
  - apply Byte.to_of_N in Hb. rewrite Hb. lia.
  - apply Byte.of_N_None_iff in Hb. lia.
Qed.

Lemma byte_of_Z_of_byte b : byte_of_Z (Z_of_byte b) = b.
Proof.
  unfold byte_of_Z. rewrite Z.mod_small by apply Z_of_byte_range.
  unfold Z_of_byte. rewrite N2Z.id, Byte.of_to_N. reflexivity.
Qed.

Lemma length_le_bytes n z : length (le_bytes n z) = n.
Proof. revert z. induction n as [|n IH]; intros z; simpl; [done|]. by rewrite IH. Qed.

Lemma le_value_le_bytes n z : le_value (le_bytes n z) = z mod 256 ^ Z.of_nat n.
Proof.
  revert z. induction n as [|n IH]; intros z.
  - simpl. by rewrite Z.mod_1_r.
  - change (le_bytes (S n) z) with (byte_of_Z z :: le_bytes n (z / 256)).
    change (le_value (?b :: ?l)) with (Z_of_byte b + 256 * le_value l).
    rewrite Z_of_byte_of_Z, IH, Nat2Z.inj_succ, Z.pow_succ_r by lia.
    rewrite (Z.rem_mul_r z 256 (256 ^ Z.of_nat n)) by lia. reflexivity.
Qed.

Lemma uint_represented n v :
  0 <= v < 256 ^ Z.of_nat n -> represented (H := uint_type n) v.
Proof.
  intros Hv. split; simpl.
  - by rewrite length_le_bytes.
  - rewrite le_value_le_bytes. by apply Z.mod_small.
Qed.

(** ** [FixedPacket] *)

Section FixedPacketProperties.
Variable Capacity : Z.
Hypothesis Capacity_min : 3 <= Capacity.
Hypothesis Capacity_max : Capacity <= SIZE_MAX.

Lemma bounds_check_true index DataLen :
  0 <= DataLen -> 0 < index -> index + DataLen < Capacity - 1 ->
  bounds_check Capacity index DataLen = true.
Proof using Capacity_min Capacity_max.
  intros HD Hi Hs. unfold bounds_check, size_add, size_sub.
  rewrite !size_t_wrap_small by (unfold SIZE_MAX in *; lia).
  apply andb_true_iff. split; lia.
Qed.

(** Without wrap-around of [index + DataLen], the test is the
    comparison of the integers. *)
Lemma bounds_check_no_wrap index DataLen :
  0 <= index -> 0 <= DataLen -> index + DataLen <= SIZE_MAX ->
  bounds_check Capacity index DataLen = true <->
  0 < index /\ index + DataLen < Capacity - 1.
Proof using Capacity_min Capacity_max.
  intros Hi HD Hs. unfold bounds_check, size_add, size_sub.
  rewrite !size_t_wrap_small by (unfold SIZE_MAX in *; lia).
  rewrite andb_true_iff. lia.
Qed.

Lemma store_bytes_in_bounds p index src :
  0 <= index ->
  index + Z.of_nat (length src) <= Z.of_nat (length (_buffer p)) ->
  store_bytes p index src =
    InBounds {| _buffer := take (Z.to_nat index) (_buffer p) ++ src
                           ++ drop (Z.to_nat index + length src) (_buffer p) |}.
Proof. intros. unfold store_bytes. by rewrite decide_True. Qed.

Lemma fetch_stored p index src :
  0 <= index ->
  index + Z.of_nat (length src) <= Z.of_nat (length (_buffer p)) ->
  fetch_bytes
    {| _buffer := take (Z.to_nat index) (_buffer p) ++ src
                  ++ drop (Z.to_nat index + length src) (_buffer p) |}
    index (Z.of_nat (length src)) = InBounds src.
Proof.
  intros Hi Hlen. unfold fetch_bytes. simpl.
  rewrite decide_True.
  - f_equal. rewrite drop_app_length' by (rewrite length_take; lia).
    rewrite Nat2Z.id. by rewrite take_app_length.
  - rewrite !length_app, length_take, length_drop. lia.
Qed.

Lemma FixedPacket_new_valid : is_valid Capacity (FixedPacket_new Capacity) = true.
Proof using Capacity_min.
  unfold is_valid, FixedPacket_new. simpl.
  rewrite !list_lookup_total_alt.
  rewrite list_lookup_insert_ne by lia.
  rewrite list_lookup_insert_eq by (rewrite length_replicate; lia).
  rewrite list_lookup_insert_eq
    by (rewrite length_insert, length_replicate; lia).
  reflexivity.
Qed.

Lemma FixedPacket_new_length :
  Z.of_nat (length (_buffer (FixedPacket_new Capacity))) = Capacity.
Proof using Capacity_min.
  unfold FixedPacket_new. simpl. rewrite !length_insert, length_replicate. lia.
Qed.

(** A type that is not trivially copyable is never copied, whatever the
    offset. *)
Lemma load_data_not_trivially_copyable {T} `{CppType T} DataLen
    (p : FixedPacket) (data : T) (index : Z) :
  is_trivially_copyable_v T = false ->
  load_data Capacity DataLen p data index = (None, InBounds p) /\
  unload_data Capacity DataLen p data index = (None, InBounds data).
Proof.
  intros Htc. unfold load_data, unload_data. rewrite Htc.
  by destruct (bounds_check Capacity index DataLen).
Qed.

(** C6. For a value of a trivially copyable type and an offset with
    [index > 0] and [index + sizeof(value) < Capacity - 1], [load_data]
    succeeds, and [unload_data] at the same offset and type then succeeds
    and gives back exactly the value written. *)
Theorem load_unload_roundtrip {T} `{CppType T} (p : FixedPacket)
    (value out : T) (index : Z) :
  Z.of_nat (length (_buffer p)) = Capacity ->
  is_trivially_copyable_v T = true ->
  represented value ->
  represented out ->
  0 < index ->
  index + sizeof T < Capacity - 1 ->
  exists p',
    load_data Capacity (sizeof T) p value index = (Some true, InBounds p') /\
    unload_data Capacity (sizeof T) p' out index = (Some true, InBounds value).
Proof using Capacity_min Capacity_max.
  intros Hp Htc [Hlen Hval] [Hlen' _] Hi Hs.
  assert (0 <= sizeof T) as Hsz by lia.
  set (src := object_repr value).
  assert (Z.of_nat (length src) = sizeof T) as Hsrc by done.
  exists {| _buffer := take (Z.to_nat index) (_buffer p) ++ src
                       ++ drop (Z.to_nat index + length src) (_buffer p) |}.
  unfold load_data, unload_data.
  rewrite bounds_check_true by lia. rewrite Htc.
  split.
  - f_equal. unfold read_object. rewrite decide_True by lia.
    replace (Z.to_nat (sizeof T)) with (length (object_repr value)) by lia.
    rewrite firstn_all. fold src.
    apply store_bytes_in_bounds; lia.
  - f_equal. rewrite <- Hsrc.
    rewrite fetch_stored by lia.
    unfold write_object. rewrite decide_True by (fold src; lia).
    rewrite drop_ge by lia. rewrite app_nil_r. subst src. by rewrite Hval.
Qed.

(** A [load_data] whose copy stays inside the buffer changes no byte
    outside [[index, index + DataLen)]. *)
Lemma load_data_frame {T} `{CppType T} DataLen (p p' : FixedPacket)
    (data : T) (index : Z) (i : nat) :
  load_data Capacity DataLen p data index = (Some true, InBounds p') ->
  (Z.of_nat i < index \/ index + DataLen <= Z.of_nat i) ->
  _buffer p' !! i = _buffer p !! i /\ length (_buffer p') = length (_buffer p).
Proof.
  unfold load_data.
  destruct (bounds_check Capacity index DataLen); [|done].
  destruct (is_trivially_copyable_v T); [|done].
  unfold read_object. case_decide as Hn; [|done].
  unfold store_bytes. rewrite length_take. case_decide as Hb; [|done].
  intros [= <-] Hi. simpl.
  split.
  - destruct Hi as [Hi|Hi].
    + rewrite lookup_app_l by (rewrite length_take; lia).
      rewrite lookup_take_lt by lia. done.
    + rewrite lookup_app_r by (rewrite length_take; lia).
      rewrite lookup_app_r by (rewrite !length_take; lia).
      rewrite lookup_drop. f_equal. rewrite !length_take. lia.
  - rewrite !length_app, !length_take, length_drop. lia.
Qed.

(** Within the range of [std::size_t] sums, a successful [load_data]
    with a copy inside the buffer leaves the head, check and tail bytes
    as they were, and so keeps a valid packet valid. *)
Lemma load_data_keeps_delimiters {T} `{CppType T} DataLen (p p' : FixedPacket)
    (data : T) (index : Z) :
  0 <= index -> 0 <= DataLen -> index + DataLen <= SIZE_MAX ->
  load_data Capacity DataLen p data index = (Some true, InBounds p') ->
  _buffer p' !! 0%nat = _buffer p !! 0%nat /\
  _buffer p' !! Z.to_nat (Capacity - 2) = _buffer p !! Z.to_nat (Capacity - 2) /\
  _buffer p' !! Z.to_nat (Capacity - 1) = _buffer p !! Z.to_nat (Capacity - 1) /\
  is_valid Capacity p' = is_valid Capacity p.
Proof using Capacity_min Capacity_max.
  intros Hi HD Hs Hload.
  assert (0 < index /\ index + DataLen < Capacity - 1) as [Hi0 Hi1].
  { apply bounds_check_no_wrap; [done..|].
    unfold load_data in Hload.
    by destruct (bounds_check Capacity index DataLen). }
  pose proof (load_data_frame DataLen p p' data index 0%nat Hload ltac:(lia)) as [H0 Hlen].
  pose proof (load_data_frame DataLen p p' data index (Z.to_nat (Capacity - 2)) Hload ltac:(lia)) as [H2 _].
  pose proof (load_data_frame DataLen p p' data index (Z.to_nat (Capacity - 1)) Hload ltac:(lia)) as [H1 _].
  repeat split; try done.
  unfold is_valid. rewrite !list_lookup_total_alt, H0, H1. done.
Qed.

(** What [load_data] returns, whatever its arguments: no value when the
    test on the offset fails or the type is not trivially copyable, the
    packet being left as it was, and true otherwise. *)
Lemma load_data_returns {T} `{CppType T} DataLen (p : FixedPacket)
    (data : T) (index : Z) :
  let r := load_data Capacity DataLen p data index in
  (r.1 = None <->
   bounds_check Capacity index DataLen = false \/ is_trivially_copyable_v T = false) /\
  (r.1 = None -> r.2 = InBounds p) /\
  (r.1 <> None -> r.1 = Some true).
Proof.
  unfold load_data.
  destruct (bounds_check Capacity index DataLen), (is_trivially_copyable_v T);
    simpl; intuition congruence.
Qed.

Lemma unload_data_returns {T} `{CppType T} DataLen (p : FixedPacket)
    (data : T) (index : Z) :
  let r := unload_data Capacity DataLen p data index in
  (r.1 = None <->
   bounds_check Capacity index DataLen = false \/ is_trivially_copyable_v T = false) /\
  (r.1 = None -> r.2 = InBounds data) /\
  (r.1 <> None -> r.1 = Some true).
Proof.
  unfold unload_data.
  destruct (bounds_check Capacity index DataLen), (is_trivially_copyable_v T);
    simpl; intuition congruence.
Qed.

(** When [index + DataLen] does not wrap, the calls fail exactly when
    the offset is out of bounds as integers, or the type is not
    trivially copyable. *)
Lemma load_data_fails_exactly {T} `{CppType T} DataLen (p : FixedPacket)
    (data : T) (index : Z) :
  0 <= index -> 0 <= DataLen -> index + DataLen <= SIZE_MAX ->
  (load_data Capacity DataLen p data index).1 = None <->
  ~ 0 < index \/ ~ index + DataLen < Capacity - 1 \/
  is_trivially_copyable_v T = false.
Proof using Capacity_min Capacity_max.
  intros Hi HD Hs.
  destruct (load_data_returns DataLen p data index) as [-> _].
  pose proof (bounds_check_no_wrap index DataLen Hi HD Hs) as Hcheck.
  destruct (bounds_check Capacity index DataLen).
  - assert (0 < index /\ index + DataLen < Capacity - 1) by by apply Hcheck.
    split; [intros [?|?]; [done|by right; right]|].
    intros [?|[?|?]]; [lia|lia|by right].
  - split; [intros _|by left].
    destruct (decide (0 < index)); [|by left].
    destruct (decide (index + DataLen < Capacity - 1)); [|by right; left].
    by assert (false = true) by by apply Hcheck.
Qed.

Lemma unload_data_fails_exactly {T} `{CppType T} DataLen (p : FixedPacket)
    (data : T) (index : Z) :
  0 <= index -> 0 <= DataLen -> index + DataLen <= SIZE_MAX ->
  (unload_data Capacity DataLen p data index).1 = None <->
  ~ 0 < index \/ ~ index + DataLen < Capacity - 1 \/
  is_trivially_copyable_v T = false.
Proof using Capacity_min Capacity_max.
  intros Hi HD Hs.
  destruct (unload_data_returns DataLen p data index) as [-> _].
  pose proof (bounds_check_no_wrap index DataLen Hi HD Hs) as Hcheck.
  destruct (bounds_check Capacity index DataLen).
  - assert (0 < index /\ index + DataLen < Capacity - 1) by by apply Hcheck.
    split; [intros [?|?]; [done|by right; right]|].
    intros [?|[?|?]]; [lia|lia|by right].
  - split; [intros _|by left].
    destruct (decide (0 < index)); [|by left].
    destruct (decide (index + DataLen < Capacity - 1)); [|by right; left].
    by assert (false = true) by by apply Hcheck.
Qed.

(** Calls whose offsets and lengths stay within the range of
    [std::size_t] sums keep a packet as valid as it was. *)
Lemma run_loads_keep_valid (cs : list load_call) : forall p p',
  Forall (fun c => 0 <= lc_index c /\ 0 <= lc_len c /\
                   lc_index c + lc_len c <= SIZE_MAX) cs ->
  run_loads Capacity cs p = Some p' ->
  is_valid Capacity p' = is_valid Capacity p.
Proof using Capacity_min Capacity_max.
  induction cs as [|c cs IH]; intros p p' Hcs Hrun.
  - by injection Hrun as ->.
  - apply Forall_cons in Hcs as [(Hi & Hl & Hs) Hcs].
    simpl in Hrun. unfold run_load in Hrun.
    destruct (load_data Capacity (lc_len c) p (lc_data c) (lc_index c))
      as [[[|]|] [p1|]] eqn:Hload; try done.
    rewrite (IH p1 p' Hcs Hrun).
    by destruct (load_data_keeps_delimiters (H := lc_cpp c) (lc_len c) p p1
                   (lc_data c) (lc_index c) Hi Hl Hs Hload) as (_ & _ & _ & ?).
Qed.

End FixedPacketProperties.

(** ** [TransceiverManager] *)

Ltac munfold :=
  unfold when; unfold mbind, mret, M_bind, M_ret, gets, modify, lift, undefined.

Section TransceiverManagerProperties.
Variable Capacity : Z.
Hypothesis Capacity_min : 3 <= Capacity.
Hypothesis Capacity_int : 3 * Capacity <= INT_MAX.
Context {T : Type} `{ProtocolInterface T}.
Implicit Type m : TransceiverManager T.

Lemma set_recv_buffer_same m : set_recv_buffer (_recv_buffer m) m = m.
Proof. by destruct m. Qed.

Lemma set_recv_buffer_twice b b' m :
  set_recv_buffer b (set_recv_buffer b' m) = set_recv_buffer b m.
Proof. reflexivity. Qed.

Lemma shift_loop_spec (n : nat) : forall (fuel j k : nat) m,
  (k <= j)%nat ->
  (j + n <= length (_recv_buffer m))%nat ->
  Z.of_nat (length (_recv_buffer m)) <= INT_MAX ->
  (n <= fuel)%nat ->
  _recv_buf_len m = Z.of_nat (j + n) ->
  shift_loop fuel (Z.of_nat j) (Z.of_nat k) m =
    (Returns (Z.of_nat (k + n)),
     set_recv_buffer
       (take k (_recv_buffer m) ++ take n (drop j (_recv_buffer m))
        ++ drop (k + n) (_recv_buffer m)) m).
Proof.
  induction n as [|n IH]; intros fuel j k m Hkj Hjn Hmax Hfuel Hlen.
  - destruct fuel; simpl; munfold; rewrite Hlen;
      (rewrite (proj2 (Z.ltb_ge _ _)) by lia).
    all: rewrite Nat.add_0_r, take_drop, set_recv_buffer_same; reflexivity.
  - destruct fuel as [|fuel]; [lia|].
    simpl. munfold. rewrite Hlen.
    rewrite (proj2 (Z.ltb_lt _ _)) by lia.
    assert (INT_MAX < SIZE_MAX) by reflexivity.
    rewrite !size_t_wrap_small by lia. rewrite !Nat2Z.id.
    destruct (lookup_lt_is_Some_2 (_recv_buffer m) j ltac:(lia)) as [x Hx].
    rewrite Hx. rewrite decide_True by lia.
    unfold int_add. rewrite !int_wrap_small by (unfold INT_MIN; lia).
    replace (Z.of_nat j + 1) with (Z.of_nat (S j)) by lia.
    replace (Z.of_nat k + 1) with (Z.of_nat (S k)) by lia.
    rewrite IH; simpl; rewrite ?length_insert; try lia.
    rewrite set_recv_buffer_twice.
    replace (S (k + n)) with (k + S n)%nat by lia.
    f_equal. f_equal.
    rewrite (take_S_r _ k x) by (apply list_lookup_insert_eq; lia).
    rewrite take_insert_ge by lia.
    rewrite !drop_insert_lt by lia.
    rewrite (drop_S _ x j Hx). simpl.
    rewrite <- app_assoc. simpl.
    reflexivity.
Qed.

#[local] Arguments shift_loop : simpl never.

Lemma static_cast_int_Capacity : static_cast_int Capacity = Capacity.
Proof using Capacity_min Capacity_int.
  apply int_wrap_small. unfold INT_MIN. lia.
Qed.

Lemma double_Capacity : static_cast_int (size_mul Capacity 2) = 2 * Capacity.
Proof using Capacity_min Capacity_int.
  unfold static_cast_int, size_mul.
  pose proof INT_MAX_lt_SIZE_MAX.
  rewrite size_t_wrap_small by lia.
  rewrite int_wrap_small by (unfold INT_MIN; lia). lia.
Qed.

Lemma Capacity_pred : size_sub Capacity 1 = Capacity - 1.
Proof using Capacity_min Capacity_int.
  pose proof INT_MAX_lt_SIZE_MAX.
  unfold size_sub. apply size_t_wrap_small. lia.
Qed.

Lemma check_packet_other_length mem recv_len :
  recv_len <> Capacity -> check_packet Capacity mem recv_len = Returns false.
Proof using Capacity_min Capacity_int.
  intros Hne. unfold check_packet.
  rewrite static_cast_int_Capacity. by rewrite bool_decide_true.
Qed.

Lemma check_packet_framed mem :
  Capacity <= Z.of_nat (length mem) ->
  check_packet Capacity mem Capacity
  = Returns (bool_decide (framed_at Capacity mem 0)).
Proof using Capacity_min Capacity_int.
  intros Hlen. unfold check_packet.
  rewrite static_cast_int_Capacity, Capacity_pred.
  rewrite bool_decide_false by lia.
  destruct (lookup_lt_is_Some_2 mem 0 ltac:(lia)) as [h Hh].
  destruct (lookup_lt_is_Some_2 mem (Z.to_nat (Capacity - 1)) ltac:(lia)) as [t Ht].
  rewrite Hh, Ht.
  assert (framed_at Capacity mem 0 <-> h = HEAD_BYTE /\ t = TAIL_BYTE) as Hiff.
  { unfold framed_at. replace (0 + Capacity - 1) with (Capacity - 1) by lia.
    change (Z.to_nat 0) with 0%nat. rewrite Hh, Ht.
    split; intros [? ?]; split; congruence. }
  rewrite (bool_decide_ext _ _ Hiff).
  destruct (decide (h = HEAD_BYTE)) as [->|Hhead].
  - rewrite (bool_decide_false (_ ≠ _)) by auto.
    destruct (decide (t = TAIL_BYTE)) as [->|Htail].
    + rewrite (bool_decide_false (_ ≠ _)) by auto.
      by rewrite bool_decide_true.
    + rewrite (bool_decide_true (_ ≠ _)) by auto.
      rewrite bool_decide_false; [done|]. by intros [? ?].
  - rewrite (bool_decide_true (_ ≠ _)) by auto.
    rewrite bool_decide_false; [done|]. by intros [? ?].
Qed.

Lemma framed_at_drop mem i :
  0 <= i -> framed_at Capacity (drop (Z.to_nat i) mem) 0 <-> framed_at Capacity mem i.
Proof using Capacity_min.
  intros Hi. unfold framed_at. rewrite !lookup_drop.
  change (Z.to_nat 0) with 0%nat. rewrite Nat.add_0_r.
  replace (Z.to_nat i + Z.to_nat (0 + Capacity - 1))%nat
    with (Z.to_nat (i + Capacity - 1)) by lia.
  done.
Qed.

Lemma check_packet_window mem i :
  0 <= i -> i + Capacity <= Z.of_nat (length mem) ->
  check_packet Capacity (drop (Z.to_nat i) mem) (static_cast_int Capacity)
  = Returns (bool_decide (framed_at Capacity mem i)).
Proof using Capacity_min Capacity_int.
  intros Hi Hlen. rewrite static_cast_int_Capacity.
  rewrite check_packet_framed by (rewrite length_drop; lia).
  f_equal. apply bool_decide_ext. by apply framed_at_drop.
Qed.

Lemma scan_loop_none (d : nat) : forall (fuel : nat) packet i m,
  manager_wf Capacity m ->
  0 <= i <= 2 * Capacity ->
  d = Z.to_nat (_recv_buf_len m - Capacity - i + 1) ->
  (d <= fuel)%nat ->
  (forall i', i <= i' -> i' + Capacity <= _recv_buf_len m ->
              ~ framed_at Capacity (_recv_buffer m) i') ->
  scan_loop Capacity fuel packet i m = (Returns (false, packet), m).
Proof using Capacity_min Capacity_int.
  pose proof INT_MAX_lt_SIZE_MAX as Hmax.
  induction d as [|d IH]; intros fuel packet i m Hwf Hi Hd Hfuel Hnone;
    pose proof Hwf as (_ & Hbuf & Hlen).
  - assert (_recv_buf_len m < i + Capacity) by lia.
    destruct fuel; simpl; munfold; unfold size_add;
      rewrite (size_t_wrap_small i), (size_t_wrap_small (i + Capacity)),
        (size_t_wrap_small (_recv_buf_len m)) by lia;
      by rewrite (proj2 (Z.leb_gt _ _)) by lia.
  - destruct fuel as [|fuel]; [lia|].
    assert (i + Capacity <= _recv_buf_len m) by lia.
    simpl. munfold. unfold size_add.
    rewrite (size_t_wrap_small i), (size_t_wrap_small (i + Capacity)),
      (size_t_wrap_small (_recv_buf_len m)) by lia.
    rewrite (proj2 (Z.leb_le _ _)) by lia.
    rewrite check_packet_window by lia.
    rewrite bool_decide_false by (apply Hnone; lia).
    unfold int_add. rewrite int_wrap_small by (unfold INT_MIN; lia).
    apply IH; try done; try lia.
    intros i' Hi'. apply Hnone. lia.
Qed.

Lemma scan_loop_first (d : nat) : forall (fuel : nat) packet i i0 m,
  manager_wf Capacity m ->
  0 <= i <= i0 ->
  i0 + Capacity <= _recv_buf_len m ->
  d = Z.to_nat (i0 - i) ->
  (d < fuel)%nat ->
  (forall i', i <= i' < i0 -> ~ framed_at Capacity (_recv_buffer m) i') ->
  framed_at Capacity (_recv_buffer m) i0 ->
  let rest := Z.to_nat (_recv_buf_len m - i0 - Capacity) in
  scan_loop Capacity fuel packet i m =
    (Returns (true, {| _buffer := take (Z.to_nat Capacity)
                                    (drop (Z.to_nat i0) (_recv_buffer m)) |}),
     set_recv_buf_len (Z.of_nat rest)
       (set_recv_buffer
          (take rest (drop (Z.to_nat (i0 + Capacity)) (_recv_buffer m))
           ++ drop rest (_recv_buffer m)) m)).
Proof using Capacity_min Capacity_int.
  pose proof INT_MAX_lt_SIZE_MAX as Hmax.
  induction d as [|d IH];
    intros fuel packet i i0 m Hwf Hi Hi0 Hd Hfuel Hnone Hframed rest;
    pose proof Hwf as (_ & Hbuf & Hlen).
  - assert (i = i0) as -> by lia.
    destruct fuel as [|fuel]; [lia|].
    simpl. munfold. unfold size_add.
    rewrite (size_t_wrap_small i0), (size_t_wrap_small (i0 + Capacity)),
      (size_t_wrap_small (_recv_buf_len m)) by lia.
    rewrite (proj2 (Z.leb_le _ _)) by lia.
    rewrite check_packet_window by lia.
    rewrite bool_decide_true by done.
    unfold copy_from. rewrite decide_True by (rewrite length_drop; lia).
    unfold static_cast_int. rewrite int_wrap_small by (unfold INT_MIN; lia).
    replace (i0 + Capacity) with (Z.of_nat (Z.to_nat (i0 + Capacity))) at 1 by lia.
    change 0 with (Z.of_nat 0).
    rewrite (shift_loop_spec rest) by lia.
    rewrite take_0, app_nil_l, Nat.add_0_l. reflexivity.
  - destruct fuel as [|fuel]; [lia|].
    simpl. munfold. unfold size_add.
    rewrite (size_t_wrap_small i), (size_t_wrap_small (i + Capacity)),
      (size_t_wrap_small (_recv_buf_len m)) by lia.
    rewrite (proj2 (Z.leb_le _ _)) by lia.
    rewrite check_packet_window by lia.
    rewrite bool_decide_false by (apply Hnone; lia).
    unfold int_add. rewrite int_wrap_small by (unfold INT_MIN; lia).
    apply IH; try done; try lia.
    intros i' Hi'. apply Hnone. lia.
Qed.

(** Below any bound, either no window has a head and a tail byte or
    there is a first one that has. *)
Lemma framed_below (mem : list byte) (n : nat) :
  (forall i, 0 <= i < Z.of_nat n -> ~ framed_at Capacity mem i) \/
  (exists i0, 0 <= i0 < Z.of_nat n /\ framed_at Capacity mem i0 /\
              forall i, 0 <= i < i0 -> ~ framed_at Capacity mem i).
Proof.
  induction n as [|n [IH|(i0 & Hi0 & Hf & Hmin)]].
  - left. lia.
  - destruct (decide (framed_at Capacity mem (Z.of_nat n))) as [Hf|Hf].
    + right. exists (Z.of_nat n). split; [lia|]. split; [done|].
      intros i Hi. apply IH. lia.
    + left. intros i Hi.
      destruct (decide (i = Z.of_nat n)) as [->|]; [done|]. apply IH. lia.
  - right. exists i0. split; [lia|]. done.
Qed.

Lemma first_framed (mem : list byte) i :
  0 <= i -> framed_at Capacity mem i ->
  exists i0, 0 <= i0 <= i /\ framed_at Capacity mem i0 /\
             forall i', 0 <= i' < i0 -> ~ framed_at Capacity mem i'.
Proof.
  intros Hi Hf.
  destruct (framed_below mem (S (Z.to_nat i))) as [Hnone|(i0 & Hi0 & Hf0 & Hmin)].
  - exfalso. apply (Hnone i); [lia|done].
  - exists i0. split; [lia|]. done.
Qed.

#[local] Arguments scan_loop : simpl never.

(** The slow path of [recv_packet], when the scan finds a window. *)
Lemma recv_packet_scan_first packet m n m_r m1 i0 :
  transport_read_tmp Capacity m = (Returns n, m_r) ->
  0 < n ->
  check_packet Capacity (_tmp_buffer m_r) n = Returns false ->
  append_to_carry_over Capacity n m_r = (Returns tt, m1) ->
  manager_wf Capacity m1 ->
  0 <= i0 ->
  i0 + Capacity <= _recv_buf_len m1 ->
  framed_at Capacity (_recv_buffer m1) i0 ->
  (forall i, 0 <= i < i0 -> ~ framed_at Capacity (_recv_buffer m1) i) ->
  let rest := Z.to_nat (_recv_buf_len m1 - i0 - Capacity) in
  recv_packet Capacity packet m =
    (Returns (true, {| _buffer := take (Z.to_nat Capacity)
                                    (drop (Z.to_nat i0) (_recv_buffer m1)) |}),
     set_recv_buf_len (Z.of_nat rest)
       (set_recv_buffer
          (take rest (drop (Z.to_nat (i0 + Capacity)) (_recv_buffer m1))
           ++ drop rest (_recv_buffer m1)) m1)).
Proof using Capacity_min Capacity_int.
  intros Hread Hn Hcheck Happend Hwf Hi0 Hin Hframed Hfirst rest.
  unfold recv_packet, try_catch. munfold.
  rewrite Hread. rewrite (proj2 (Z.ltb_lt _ _)) by lia.
  rewrite Hcheck, Happend.
  erewrite (scan_loop_first (Z.to_nat i0));
    [reflexivity| done | lia | done | lia | | | done].
  - destruct Hwf as (_ & ? & ?). lia.
  - intros i Hi. apply Hfirst. lia.
Qed.

(** The slow path of [recv_packet], when the scan finds no window. *)
Lemma recv_packet_scan_none packet m n m_r m1 :
  transport_read_tmp Capacity m = (Returns n, m_r) ->
  0 < n ->
  check_packet Capacity (_tmp_buffer m_r) n = Returns false ->
  append_to_carry_over Capacity n m_r = (Returns tt, m1) ->
  manager_wf Capacity m1 ->
  (forall i, 0 <= i -> i + Capacity <= _recv_buf_len m1 ->
             ~ framed_at Capacity (_recv_buffer m1) i) ->
  recv_packet Capacity packet m = (Returns (false, packet), m1).
Proof using Capacity_min Capacity_int.
  intros Hread Hn Hcheck Happend Hwf Hnone.
  unfold recv_packet, try_catch. munfold.
  rewrite Hread. rewrite (proj2 (Z.ltb_lt _ _)) by lia.
  rewrite Hcheck, Happend.
  erewrite scan_loop_none;
    [reflexivity| done | lia | reflexivity | | ].
  - destruct Hwf as (_ & ? & ?). lia.
  - intros i Hi. apply Hnone. lia.
Qed.

Lemma transport_read_tmp_returns m n stored t :
  read (_transporter m) Capacity = (Reply (n, stored), t) ->
  (length stored <= length (_tmp_buffer m))%nat ->
  transport_read_tmp Capacity m =
    (Returns n,
     set_tmp_buffer (stored ++ drop (length stored) (_tmp_buffer m))
       (set_transporter t m)).
Proof.
  intros Hread Hlen. unfold transport_read_tmp.
  rewrite Hread. by rewrite decide_True.
Qed.

Lemma append_to_carry_over_spec m n :
  manager_wf Capacity m ->
  0 < n <= Capacity ->
  append_to_carry_over Capacity n m =
    (Returns tt,
     set_recv_buf_len (append_base Capacity m n + n)
       (set_recv_buffer
          (take (Z.to_nat (append_base Capacity m n)) (_recv_buffer m)
           ++ take (Z.to_nat n) (_tmp_buffer m)
           ++ drop (Z.to_nat (append_base Capacity m n + n)) (_recv_buffer m)) m)).
Proof using Capacity_min Capacity_int.
  intros (Htmp & Hbuf & Hlen) Hn.
  pose proof INT_MAX_lt_SIZE_MAX as Hmax.
  unfold append_to_carry_over, append_base. munfold.
  rewrite double_Capacity by done.
  unfold int_add. rewrite int_wrap_small by (unfold INT_MIN; lia).
  destruct (_recv_buf_len m + n >? 2 * Capacity) eqn:Hover.
  - unfold append_tmp. cbn [_recv_buf_len set_recv_buf_len _tmp_buffer _recv_buffer].
    rewrite size_t_wrap_small by lia.
    rewrite decide_True by lia.
    cbn [_recv_buf_len set_recv_buffer set_recv_buf_len].
    rewrite int_wrap_small by (unfold INT_MIN; lia). reflexivity.
  - unfold append_tmp.
    rewrite size_t_wrap_small by lia.
    rewrite decide_True by lia.
    cbn [_recv_buf_len set_recv_buffer].
    rewrite int_wrap_small by (unfold INT_MIN; lia). reflexivity.
Qed.

Lemma length_carry_over m :
  manager_wf Capacity m -> Z.of_nat (length (carry_over m)) = _recv_buf_len m.
Proof. intros (_ & ? & ?). unfold carry_over. rewrite length_take. lia. Qed.

Lemma length_joined m stored :
  manager_wf Capacity m ->
  Z.of_nat (length (joined Capacity m stored))
  = append_base Capacity m (Z.of_nat (length stored)) + Z.of_nat (length stored).
Proof.
  intros Hwf. unfold joined, append_base. rewrite length_app.
  destruct (_ >? _); simpl; [lia|]. rewrite <- length_carry_over by done. lia.
Qed.

Lemma framed_at_take (mem : list byte) (len : nat) i :
  0 <= i -> i + Capacity <= Z.of_nat len ->
  framed_at Capacity (take len mem) i <-> framed_at Capacity mem i.
Proof using Capacity_min.
  intros Hi Hlen. unfold framed_at. by rewrite !lookup_take_lt by lia.
Qed.

(** A partial or misaligned read: what [recv_packet] has done when it
    starts scanning. *)
Lemma recv_packet_joins m n stored t :
  manager_wf Capacity m ->
  read (_transporter m) Capacity = (Reply (n, stored), t) ->
  0 < n <= Capacity ->
  Z.of_nat (length stored) = n ->
  (n = Capacity -> ~ framed_at Capacity stored 0) ->
  exists m_r m1,
    transport_read_tmp Capacity m = (Returns n, m_r) /\
    check_packet Capacity (_tmp_buffer m_r) n = Returns false /\
    append_to_carry_over Capacity n m_r = (Returns tt, m1) /\
    manager_wf Capacity m1 /\
    carry_over m1 = joined Capacity m stored /\
    _transporter m1 = t /\
    _latest_packet m1 = _latest_packet m.
Proof using Capacity_min Capacity_int.
  intros Hwf Hread Hn Hstored Hslow.
  pose proof Hwf as (Htmp & Hbuf & Hlen).
  set (m_r := set_tmp_buffer (stored ++ drop (length stored) (_tmp_buffer m))
                (set_transporter t m)).
  assert (manager_wf Capacity m_r) as Hwf_r.
  { split; [|done]. simpl. rewrite length_app, length_drop. lia. }
  eexists m_r, _. split; [apply transport_read_tmp_returns; [done|lia]|].
  split; [|split; [by apply append_to_carry_over_spec|]].
  - destruct (decide (n = Capacity)) as [->|Hne].
    + simpl. rewrite drop_ge, app_nil_r by lia.
      rewrite check_packet_framed by (done || lia).
      by rewrite bool_decide_false by auto.
    + by apply check_packet_other_length.
  - assert (append_base Capacity m_r n = append_base Capacity m n) as Hbase by done.
    assert (0 <= append_base Capacity m n /\
            append_base Capacity m n + n <= 2 * Capacity) as Hb.
    { unfold append_base. destruct (_ >? _) eqn:Hover; lia. }
    rewrite Hbase. split; [|split; [|done]].
    + destruct Hwf_r as (Htmp_r & _ & _).
      split; [exact Htmp_r|]. split; simpl; [|lia].
      rewrite !length_app, !length_take, length_drop, length_app, length_drop. lia.
    + unfold carry_over, joined. simpl.
      rewrite Z2Nat.inj_add by lia.
      rewrite take_app_add' by (rewrite length_take; lia).
      rewrite take_app_length' by (rewrite length_take, length_app, length_drop; lia).
      rewrite take_app_length' by lia.
      f_equal. rewrite Hstored. unfold append_base.
      destruct (_ >? _); [done|]. reflexivity.
Qed.

Lemma framed_at_carry_over m i :
  manager_wf Capacity m ->
  0 <= i -> i + Capacity <= _recv_buf_len m ->
  framed_at Capacity (carry_over m) i <-> framed_at Capacity (_recv_buffer m) i.
Proof using Capacity_min.
  intros (_ & ? & ?) Hi Hlen. unfold carry_over. apply framed_at_take; [done..|lia].
Qed.

(** The slow path with no window to find: the call fails and keeps the
    joined bytes. *)
Lemma recv_packet_keeps packet m n stored t :
  manager_wf Capacity m ->
  read (_transporter m) Capacity = (Reply (n, stored), t) ->
  0 < n <= Capacity ->
  Z.of_nat (length stored) = n ->
  (n = Capacity -> ~ framed_at Capacity stored 0) ->
  (forall i, 0 <= i -> i + Capacity <= Z.of_nat (length (joined Capacity m stored)) ->
             ~ framed_at Capacity (joined Capacity m stored) i) ->
  exists m',
    recv_packet Capacity packet m = (Returns (false, packet), m') /\
    manager_wf Capacity m' /\
    carry_over m' = joined Capacity m stored /\
    _transporter m' = t /\
    _latest_packet m' = _latest_packet m.
Proof using Capacity_min Capacity_int.
  intros Hwf Hread Hn Hstored Hslow Hnone.
  destruct (recv_packet_joins m n stored t)
    as (m_r & m1 & Hr & Hc & Ha & Hwf1 & Hlive & Ht & Hl); try done.
  exists m1. split; [|done].
  eapply recv_packet_scan_none;
    [exact Hr | lia | exact Hc | exact Ha | exact Hwf1 | ].
  intros i Hi Hin. rewrite <- framed_at_carry_over by done.
  rewrite Hlive. apply Hnone; [done|].
  rewrite <- Hlive, length_carry_over by done. done.
Qed.

(** The slow path with a first window at [i0]: the call returns it and
    keeps what followed it. *)
Lemma recv_packet_takes packet m n stored t i0 :
  manager_wf Capacity m ->
  read (_transporter m) Capacity = (Reply (n, stored), t) ->
  0 < n <= Capacity ->
  Z.of_nat (length stored) = n ->
  (n = Capacity -> ~ framed_at Capacity stored 0) ->
  0 <= i0 ->
  i0 + Capacity <= Z.of_nat (length (joined Capacity m stored)) ->
  framed_at Capacity (joined Capacity m stored) i0 ->
  (forall i, 0 <= i < i0 -> ~ framed_at Capacity (joined Capacity m stored) i) ->
  exists m',
    recv_packet Capacity packet m =
      (Returns (true, {| _buffer := take (Z.to_nat Capacity)
                                      (drop (Z.to_nat i0) (joined Capacity m stored)) |}),
       m') /\
    manager_wf Capacity m' /\
    carry_over m' = drop (Z.to_nat (i0 + Capacity)) (joined Capacity m stored) /\
    _transporter m' = t /\
    _latest_packet m' = _latest_packet m.
Proof using Capacity_min Capacity_int.
  intros Hwf Hread Hn Hstored Hslow Hi0 Hin Hframed Hfirst.
  destruct (recv_packet_joins m n stored t)
    as (m_r & m1 & Hr & Hc & Ha & Hwf1 & Hlive & Ht & Hl); try done.
  pose proof (length_carry_over m1 Hwf1) as Hlen1.
  rewrite Hlive in Hlen1.
  pose proof Hwf1 as (Htmp1 & Hbuf1 & Hrange1).
  assert (framed_at Capacity (_recv_buffer m1) i0) as Hframed1.
  { apply framed_at_carry_over; [done|done|lia|]. by rewrite Hlive. }
  assert (forall i, 0 <= i < i0 -> ~ framed_at Capacity (_recv_buffer m1) i)
    as Hfirst1.
  { intros i Hi. rewrite <- framed_at_carry_over by (done || lia).
    rewrite Hlive. by apply Hfirst. }
  pose proof (recv_packet_scan_first packet m n m_r m1 i0 Hr ltac:(lia) Hc Ha
                Hwf1 Hi0 ltac:(lia) Hframed1 Hfirst1) as Hrecv.
  cbv zeta in Hrecv.
  assert (take (Z.to_nat Capacity) (drop (Z.to_nat i0) (_recv_buffer m1))
          = take (Z.to_nat Capacity) (drop (Z.to_nat i0) (joined Capacity m stored)))
    as Hwindow.
  { rewrite <- Hlive. unfold carry_over.
    rewrite !take_drop_commute, take_take.
    by rewrite Nat.min_l by lia. }
  rewrite Hwindow in Hrecv.
  eexists. split; [exact Hrecv|]. split; [|split; [|split]].
  - split; [exact Htmp1|]. split; simpl.
    + rewrite length_app, length_take, !length_drop. lia.
    + lia.
  - unfold carry_over at 1. simpl. rewrite Nat2Z.id.
    rewrite take_app_length' by (rewrite length_take, length_drop; lia).
    rewrite <- Hlive. unfold carry_over.
    rewrite take_drop_commute. do 2 f_equal. lia.
  - done.
  - done.
Qed.

(** *** The fast path *)

Lemma recv_packet_aligned packet m stored t :
  Z.of_nat (length (_tmp_buffer m)) = Capacity ->
  read (_transporter m) Capacity = (Reply (Capacity, stored), t) ->
  well_formed_frame Capacity stored ->
  recv_packet Capacity packet m =
    (Returns (true, {| _buffer := stored |}),
     set_tmp_buffer stored (set_transporter t m)).
Proof using Capacity_min Capacity_int.
  intros Htmp Hread [Hlen Hframed].
  unfold recv_packet, try_catch. munfold.
  rewrite (transport_read_tmp_returns m Capacity stored t) by (done || lia).
  rewrite (proj2 (Z.ltb_lt _ _)) by lia.
  cbn [_tmp_buffer set_tmp_buffer].
  rewrite drop_ge, app_nil_r by lia.
  rewrite check_packet_framed by lia.
  rewrite bool_decide_true by done.
  unfold copy_from. rewrite decide_True by lia.
  rewrite firstn_all2 by lia. reflexivity.
Qed.

(** C3. A read of exactly [Capacity] bytes that begin with the head byte
    and end with the tail byte makes [recv_packet] return true with those
    bytes as the packet; the carry-over array, its live length, and so
    its live bytes are what they were before the call. *)
Theorem recv_packet_fast_path packet m stored t :
  Z.of_nat (length (_tmp_buffer m)) = Capacity ->
  read (_transporter m) Capacity = (Reply (Capacity, stored), t) ->
  well_formed_frame Capacity stored ->
  exists m',
    recv_packet Capacity packet m = (Returns (true, {| _buffer := stored |}), m') /\
    _recv_buffer m' = _recv_buffer m /\
    _recv_buf_len m' = _recv_buf_len m /\
    carry_over m' = carry_over m.
Proof using Capacity_min Capacity_int.
  intros Htmp Hread Hframe. eexists. split.
  - by apply recv_packet_aligned.
  - done.
Qed.

(** *** The first window wins *)

Lemma transport_read_tmp_wf m len n m_r :
  manager_wf Capacity m ->
  transport_read_tmp len m = (Returns n, m_r) ->
  manager_wf Capacity m_r.
Proof.
  intros (Htmp & Hbuf & Hlen). unfold transport_read_tmp.
  destruct (read (_transporter m) len) as [[[n' stored]|] t]; [|done].
  case_decide as Hstored; [|done]. intros [= <- <-].
  split; [|done]. simpl. rewrite length_app, length_drop. lia.
Qed.

Lemma append_to_carry_over_wf m n m1 :
  manager_wf Capacity m ->
  0 < n <= Capacity ->
  append_to_carry_over Capacity n m = (Returns tt, m1) ->
  manager_wf Capacity m1.
Proof using Capacity_min Capacity_int.
  intros Hwf Hn. rewrite append_to_carry_over_spec by done.
  intros [= <-]. destruct Hwf as (Htmp & Hbuf & Hlen).
  assert (0 <= append_base Capacity m n /\
          append_base Capacity m n + n <= 2 * Capacity) as Hbase.
  { unfold append_base. destruct (_ >? _) eqn:Hover; lia. }
  split; [exact Htmp|]. split; simpl; [|lia].
  rewrite !length_app, !length_take, length_drop. lia.
Qed.

(** C1. Whatever state the carry-over buffer is in once the new bytes
    are appended: if some window of [Capacity] live bytes has the head
    byte first and the tail byte last, [recv_packet] returns true with
    the window that starts at the smallest such index, and leaves in the
    carry-over buffer the live bytes that followed the window, in order,
    with the live length set to their number. ([m_r] is the manager once
    the transport has answered, [m1] once the bytes are appended.) *)
Theorem recv_packet_earliest_window packet m n m_r m1 :
  manager_wf Capacity m ->
  transport_read_tmp Capacity m = (Returns n, m_r) ->
  0 < n <= Capacity ->
  check_packet Capacity (_tmp_buffer m_r) n = Returns false ->
  append_to_carry_over Capacity n m_r = (Returns tt, m1) ->
  (exists i, 0 <= i /\ i + Capacity <= _recv_buf_len m1 /\
             framed_at Capacity (carry_over m1) i) ->
  exists i0 m2,
    (0 <= i0 /\ i0 + Capacity <= _recv_buf_len m1 /\
     framed_at Capacity (carry_over m1) i0 /\
     forall i, 0 <= i < i0 -> ~ framed_at Capacity (carry_over m1) i) /\
    recv_packet Capacity packet m =
      (Returns (true, {| _buffer := take (Z.to_nat Capacity)
                                      (drop (Z.to_nat i0) (carry_over m1)) |}),
       m2) /\
    carry_over m2 = drop (Z.to_nat (i0 + Capacity)) (carry_over m1) /\
    _recv_buf_len m2 = Z.of_nat (length (drop (Z.to_nat (i0 + Capacity)) (carry_over m1))).
Proof using Capacity_min Capacity_int.
  intros Hwf0 Hread Hn Hcheck Happend (i & Hi & Hin & Hframed).
  assert (manager_wf Capacity m1) as Hwf.
  { eapply append_to_carry_over_wf; [|exact Hn|exact Happend].
    by eapply transport_read_tmp_wf. }
  pose proof Hwf as (Htmp & Hbuf & Hlen).
  pose proof (length_carry_over m1 Hwf) as Hlive.
  destruct (first_framed (carry_over m1) i Hi Hframed)
    as (i0 & Hi0 & Hframed0 & Hfirst).
  assert (framed_at Capacity (_recv_buffer m1) i0) as Hframed1.
  { apply framed_at_carry_over; [done|lia|lia|done]. }
  assert (forall i', 0 <= i' < i0 -> ~ framed_at Capacity (_recv_buffer m1) i')
    as Hfirst1.
  { intros i' Hi'. rewrite <- framed_at_carry_over by (done || lia).
    by apply Hfirst. }
  pose proof (recv_packet_scan_first packet m n m_r m1 i0 Hread ltac:(lia)
                Hcheck Happend Hwf ltac:(lia) ltac:(lia) Hframed1 Hfirst1)
    as Hrecv.
  cbv zeta in Hrecv.
  assert (take (Z.to_nat Capacity) (drop (Z.to_nat i0) (_recv_buffer m1))
          = take (Z.to_nat Capacity) (drop (Z.to_nat i0) (carry_over m1)))
    as Hwindow.
  { unfold carry_over. rewrite !take_drop_commute, take_take.
    by rewrite Nat.min_l by lia. }
  rewrite Hwindow in Hrecv.
  exists i0. eexists. split; [|split; [exact Hrecv|]].
  - split; [lia|]. split; [lia|]. split; [exact Hframed0|exact Hfirst].
  - assert (carry_over
              (set_recv_buf_len
                 (Z.of_nat (Z.to_nat (_recv_buf_len m1 - i0 - Capacity)))
                 (set_recv_buffer
                    (take (Z.to_nat (_recv_buf_len m1 - i0 - Capacity))
                       (drop (Z.to_nat (i0 + Capacity)) (_recv_buffer m1))
                     ++ drop (Z.to_nat (_recv_buf_len m1 - i0 - Capacity))
                          (_recv_buffer m1)) m1))
            = drop (Z.to_nat (i0 + Capacity)) (carry_over m1)) as Hrest.
    { unfold carry_over at 1. simpl. rewrite Nat2Z.id.
      rewrite take_app_length' by (rewrite length_take, length_drop; lia).
      unfold carry_over. rewrite take_drop_commute. do 2 f_equal. lia. }
    split; [exact Hrest|].
    cbn [_recv_buf_len set_recv_buf_len]. rewrite length_drop. lia.
Qed.

(** *** A frame split over two reads *)

Lemma framed_at_app_head (pre rest : list byte) i :
  HEAD_BYTE ∉ pre ->
  0 <= i < Z.of_nat (length pre) ->
  ~ framed_at Capacity (pre ++ rest) i.
Proof.
  intros Hpre Hi [Hhead _]. apply Hpre.
  rewrite lookup_app_l in Hhead by lia.
  by apply list_elem_of_lookup_2 in Hhead.
Qed.

Lemma framed_at_app_frame (pre frame : list byte) :
  well_formed_frame Capacity frame ->
  framed_at Capacity (pre ++ frame) (Z.of_nat (length pre)).
Proof using Capacity_min.
  intros [Hlen [Hhead Htail]]. split.
  - rewrite lookup_app_r by lia.
    replace (Z.to_nat (Z.of_nat (length pre)) - length pre)%nat with (Z.to_nat 0) by lia.
    done.
  - rewrite lookup_app_r by lia.
    replace (Z.to_nat (Z.of_nat (length pre) + Capacity - 1) - length pre)%nat
      with (Z.to_nat (0 + Capacity - 1)) by lia.
    done.
Qed.

(** The carry-over buffer holds [pre], at most [Capacity] bytes none of
    which is the head byte. A well-formed frame then arrives in two reads,
    of [k] and of [Capacity - k] bytes: the first call fails, the second
    returns the frame and leaves the carry-over buffer empty. *)
Lemma recv_packet_split_after packet packet' m frame k t1 t2 :
  manager_wf Capacity m ->
  HEAD_BYTE ∉ carry_over m ->
  _recv_buf_len m <= Capacity ->
  well_formed_frame Capacity frame ->
  1 <= k <= Capacity - 1 ->
  read (_transporter m) Capacity = (Reply (k, take (Z.to_nat k) frame), t1) ->
  read t1 Capacity = (Reply (Capacity - k, drop (Z.to_nat k) frame), t2) ->
  exists m1 m2,
    recv_packet Capacity packet m = (Returns (false, packet), m1) /\
    recv_packet Capacity packet' m1 = (Returns (true, {| _buffer := frame |}), m2) /\
    carry_over m2 = [] /\
    manager_wf Capacity m2.
Proof using Capacity_min Capacity_int.
  intros Hwf Hpre Hlen Hframe Hk Hread1 Hread2.
  pose proof Hframe as [Hflen _].
  pose proof (length_carry_over m Hwf) as Hlive.
  assert (Z.of_nat (length (take (Z.to_nat k) frame)) = k) as Hlen1
    by (rewrite length_take; lia).
  assert (Z.of_nat (length (drop (Z.to_nat k) frame)) = Capacity - k) as Hlen2
    by (rewrite length_drop; lia).
  assert (joined Capacity m (take (Z.to_nat k) frame)
          = carry_over m ++ take (Z.to_nat k) frame) as Hjoin1.
  { unfold joined. rewrite Hlen1.
    rewrite Z.gtb_ltb. by rewrite (proj2 (Z.ltb_ge _ _)) by lia. }
  destruct (recv_packet_keeps packet m k (take (Z.to_nat k) frame) t1)
    as (m1 & Hrecv1 & Hwf1 & Hlive1 & Ht1 & _); try done; try lia.
  { rewrite Hjoin1, length_app. intros i Hi Hin.
    apply framed_at_app_head; [done|lia]. }
  rewrite Hjoin1 in Hlive1.
  pose proof (length_carry_over m1 Hwf1) as Hlen_m1.
  rewrite Hlive1, length_app in Hlen_m1.
  assert (joined Capacity m1 (drop (Z.to_nat k) frame) = carry_over m ++ frame)
    as Hjoin2.
  { unfold joined. rewrite Hlen2.
    rewrite Z.gtb_ltb, (proj2 (Z.ltb_ge _ _)) by lia.
    by rewrite Hlive1, <- app_assoc, take_drop. }
  destruct (recv_packet_takes packet' m1 (Capacity - k) (drop (Z.to_nat k) frame)
              t2 (Z.of_nat (length (carry_over m))))
    as (m2 & Hrecv2 & Hwf2 & Hlive2 & _); try done; try lia.
  { by rewrite Ht1. }
  { rewrite Hjoin2, length_app. lia. }
  { rewrite Hjoin2. by apply framed_at_app_frame. }
  { rewrite Hjoin2. intros i Hi. apply framed_at_app_head; [done|lia]. }
  exists m1, m2. split; [done|]. split; [|split; [|done]].
  - rewrite Hrecv2, Hjoin2.
    rewrite Nat2Z.id, drop_app_length. by rewrite firstn_all2 by lia.
  - rewrite Hlive2, Hjoin2. apply drop_ge. rewrite length_app. lia.
Qed.

(** C2. From an empty carry-over buffer, a well-formed frame delivered
    as two consecutive reads of [k] and [Capacity - k] bytes, for any [k]
    from 1 to [Capacity - 1]: the first [recv_packet] returns false, the
    second returns true with exactly that frame. *)
Theorem recv_packet_split_frame packet packet' m frame k t1 t2 :
  manager_wf Capacity m ->
  _recv_buf_len m = 0 ->
  well_formed_frame Capacity frame ->
  1 <= k <= Capacity - 1 ->
  read (_transporter m) Capacity = (Reply (k, take (Z.to_nat k) frame), t1) ->
  read t1 Capacity = (Reply (Capacity - k, drop (Z.to_nat k) frame), t2) ->
  exists m1 m2,
    recv_packet Capacity packet m = (Returns (false, packet), m1) /\
    recv_packet Capacity packet' m1 = (Returns (true, {| _buffer := frame |}), m2).
Proof using Capacity_min Capacity_int.
  intros Hwf Hempty Hframe Hk Hread1 Hread2.
  destruct (recv_packet_split_after packet packet' m frame k t1 t2)
    as (m1 & m2 & Hrecv1 & Hrecv2 & _); try done; try lia.
  - unfold carry_over. rewrite Hempty. simpl. apply not_elem_of_nil.
  - by exists m1, m2.
Qed.

(** *** The bound on the carry-over buffer *)

Lemma window_cases (mem : list byte) :
  (forall i, 0 <= i -> i + Capacity <= Z.of_nat (length mem) ->
             ~ framed_at Capacity mem i) \/
  (exists i0, 0 <= i0 /\ i0 + Capacity <= Z.of_nat (length mem) /\
              framed_at Capacity mem i0 /\
              forall i, 0 <= i < i0 -> ~ framed_at Capacity mem i).
Proof.
  destruct (framed_below mem (Z.to_nat (Z.of_nat (length mem) - Capacity + 1)))
    as [Hnone|(i0 & Hi0 & Hframed & Hfirst)].
  - left. intros i Hi Hin. apply Hnone. lia.
  - right. exists i0. split; [lia|]. split; [lia|]. by split.
Qed.

Lemma manager_wf_read m stored t :
  manager_wf Capacity m ->
  Z.of_nat (length stored) <= Capacity ->
  manager_wf Capacity
    (set_tmp_buffer (stored ++ drop (length stored) (_tmp_buffer m))
       (set_transporter t m)).
Proof.
  intros (Htmp & Hbuf & Hlen) Hstored. split; [|done].
  simpl. rewrite length_app, length_drop. lia.
Qed.

(** Every call returns, and keeps the state well formed, as long as the
    transport honours its contract. *)
Lemma recv_packet_preserves_wf packet m r t :
  manager_wf Capacity m ->
  read (_transporter m) Capacity = (r, t) ->
  read_honoured Capacity r ->
  exists res m',
    recv_packet Capacity packet m = (Returns res, m') /\ manager_wf Capacity m'.
Proof using Capacity_min Capacity_int.
  intros Hwf Hread Hr. pose proof Hwf as (Htmp & Hbuf & Hlen).
  destruct r as [[n stored]|]; [|clear Hr].
  - destruct Hr as (Hn & Hstored & Hsome).
    destruct (decide (0 < n)) as [Hpos|Hneg].
    + specialize (Hsome Hpos).
      destruct (decide (n = Capacity /\ framed_at Capacity stored 0))
        as [[-> Hframed]|Hslow].
      * do 2 eexists. split; [by apply recv_packet_aligned|].
        split; [|done]. simpl. lia.
      * assert (n = Capacity -> ~ framed_at Capacity stored 0) as Hslow'
          by (intros -> ?; by apply Hslow).
        destruct (window_cases (joined Capacity m stored))
          as [Hnone|(i0 & Hi0 & Hin & Hframed & Hfirst)].
        -- destruct (recv_packet_keeps packet m n stored t)
             as (m' & Hrecv & Hwf' & _); try done; try lia.
           by do 2 eexists.
        -- destruct (recv_packet_takes packet m n stored t i0)
             as (m' & Hrecv & Hwf' & _); try done; try lia.
           by do 2 eexists.
    + unfold recv_packet, try_catch. munfold.
      rewrite (transport_read_tmp_returns m n stored t) by (done || lia).
      rewrite (proj2 (Z.ltb_ge _ _)) by lia.
      unfold transport_close, transport_open. munfold.
      cbn [_transporter set_transporter set_tmp_buffer].
      destruct (open (close t)) as [[b|] t'] eqn:Ho.
      * do 2 eexists. split; [reflexivity|].
        apply (manager_wf_read m stored t') in Hwf; done.
      * do 2 eexists. split; [reflexivity|].
        apply (manager_wf_read m stored t') in Hwf; done.
  - unfold recv_packet, try_catch. munfold.
    unfold transport_read_tmp at 1. rewrite Hread.
    do 2 eexists. split; [reflexivity|]. done.
Qed.

Lemma TransceiverManager_new_wf (transporter : T) mode max_queue_size :
  manager_wf Capacity
    (TransceiverManager_new Capacity transporter mode max_queue_size).
Proof using Capacity_min Capacity_int.
  pose proof INT_MAX_lt_SIZE_MAX.
  unfold manager_wf, TransceiverManager_new, size_mul. simpl.
  rewrite size_t_wrap_small by lia.
  rewrite !length_replicate. lia.
Qed.

(** Over any number of calls the live length stays within the array. *)
Lemma recv_run_bounded packet (k : nat) : forall m,
  transport_honours_contract Capacity ->
  manager_wf Capacity m ->
  exists m', recv_run Capacity k packet m = Some m' /\ manager_wf Capacity m'.
Proof using Capacity_min Capacity_int.
  induction k as [|k IH]; intros m Hcontract Hwf.
  - by exists m.
  - simpl.
    destruct (read (_transporter m) Capacity) as [r t] eqn:Hread.
    destruct (recv_packet_preserves_wf packet m r t) as (res & m' & Hrecv & Hwf');
      try done.
    + pose proof (Hcontract (_transporter m)) as Hr. by rewrite Hread in Hr.
    + rewrite Hrecv. by apply IH.
Qed.

(** However many calls have gone by, a frame that the transport then
    delivers whole is returned. *)
Lemma recv_run_then_aligned packet packet' (k : nat) m frame :
  transport_honours_contract Capacity ->
  manager_wf Capacity m ->
  well_formed_frame Capacity frame ->
  exists m',
    recv_run Capacity k packet m = Some m' /\
    forall t,
      read (_transporter m') Capacity = (Reply (Capacity, frame), t) ->
      exists m'',
        recv_packet Capacity packet' m'
        = (Returns (true, {| _buffer := frame |}), m'').
Proof using Capacity_min Capacity_int.
  intros Hcontract Hwf Hframe.
  destruct (recv_run_bounded packet k m Hcontract Hwf) as (m' & Hrun & Hwf').
  exists m'. split; [done|]. intros t Hread. eexists.
  apply recv_packet_aligned; [apply Hwf'|done|done].
Qed.

(** *** Sending *)

Lemma pop_all_nil (q : list FixedPacket) : pop_all q = [].
Proof. induction q as [|p q IH]; [done|exact IH]. Qed.

Lemma send_packet_latest_only packet m :
  _use_realtime_send m = true ->
  _send_mode m = LATEST_ONLY ->
  send_packet Capacity packet m = (Returns true, set_realtime_packets [packet] m).
Proof.
  intros Huse Hmode. unfold send_packet, try_catch, queue_push. munfold.
  rewrite Huse, Hmode. simpl. by rewrite pop_all_nil.
Qed.

Lemma send_packet_fifo packet m :
  _use_realtime_send m = true ->
  _send_mode m = FIFO ->
  send_packet Capacity packet m
  = (Returns true, set_realtime_packets (_realtime_packets m ++ [packet]) m).
Proof.
  intros Huse Hmode. unfold send_packet, try_catch, queue_push. munfold.
  by rewrite Huse, Hmode.
Qed.

(** With a bound of at least one, [LIMITED_FIFO] keeps the newest
    [_max_queue_size] packets in the order they were pushed. *)
Lemma send_packet_limited_fifo packet m :
  _use_realtime_send m = true ->
  _send_mode m = LIMITED_FIFO ->
  1 <= _max_queue_size m ->
  Z.of_nat (length (_realtime_packets m)) <= _max_queue_size m ->
  let pushed := _realtime_packets m ++ [packet] in
  let kept := drop (length pushed - Z.to_nat (_max_queue_size m)) pushed in
  send_packet Capacity packet m = (Returns true, set_realtime_packets kept m) /\
  Z.of_nat (length kept) <= _max_queue_size m /\
  (Z.of_nat (length (_realtime_packets m)) = _max_queue_size m ->
   kept = drop 1 (_realtime_packets m) ++ [packet]) /\
  (Z.of_nat (length (_realtime_packets m)) < _max_queue_size m -> kept = pushed).
Proof.
  intros Huse Hmode Hmax Hlen pushed kept.
  assert (length pushed = S (length (_realtime_packets m))) as Hpushed
    by (unfold pushed; rewrite length_app; simpl; lia).
  split; [|split; [|split]].
  - unfold send_packet, try_catch, queue_push, queue_pop. munfold.
    rewrite Huse, Hmode.
    destruct (Z.of_nat (length (_realtime_packets m)) >=? _max_queue_size m) eqn:Hfull;
      rewrite Z.geb_leb in Hfull;
      [apply Z.leb_le in Hfull|apply Z.leb_gt in Hfull].
    + destruct (_realtime_packets m) as [|p q] eqn:Hq; [simpl in *; lia|].
      unfold kept, pushed. simpl.
      replace (S (length (q ++ [packet])) - Z.to_nat (_max_queue_size m))%nat
        with 1%nat by (rewrite length_app; simpl in *; lia).
      reflexivity.
    + unfold kept. simpl.
      replace (length pushed - Z.to_nat (_max_queue_size m))%nat with 0%nat by lia.
      reflexivity.
  - unfold kept. rewrite length_drop. lia.
  - intros Hfull. unfold kept.
    replace (length pushed - Z.to_nat (_max_queue_size m))%nat with 1%nat by lia.
    unfold pushed. destruct (_realtime_packets m); [simpl in *; lia|done].
  - intros Hroom. unfold kept.
    by replace (length pushed - Z.to_nat (_max_queue_size m))%nat with 0%nat by lia.
Qed.

Lemma pop_while_above_length max (q : list FixedPacket) :
  0 <= max -> Z.of_nat (length (pop_while_above max q)) <= max.
Proof.
  intros Hmax. induction q as [|p q IH]; [simpl; lia|].
  cbn [pop_while_above]. destruct (_ >? _) eqn:Habove; [exact IH|]. lia.
Qed.

(** [set_send_mode(LIMITED_FIFO, N)] brings the queue within any bound
    [N], zero included, and never pops an empty queue. *)
Lemma set_send_mode_limited_fifo N m :
  0 <= N ->
  exists m',
    set_send_mode LIMITED_FIFO N m = (Returns tt, m') /\
    _send_mode m' = LIMITED_FIFO /\
    _max_queue_size m' = N /\
    Z.of_nat (length (_realtime_packets m')) <= N.
Proof.
  intros HN. unfold set_send_mode. munfold. simpl.
  destruct (Z.of_nat (length (_realtime_packets m)) >? N) eqn:Habove.
  - eexists. split; [reflexivity|]. split; [done|]. split; [done|].
    simpl. by apply pop_while_above_length.
  - eexists. split; [reflexivity|]. split; [done|]. split; [done|].
    simpl. lia.
Qed.

Lemma simple_send_packet_written packet (m : TransceiverManager T) t1 :
  write (_transporter m) (buffer packet) Capacity = (Reply Capacity, t1) ->
  simple_send_packet Capacity packet m = (Returns true, set_transporter t1 m).
Proof using Capacity_min Capacity_int.
  intros Hwrite. unfold simple_send_packet, try_catch, transport_write. munfold.
  rewrite Hwrite. simpl. rewrite static_cast_int_Capacity.
  by rewrite bool_decide_true.
Qed.

Lemma simple_send_packet_short packet (m : TransceiverManager T) n t1 :
  n <> Capacity ->
  write (_transporter m) (buffer packet) Capacity = (Reply n, t1) ->
  simple_send_packet Capacity packet m
  = (Returns false, set_transporter (open (close t1)).2 m).
Proof using Capacity_min Capacity_int.
  intros Hn Hwrite.
  unfold simple_send_packet, try_catch, transport_write, transport_close,
    transport_open. munfold.
  rewrite Hwrite. simpl. rewrite static_cast_int_Capacity.
  rewrite bool_decide_false by done.
  cbn [_transporter set_transporter].
  by destruct (open (close t1)) as [[b|] t2].
Qed.

End TransceiverManagerProperties.

(** *** The bound on the carry-over buffer, and frames after a reset *)

Section OverflowReset.
Variable Capacity : Z.
Hypothesis Capacity_min : 3 <= Capacity.
Hypothesis Capacity_int : 3 * Capacity <= INT_MAX.
Context {T : Type} `{ProtocolInterface T}.
Implicit Type m : TransceiverManager T.



End OverflowReset.

(** *** Reconnecting after a short write *)

Section Reconnect.
Variable Capacity : Z.
Hypothesis Capacity_min : 3 <= Capacity.
Hypothesis Capacity_int : 3 * Capacity <= INT_MAX.
Context {T : Type} `{ProtocolInterface T}.

(** C8. With the send thread inactive, [send_packet] on a transport
    whose [write] reports a byte count other than [Capacity] returns
    false after exactly one [close] followed by one [open]; when [write]
    reports [Capacity] bytes it returns true and neither is called. The
    calls are those a recording transport has seen. *)
Theorem send_packet_reconnects packet (m : TransceiverManager (recorded T)) n t1 :
  _use_realtime_send m = false ->
  write (inner (_transporter m)) (buffer packet) Capacity = (Reply n, t1) ->
  (n <> Capacity ->
   exists m' : TransceiverManager (recorded T),
     send_packet Capacity packet m = (Returns false, m') /\
     calls (_transporter m')
     = calls (_transporter m)
       ++ [CallWrite (buffer packet) Capacity; CallClose; CallOpen]) /\
  (n = Capacity ->
   exists m' : TransceiverManager (recorded T),
     send_packet Capacity packet m = (Returns true, m') /\
     calls (_transporter m')
     = calls (_transporter m) ++ [CallWrite (buffer packet) Capacity]).
Proof using Capacity_min Capacity_int.
  intros Huse Hwrite.
  assert (write (_transporter m) (buffer packet) Capacity
          = (Reply n, {| inner := t1;
                         calls := calls (_transporter m)
                                  ++ [CallWrite (buffer packet) Capacity] |}))
    as Hrecorded.
  { simpl. unfold record_call. by rewrite Hwrite. }
  unfold send_packet. munfold. rewrite Huse.
  split.
  - intros Hn.
    rewrite (simple_send_packet_short Capacity Capacity_min Capacity_int
               _ _ _ _ Hn Hrecorded).
    eexists. split; [reflexivity|].
    simpl. unfold record_call. simpl. by rewrite <- !app_assoc.
  - intros ->.
    rewrite (simple_send_packet_written Capacity Capacity_min Capacity_int
               _ _ _ Hrecorded).
    eexists. split; reflexivity.
Qed.

End Reconnect.

(** *** The cached latest packet *)

Section Latest.
Variable Capacity : Z.
Context {T : Type} `{ProtocolInterface T}.
Implicit Type m : TransceiverManager T.

Lemma keeps_latest_ret {A} (a : A) : keeps_latest (T := T) (mret a).
Proof. by intros m. Qed.

Lemma keeps_latest_bind {A B} (c : M (T := T) A) (k : A -> M (T := T) B) :
  keeps_latest c -> (forall a, keeps_latest (k a)) -> keeps_latest (c ≫= k).
Proof.
  intros Hc Hk m. unfold mbind, M_bind. specialize (Hc m).
  destruct (c m) as [[a| |] m1]; simpl in *; [|done..].
  by rewrite Hk.
Qed.

Lemma keeps_latest_gets {A} (f : TransceiverManager T -> A) :
  keeps_latest (gets f).
Proof. by intros m. Qed.

Lemma keeps_latest_modify (f : TransceiverManager T -> TransceiverManager T) :
  (forall m, _latest_packet (f m) = _latest_packet m) ->
  keeps_latest (modify f).
Proof. intros Hf m. apply Hf. Qed.

Lemma keeps_latest_lift {A} (o : outcome A) : keeps_latest (T := T) (lift o).
Proof. by intros m. Qed.

Lemma keeps_latest_undefined {A} : keeps_latest (T := T) (A := A) undefined.
Proof. by intros m. Qed.

Lemma keeps_latest_when b (c : M (T := T) unit) :
  keeps_latest c -> keeps_latest (when b c).
Proof. intros Hc. destruct b; [done|apply keeps_latest_ret]. Qed.

Lemma keeps_latest_try_catch {A} (body handler : M (T := T) A) :
  keeps_latest body -> keeps_latest handler -> keeps_latest (try_catch body handler).
Proof.
  intros Hb Hh m. unfold try_catch. specialize (Hb m).
  destruct (body m) as [[a| |] m1]; simpl in *; [done| |done].
  by rewrite Hh.
Qed.

Lemma keeps_latest_transport_read_tmp len :
  keeps_latest (transport_read_tmp (T := T) len).
Proof.
  intros m. unfold transport_read_tmp.
  destruct (read (_transporter m) len) as [[[n stored]|] t]; [|done].
  by case_decide.
Qed.

Lemma keeps_latest_transport_close : keeps_latest (transport_close (T := T)).
Proof. by apply keeps_latest_modify. Qed.

Lemma keeps_latest_transport_open : keeps_latest (transport_open (T := T)).
Proof.
  intros m. unfold transport_open. by destruct (open (_transporter m)).
Qed.

Lemma keeps_latest_append_tmp recv_len :
  keeps_latest (append_tmp (T := T) recv_len).
Proof. intros m. unfold append_tmp. by case_decide. Qed.

Lemma keeps_latest_append_to_carry_over recv_len :
  keeps_latest (append_to_carry_over (T := T) Capacity recv_len).
Proof.
  unfold append_to_carry_over.
  apply keeps_latest_bind; [apply keeps_latest_gets|]. intros len.
  apply keeps_latest_bind.
  { apply keeps_latest_when. by apply keeps_latest_modify. }
  intros _. apply keeps_latest_bind; [apply keeps_latest_append_tmp|].
  intros _. by apply keeps_latest_modify.
Qed.

Lemma keeps_latest_shift_loop (fuel : nat) : forall j k,
  keeps_latest (shift_loop (T := T) fuel j k).
Proof.
  induction fuel as [|fuel IH]; intros j k; simpl;
    (apply keeps_latest_bind; [apply keeps_latest_gets|]); intros len;
    destruct (j <? len); try apply keeps_latest_ret;
    try apply keeps_latest_undefined.
  apply keeps_latest_bind; [apply keeps_latest_gets|]. intros buf.
  destruct (buf !! _); [|apply keeps_latest_undefined].
  case_decide; [|apply keeps_latest_undefined].
  apply keeps_latest_bind; [by apply keeps_latest_modify|].
  intros _. apply IH.
Qed.

#[local] Arguments shift_loop : simpl never.

Lemma keeps_latest_scan_loop (fuel : nat) : forall packet i,
  keeps_latest (scan_loop (T := T) Capacity fuel packet i).
Proof.
  induction fuel as [|fuel IH]; intros packet i; simpl;
    (apply keeps_latest_bind; [apply keeps_latest_gets|]); intros len;
    destruct (_ <=? _); try apply keeps_latest_ret;
    try apply keeps_latest_undefined.
  apply keeps_latest_bind; [apply keeps_latest_gets|]. intros buf.
  apply keeps_latest_bind; [apply keeps_latest_lift|]. intros [|]; [|apply IH].
  apply keeps_latest_bind; [apply keeps_latest_lift|]. intros packet'.
  apply keeps_latest_bind; [apply keeps_latest_shift_loop|]. intros k.
  apply keeps_latest_bind; [by apply keeps_latest_modify|]. intros _.
  apply keeps_latest_ret.
Qed.

(** [recv_packet] never writes the cache, however it ends. *)
Lemma keeps_latest_recv_packet packet :
  keeps_latest (recv_packet (T := T) Capacity packet).
Proof.
  unfold recv_packet.
  apply keeps_latest_try_catch; [|apply keeps_latest_ret].
  apply keeps_latest_bind; [apply keeps_latest_transport_read_tmp|].
  intros recv_len. destruct (0 <? recv_len).
  - apply keeps_latest_bind; [apply keeps_latest_gets|]. intros tmp.
    apply keeps_latest_bind; [apply keeps_latest_lift|]. intros [|].
    + apply keeps_latest_bind; [apply keeps_latest_lift|]. intros packet'.
      apply keeps_latest_ret.
    + apply keeps_latest_bind; [apply keeps_latest_append_to_carry_over|].
      intros _. apply keeps_latest_bind; [apply keeps_latest_gets|].
      intros buf. apply keeps_latest_scan_loop.
  - apply keeps_latest_bind; [apply keeps_latest_transport_close|]. intros _.
    apply keeps_latest_bind; [apply keeps_latest_transport_open|]. intros _.
    apply keeps_latest_ret.
Qed.

Lemma get_latest_packet_returns m :
  get_latest_packet m = (Returns (_latest_packet m), m).
Proof.
  unfold get_latest_packet. munfold.
  destruct (_latest_packet m) as [p|] eqn:Hp; [|done].
  by rewrite bool_decide_true by eauto.
Qed.

(** C9. [get_latest_packet] returns the cached packet, or no value when
    none is cached, and leaves the manager, cache included, as it was. So
    any number of consecutive calls return that same value; and so does a
    call made after an iteration of the receive loop whose [recv_packet]
    did not succeed. *)
Theorem get_latest_packet_snapshot m :
  get_latest_packet m = (Returns (_latest_packet m), m) /\
  (forall k : nat,
     poll_latest k m = (replicate k (Returns (_latest_packet m)), m)) /\
  (forall packet,
     (forall received, (recv_packet Capacity packet m).1 <> Returns (true, received)) ->
     let m' := (realtime_read_iteration Capacity packet m).2 in
     _latest_packet m' = _latest_packet m /\
     (get_latest_packet m').1 = (get_latest_packet m).1).
Proof.
  split; [apply get_latest_packet_returns|]. split.
  - intros k. induction k as [|k IH]; [done|].
    cbn [poll_latest]. rewrite get_latest_packet_returns, IH. done.
  - intros packet Hfailed m'.
    assert (_latest_packet m' = _latest_packet m) as Hsame.
    { unfold m', realtime_read_iteration. munfold.
      pose proof (keeps_latest_recv_packet packet m) as Hkeeps.
      destruct (recv_packet Capacity packet m) as [[[[|] received]| |] m1];
        simpl in *; try done.
      by destruct (Hfailed received). }
    split; [done|]. by rewrite !get_latest_packet_returns, Hsame.
Qed.

End Latest.

(** ** The instantiation [Capacity = 16] *)

Lemma Capacity16_min : 3 <= 16.
Proof. lia. Qed.

Lemma Capacity16_int : 3 * 16 <= INT_MAX.
Proof. unfold INT_MAX. lia. Qed.

Lemma Capacity16_max : 16 <= SIZE_MAX.
Proof. unfold SIZE_MAX. lia. Qed.

Lemma frame16_well_formed : well_formed_frame 16 frame16.
Proof. split; [reflexivity|]. split; reflexivity. Qed.

(** The scenario run through: the first call keeps its nine bytes and
    fails, the second returns the frame and keeps the four bytes after
    it. *)
Example scenario_recovers_frame :
  (recv_packet 16 (FixedPacket_new 16) scenario_start).1
  = Returns (false, FixedPacket_new 16) /\
  carry_over scenario_after_first = scenario_first /\
  (recv_packet 16 (FixedPacket_new 16) scenario_after_first).1
  = Returns (true, {| _buffer := frame16 |}) /\
  carry_over (recv_packet 16 (FixedPacket_new 16) scenario_after_first).2
  = replicate 4 Byte.xbb.
Proof. repeat split. Qed.

(** The first window is not always the frame that was sent: a stray
    head byte before a frame whose check byte is the tail byte makes the
    scan return the window that starts at the stray byte. *)
Example earliest_window_can_misframe :
  well_formed_frame 16 decoy_frame16 /\
  recv_run 16 2 (FixedPacket_new 16) decoy_start <> None /\
  forall m,
    recv_run 16 2 (FixedPacket_new 16) decoy_start = Some m ->
    (recv_packet 16 (FixedPacket_new 16) m).1
    = Returns (true, {| _buffer := Byte.xff :: take 15 decoy_frame16 |}) /\
    carry_over (recv_packet 16 (FixedPacket_new 16) m).2 = [Byte.x0d].
Proof.
  split; [split; [reflexivity|split; reflexivity]|].
  split; [discriminate|].
  intros m [= <-]. split; reflexivity.
Qed.

(** The scenario, second call: the scan passes the five stray bytes,
    returns the frame, and keeps the four bytes after it. *)
Lemma recv_packet_earliest_window_witness :
  exists (i0 : Z) (m2 : TransceiverManager scripted),
    (0 <= i0 /\ i0 + 16 <= _recv_buf_len scenario_appended /\
     framed_at 16 (carry_over scenario_appended) i0 /\
     forall i, 0 <= i < i0 -> ~ framed_at 16 (carry_over scenario_appended) i) /\
    recv_packet 16 (FixedPacket_new 16) scenario_after_first =
      (Returns (true, {| _buffer := take (Z.to_nat 16)
                                      (drop (Z.to_nat i0) (carry_over scenario_appended)) |}),
       m2) /\
    carry_over m2 = drop (Z.to_nat (i0 + 16)) (carry_over scenario_appended) /\
    _recv_buf_len m2 =
      Z.of_nat (length (drop (Z.to_nat (i0 + 16)) (carry_over scenario_appended))).
Proof.
  apply (recv_packet_earliest_window 16 Capacity16_min Capacity16_int
           (FixedPacket_new 16) scenario_after_first 16 scenario_read
           scenario_appended).
  - split; [reflexivity|]. split; [reflexivity|]. vm_compute. split; discriminate.
  - reflexivity.
  - lia.
  - reflexivity.
  - reflexivity.
  - exists 5. split; [lia|]. split; [vm_compute; discriminate|]. split; reflexivity.
Defined.

(** A frame of sixteen bytes read as seven and nine. *)
Lemma recv_packet_split_frame_witness :
  exists m1 m2 : TransceiverManager scripted,
    recv_packet 16 (FixedPacket_new 16)
      (manager16 [(7, take 7 frame16); (9, drop 7 frame16)] [])
    = (Returns (false, FixedPacket_new 16), m1) /\
    recv_packet 16 (FixedPacket_new 16) m1
    = (Returns (true, {| _buffer := frame16 |}), m2).
Proof.
  apply (recv_packet_split_frame 16 Capacity16_min Capacity16_int
           (FixedPacket_new 16) (FixedPacket_new 16)
           (manager16 [(7, take 7 frame16); (9, drop 7 frame16)] [])
           frame16 7
           (script16 [(9, drop 7 frame16)] []) (script16 [] [])).
  - split; [reflexivity|]. split; [reflexivity|]. vm_compute. split; discriminate.
  - reflexivity.
  - exact frame16_well_formed.
  - lia.
  - reflexivity.
  - reflexivity.
Defined.

(** A frame read whole. *)
Lemma recv_packet_fast_path_witness :
  exists m' : TransceiverManager scripted,
    recv_packet 16 (FixedPacket_new 16) (manager16 [(16, frame16)] [])
    = (Returns (true, {| _buffer := frame16 |}), m') /\
    _recv_buffer m' = _recv_buffer (manager16 [(16, frame16)] []) /\
    _recv_buf_len m' = _recv_buf_len (manager16 [(16, frame16)] []) /\
    carry_over m' = carry_over (manager16 [(16, frame16)] []).
Proof.
  apply (recv_packet_fast_path 16 Capacity16_min Capacity16_int
           (FixedPacket_new 16) (manager16 [(16, frame16)] []) frame16
           (script16 [] [])).
  - reflexivity.
  - reflexivity.
  - exact frame16_well_formed.
Defined.


(** After a reset that keeps five stray bytes, two frames that arrive in
    reads of 7, 16 and 9 bytes are both returned, the second read ending
    the first frame and starting the second. *)
Example reset_then_two_frames :
  _recv_buf_len crowded_pair = 30 /\
  (recv_packet 16 (FixedPacket_new 16) crowded_pair).1
  = Returns (false, FixedPacket_new 16) /\
  carry_over crowded_pair_reset = replicate 5 Byte.xaa /\
  recv_run 16 1 (FixedPacket_new 16) crowded_pair_reset <> None /\
  forall m1,
    recv_run 16 1 (FixedPacket_new 16) crowded_pair_reset = Some m1 ->
    (recv_packet 16 (FixedPacket_new 16) m1).1
    = Returns (true, {| _buffer := frame16 |}) /\
    carry_over (recv_packet 16 (FixedPacket_new 16) m1).2 = take 7 decoy_frame16 /\
    (recv_packet 16 (FixedPacket_new 16)
       (recv_packet 16 (FixedPacket_new 16) m1).2).1
    = Returns (true, {| _buffer := decoy_frame16 |}).
Proof.
  split; [reflexivity|]. split; [reflexivity|]. split; [reflexivity|].
  split; [discriminate|].
  intros m1 Hrun. vm_compute in Hrun. injection Hrun as <-.
  split; [|split]; vm_compute; reflexivity.
Qed.


(** A [uint32_t] stored at offset 3 of a fresh packet and read back. *)
Lemma load_unload_roundtrip_witness :
  exists p' : FixedPacket,
    load_data 16 (H := uint32_t) 4 (FixedPacket_new 16) 3735928559 3
    = (Some true, InBounds p') /\
    unload_data 16 (H := uint32_t) 4 p' 0 3
    = (Some true, InBounds 3735928559).
Proof.
  apply (load_unload_roundtrip 16 Capacity16_min Capacity16_max (H := uint32_t)
           (FixedPacket_new 16) 3735928559 0 3).
  - reflexivity.
  - reflexivity.
  - split; reflexivity.
  - split; reflexivity.
  - lia.
  - simpl. lia.
Defined.

(** A write of seven bytes out of sixteen. *)
Lemma send_packet_reconnects_witness :
  (7 <> 16 ->
   exists m' : TransceiverManager (recorded scripted),
     send_packet 16 (FixedPacket_new 16) short_writer = (Returns false, m') /\
     calls (_transporter m')
     = calls (_transporter short_writer)
       ++ [CallWrite (buffer (FixedPacket_new 16)) 16; CallClose; CallOpen]) /\
  (7 = 16 ->
   exists m' : TransceiverManager (recorded scripted),
     send_packet 16 (FixedPacket_new 16) short_writer = (Returns true, m') /\
     calls (_transporter m')
     = calls (_transporter short_writer)
       ++ [CallWrite (buffer (FixedPacket_new 16)) 16]).
Proof.
  apply (send_packet_reconnects 16 Capacity16_min Capacity16_int
           (FixedPacket_new 16) short_writer 7 (script16 [] [])).
  - reflexivity.
  - reflexivity.
Defined.

(** ** Where the code leaves its own bounds *)

(** C5 (the bound [N = 0]). With the send thread active and
    [set_send_mode(LIMITED_FIFO, 0)], the queue is empty and counts as
    full: [send_packet] pops it, which is undefined for an empty
    [std::queue], before it pushes. *)
Theorem send_packet_limited_fifo_zero_bound :
  zero_bound.1 = Returns tt /\
  _use_realtime_send zero_bound.2 = true /\
  _send_mode zero_bound.2 = LIMITED_FIFO /\
  _max_queue_size zero_bound.2 = 0 /\
  _realtime_packets zero_bound.2 = [] /\
  (send_packet 16 (FixedPacket_new 16) zero_bound.2).1 = Undefined.
Proof. repeat split. Qed.

(** C7 (an offset near [SIZE_MAX]). [index + DataLen] is computed in
    [std::size_t]: for [index = SIZE_MAX] and a [uint32_t] it wraps to 3,
    the test passes although the offset is far out of bounds, and
    [load_data] and [unload_data] return true after copying outside the
    buffer instead of returning no value. *)
Theorem load_data_accepts_wrapped_offset :
  ~ (0 < SIZE_MAX /\ SIZE_MAX + @sizeof Z uint32_t < 16 - 1) /\
  bounds_check 16 SIZE_MAX (@sizeof Z uint32_t) = true /\
  load_data 16 (H := uint32_t) 4 (FixedPacket_new 16) 3735928559 SIZE_MAX
  = (Some true, OutOfBounds) /\
  unload_data 16 (H := uint32_t) 4 (FixedPacket_new 16) 0 SIZE_MAX
  = (Some true, OutOfBounds).
Proof.
  split; [|repeat split].
  intros [_ Hlt]. revert Hlt. unfold SIZE_MAX. simpl. lia.
Qed.

(** C10 (an offset near [SIZE_MAX]). On a valid packet, [load_data] at
    [index = SIZE_MAX - 1] returns true, and the four bytes it copies
    start two bytes before the buffer: the call is successful and there
    is no packet left of which byte 0 could be said to be unchanged. *)
Theorem load_data_success_outside_buffer :
  let r := load_data 16 (H := uint32_t) 4 (FixedPacket_new 16) 3735928559
             (SIZE_MAX - 1) in
  is_valid 16 (FixedPacket_new 16) = true /\
  r.1 = Some true /\
  forall p', r.2 <> InBounds p'.
Proof. repeat split. intros p'. discriminate. Qed.

(** * Further properties *)

(** ** [FixedPacket]: clearing, the check byte, copies *)

Section FixedPacketFurther.
Variable Capacity : Z.
Hypothesis Capacity_min : 3 <= Capacity.

Lemma is_valid_lookup (p q : FixedPacket) :
  _buffer p !! 0%nat = _buffer q !! 0%nat ->
  _buffer p !! Z.to_nat (Capacity - 1) = _buffer q !! Z.to_nat (Capacity - 1) ->
  is_valid Capacity p = is_valid Capacity q.
Proof.
  intros H0 H1. unfold is_valid. by rewrite !list_lookup_total_alt, H0, H1.
Qed.

(** X1. [clear] keeps the length of the buffer, its first and its last
    byte, and with them the validity of the packet; every byte between
    them, the check byte included, is zero afterwards. *)
Theorem clear_zeroes_payload (p : FixedPacket) :
  Z.of_nat (length (_buffer p)) = Capacity ->
  length (_buffer (clear Capacity p)) = length (_buffer p) /\
  _buffer (clear Capacity p) !! 0%nat = _buffer p !! 0%nat /\
  _buffer (clear Capacity p) !! Z.to_nat (Capacity - 1)
  = _buffer p !! Z.to_nat (Capacity - 1) /\
  (forall i : nat, 1 <= Z.of_nat i <= Capacity - 2 ->
     _buffer (clear Capacity p) !! i = Some Byte.x00) /\
  is_valid Capacity (clear Capacity p) = is_valid Capacity p.
Proof using Capacity_min.
  intros Hlen.
  assert (_buffer (clear Capacity p) !! 0%nat = _buffer p !! 0%nat) as H0.
  { unfold clear. simpl. rewrite lookup_app_l by (rewrite length_take; lia).
    by rewrite lookup_take_lt by lia. }
  assert (_buffer (clear Capacity p) !! Z.to_nat (Capacity - 1)
          = _buffer p !! Z.to_nat (Capacity - 1)) as H1.
  { unfold clear. simpl. rewrite lookup_app_r by (rewrite length_take; lia).
    rewrite lookup_app_r by (rewrite length_take, length_replicate; lia).
    rewrite lookup_drop. f_equal. rewrite length_take, length_replicate. lia. }
  split; [|split; [done|split; [done|split]]].
  - unfold clear. simpl.
    rewrite !length_app, length_take, length_replicate, length_drop. lia.
  - intros i Hi. unfold clear. simpl.
    rewrite lookup_app_r by (rewrite length_take; lia).
    rewrite lookup_app_l by (rewrite length_take, length_replicate; lia).
    apply lookup_replicate_2. rewrite length_take. lia.
  - by apply is_valid_lookup.
Qed.

(** X2. [clear] on a valid packet gives the packet the constructor
    builds. *)
Theorem clear_valid_is_new (p : FixedPacket) :
  Z.of_nat (length (_buffer p)) = Capacity ->
  is_valid Capacity p = true ->
  clear Capacity p = FixedPacket_new Capacity.
Proof using Capacity_min.
  intros Hlen Hvalid.
  apply andb_true_iff in Hvalid as [Hh Ht].
  apply bool_decide_eq_true in Hh, Ht.
  rewrite list_lookup_total_alt in Hh, Ht.
  destruct (_buffer p) as [|h rest] eqn:Hp; [simpl in Hlen; lia|].
  simpl in Hh. subst h.
  unfold clear, FixedPacket_new. rewrite Hp. f_equal.
  apply list_eq. intros i.
  destruct (decide (i = 0%nat)) as [->|Hi0].
  { rewrite list_lookup_insert_ne by lia.
    rewrite list_lookup_insert_eq by (rewrite length_replicate; lia). done. }
  destruct (decide (i = Z.to_nat (Capacity - 1))) as [->|Hi1].
  { rewrite list_lookup_insert_eq
      by (rewrite length_insert, length_replicate; lia).
    rewrite lookup_app_r by (simpl; lia).
    rewrite lookup_app_r by (simpl; rewrite length_replicate; lia).
    rewrite lookup_drop. simpl length. rewrite length_replicate.
    replace (Z.to_nat (Capacity - 1) + _)%nat with (Z.to_nat (Capacity - 1)) by lia.
    destruct ((HEAD_BYTE :: rest) !! Z.to_nat (Capacity - 1)) eqn:Hl; [by simpl in Ht; subst|].
    apply lookup_ge_None in Hl. simpl in *. lia. }
  rewrite !list_lookup_insert_ne by lia.
  destruct (decide (Z.of_nat i < Capacity)) as [Hin|Hout].
  - rewrite lookup_app_r by (simpl; lia).
    rewrite lookup_app_l by (simpl; rewrite length_replicate; lia).
    rewrite (lookup_replicate_2 _ _ i) by lia.
    apply lookup_replicate_2. simpl. lia.
  - rewrite (proj2 (lookup_ge_None _ _)).
    2:{ rewrite !length_app, length_replicate, length_drop. simpl in *. lia. }
    symmetry. apply lookup_ge_None. rewrite length_replicate. lia.
Qed.

(** X3. [set_check_byte] stores its argument in the byte before the tail
    byte and changes no other byte: the packet is as valid as it was. *)
Theorem set_check_byte_only (p : FixedPacket) (check_byte : byte) :
  Z.of_nat (length (_buffer p)) = Capacity ->
  _buffer (set_check_byte Capacity p check_byte) !! Z.to_nat (Capacity - 2)
  = Some check_byte /\
  (forall i : nat, i <> Z.to_nat (Capacity - 2) ->
     _buffer (set_check_byte Capacity p check_byte) !! i = _buffer p !! i) /\
  length (_buffer (set_check_byte Capacity p check_byte)) = length (_buffer p) /\
  is_valid Capacity (set_check_byte Capacity p check_byte) = is_valid Capacity p.
Proof using Capacity_min.
  intros Hlen. unfold set_check_byte. simpl.
  split; [by rewrite list_lookup_insert_eq by lia|].
  split; [by intros i Hi; rewrite list_lookup_insert_ne|].
  split; [by rewrite length_insert|].
  apply is_valid_lookup; simpl; by rewrite list_lookup_insert_ne by lia.
Qed.

(** X4. [copy_from] replaces the whole buffer by the first [Capacity]
    bytes of the source, whatever the packet held, and the packet is then
    valid exactly when [check_packet] accepts the source as a packet of
    [Capacity] bytes. *)
Theorem copy_from_check_packet (p : FixedPacket) (mem : list byte) :
  Capacity <= SIZE_MAX ->
  Capacity <= Z.of_nat (length mem) ->
  exists p',
    copy_from Capacity p (Some mem) = Returns p' /\
    _buffer p' = take (Z.to_nat Capacity) mem /\
    check_packet Capacity mem (static_cast_int Capacity)
    = Returns (is_valid Capacity p').
Proof using Capacity_min.
  intros Hmax Hlen. exists {| _buffer := take (Z.to_nat Capacity) mem |}.
  split; [|split; [reflexivity|]].
  { unfold copy_from. by rewrite decide_True. }
  unfold check_packet, is_valid, size_sub. simpl.
  rewrite size_t_wrap_small by lia.
  rewrite bool_decide_false by auto.
  rewrite !list_lookup_total_alt.
  rewrite !lookup_take_lt by lia.
  destruct (lookup_lt_is_Some_2 mem 0 ltac:(lia)) as [h ->].
  destruct (lookup_lt_is_Some_2 mem (Z.to_nat (Capacity - 1)) ltac:(lia)) as [t ->].
  simpl.
  destruct (decide (h = HEAD_BYTE)) as [->|Hh].
  - rewrite (bool_decide_false (_ ≠ _)) by auto.
    rewrite (bool_decide_true (_ = _)) by done. simpl.
    destruct (decide (t = TAIL_BYTE)) as [->|Ht].
    + rewrite (bool_decide_false (_ ≠ _)) by auto.
      by rewrite bool_decide_true.
    + rewrite (bool_decide_true (_ ≠ _)) by auto.
      by rewrite bool_decide_false.
  - rewrite (bool_decide_true (_ ≠ _)) by auto.
    by rewrite (bool_decide_false (_ = _)).
Qed.

(** X5. Copying from the buffer of a packet gives that packet, whatever
    follows its buffer in memory, and a null source makes [copy_from]
    throw. *)
Theorem copy_from_buffer (p q : FixedPacket) (rest : list byte) :
  Z.of_nat (length (_buffer q)) = Capacity ->
  copy_from Capacity p (Some (buffer q ++ rest)) = Returns q /\
  copy_from Capacity p None = Throws.
Proof using Capacity_min.
  intros Hlen. split; [|done]. unfold copy_from, buffer.
  rewrite decide_True by (rewrite length_app; lia).
  rewrite take_app_length' by lia. by destruct q.
Qed.

End FixedPacketFurther.

Section FixedPacketLoads.
Variable Capacity : Z.
Hypothesis Capacity_min : 3 <= Capacity.
Hypothesis Capacity_max : Capacity <= SIZE_MAX.

Lemma run_loads_keep_check_byte (cs : list load_call) : forall p p',
  Forall (fun c => 0 <= lc_index c /\ 0 <= lc_len c /\
                   lc_index c + lc_len c <= SIZE_MAX) cs ->
  run_loads Capacity cs p = Some p' ->
  _buffer p' !! Z.to_nat (Capacity - 2) = _buffer p !! Z.to_nat (Capacity - 2).
Proof using Capacity_min Capacity_max.
  induction cs as [|c cs IH]; intros p p' Hcs Hrun.
  - by injection Hrun as ->.
  - apply Forall_cons in Hcs as [(Hi & Hl & Hs) Hcs].
    simpl in Hrun. unfold run_load in Hrun.
    destruct (load_data Capacity (lc_len c) p (lc_data c) (lc_index c))
      as [[[|]|] [p1|]] eqn:Hload; try done.
    rewrite (IH p1 p' Hcs Hrun).
    by destruct (load_data_keeps_delimiters Capacity Capacity_min Capacity_max
                   (H := lc_cpp c) (lc_len c) p p1
                   (lc_data c) (lc_index c) Hi Hl Hs Hload) as (_ & ? & _).
Qed.

(** X6. A check byte set with [set_check_byte] is still in place after
    any sequence of successful [load_data] calls whose offsets and
    lengths stay within the range of [std::size_t] sums, and the packet
    is as valid as before them. *)
Theorem check_byte_survives_loads (cs : list load_call) (p p' : FixedPacket)
    (check_byte : byte) :
  Z.of_nat (length (_buffer p)) = Capacity ->
  Forall (fun c => 0 <= lc_index c /\ 0 <= lc_len c /\
                   lc_index c + lc_len c <= SIZE_MAX) cs ->
  run_loads Capacity cs (set_check_byte Capacity p check_byte) = Some p' ->
  _buffer p' !! Z.to_nat (Capacity - 2) = Some check_byte /\
  is_valid Capacity p' = is_valid Capacity p.
Proof using Capacity_min Capacity_max.
  intros Hlen Hcs Hrun. split.
  - rewrite (run_loads_keep_check_byte cs _ _ Hcs Hrun).
    unfold set_check_byte. simpl. by rewrite list_lookup_insert_eq by lia.
  - rewrite (run_loads_keep_valid Capacity Capacity_min Capacity_max cs _ _ Hcs Hrun).
    apply is_valid_lookup; unfold set_check_byte; simpl;
      by rewrite list_lookup_insert_ne by lia.
Qed.

Lemma load_data_in_bounds {T} `{CppType T} (p : FixedPacket) (value : T) (index : Z) :
  Z.of_nat (length (_buffer p)) = Capacity ->
  is_trivially_copyable_v T = true ->
  represented value ->
  0 < index ->
  index + sizeof T < Capacity - 1 ->
  load_data Capacity (sizeof T) p value index
  = (Some true,
     InBounds {| _buffer := take (Z.to_nat index) (_buffer p) ++ object_repr value
                            ++ drop (Z.to_nat index + length (object_repr value))
                                 (_buffer p) |}).
Proof using Capacity_min Capacity_max.
  intros Hp Htc [Hlen Hval] Hi Hs.
  unfold load_data.
  rewrite (bounds_check_true Capacity Capacity_min Capacity_max) by lia.
  rewrite Htc. f_equal. unfold read_object. rewrite decide_True by lia.
  replace (Z.to_nat (sizeof T)) with (length (object_repr value)) by lia.
  rewrite firstn_all. apply store_bytes_in_bounds; lia.
Qed.

Lemma unload_data_fetched {T} `{CppType T} (p : FixedPacket) (value out : T)
    (index : Z) :
  is_trivially_copyable_v T = true ->
  represented value ->
  represented out ->
  0 < index ->
  index + sizeof T < Capacity - 1 ->
  fetch_bytes p index (sizeof T) = InBounds (object_repr value) ->
  unload_data Capacity (sizeof T) p out index = (Some true, InBounds value).
Proof using Capacity_min Capacity_max.
  intros Htc [Hlen Hval] [Hlen' _] Hi Hs Hfetch.
  unfold unload_data.
  rewrite (bounds_check_true Capacity Capacity_min Capacity_max) by lia.
  rewrite Htc, Hfetch. f_equal.
  unfold write_object. rewrite decide_True by lia.
  rewrite drop_ge by lia. rewrite app_nil_r. by rewrite Hval.
Qed.

(** X7. Two values loaded at offsets whose byte ranges do not overlap do
    not disturb each other: each is read back by [unload_data] at its
    own offset, whichever was loaded first. *)
Theorem load_data_disjoint {T1 T2} {C1 : CppType T1} {C2 : CppType T2}
    (p : FixedPacket) (v1 out1 : T1) (v2 out2 : T2) (i1 i2 : Z) :
  Z.of_nat (length (_buffer p)) = Capacity ->
  is_trivially_copyable_v T1 = true ->
  is_trivially_copyable_v T2 = true ->
  represented v1 -> represented out1 ->
  represented v2 -> represented out2 ->
  0 < i1 -> i1 + sizeof T1 < Capacity - 1 ->
  0 < i2 -> i2 + sizeof T2 < Capacity - 1 ->
  i1 + sizeof T1 <= i2 \/ i2 + sizeof T2 <= i1 ->
  exists p1 p2,
    load_data Capacity (sizeof T1) p v1 i1 = (Some true, InBounds p1) /\
    load_data Capacity (sizeof T2) p1 v2 i2 = (Some true, InBounds p2) /\
    unload_data Capacity (sizeof T1) p2 out1 i1 = (Some true, InBounds v1) /\
    unload_data Capacity (sizeof T2) p2 out2 i2 = (Some true, InBounds v2).
Proof using Capacity_min Capacity_max.
  intros Hp Htc1 Htc2 Hv1 Ho1 Hv2 Ho2 Hi1 Hs1 Hi2 Hs2 Hdisj.
  pose proof Hv1 as [Hl1 _]. pose proof Hv2 as [Hl2 _].
  pose proof (load_data_in_bounds p v1 i1 Hp Htc1 Hv1 Hi1 Hs1) as Hload1.
  set (p1 := {| _buffer := take (Z.to_nat i1) (_buffer p) ++ object_repr v1
                   ++ drop (Z.to_nat i1 + length (object_repr v1)) (_buffer p) |})
    in Hload1.
  assert (Z.of_nat (length (_buffer p1)) = Capacity) as Hp1.
  { subst p1. simpl. rewrite !length_app, length_take, length_drop. lia. }
  pose proof (load_data_in_bounds p1 v2 i2 Hp1 Htc2 Hv2 Hi2 Hs2) as Hload2.
  set (p2 := {| _buffer := take (Z.to_nat i2) (_buffer p1) ++ object_repr v2
                   ++ drop (Z.to_nat i2 + length (object_repr v2)) (_buffer p1) |})
    in Hload2.
  exists p1, p2. split; [done|]. split; [done|]. split.
  - apply unload_data_fetched; try done.
    assert (fetch_bytes p1 i1 (sizeof T1) = InBounds (object_repr v1)) as Hf1.
    { rewrite <- Hl1. subst p1. apply fetch_stored; lia. }
    assert (length (_buffer p2) = length (_buffer p1)) as Hlen2.
    { by destruct (load_data_frame Capacity (sizeof T2) p1 p2 v2 i2 0%nat Hload2
                     ltac:(lia)). }
    rewrite <- Hf1. unfold fetch_bytes. rewrite Hlen2.
    case_decide; [|done]. f_equal.
    apply list_eq. intros i.
    destruct (decide (i < Z.to_nat (sizeof T1))%nat) as [Hi|Hi].
    + rewrite !lookup_take_lt by done. rewrite !lookup_drop.
      by destruct (load_data_frame Capacity (sizeof T2) p1 p2 v2 i2
                     (Z.to_nat i1 + i)%nat Hload2 ltac:(lia)).
    + by rewrite !lookup_take_ge by lia.
  - apply unload_data_fetched; try done.
    rewrite <- Hl2. subst p2. apply fetch_stored; lia.
Qed.

End FixedPacketLoads.

(** ** [TransceiverManager]: the queue, failed reads, the threads *)

Section QueueFurther.
Variable Capacity : Z.
Context {T : Type} `{ProtocolInterface T}.
Implicit Type m : TransceiverManager T.

Lemma pop_while_above_drop max (q : list FixedPacket) :
  0 <= max ->
  pop_while_above max q = drop (length q - Z.to_nat max) q.
Proof.
  intros Hmax. induction q as [|p q IH]; [done|].
  cbn [pop_while_above]. destruct (_ >? _) eqn:Habove.
  - apply Z.gtb_gt in Habove. rewrite IH. simpl length in *.
    replace (S (length q) - Z.to_nat max)%nat
      with (S (length q - Z.to_nat max)) by lia.
    done.
  - rewrite Z.gtb_ltb in Habove. apply Z.ltb_ge in Habove.
    simpl length in *.
    by replace (S (length q) - Z.to_nat max)%nat with 0%nat by lia.
Qed.

(** X8. [set_send_mode(LATEST_ONLY, N)] records the mode and the bound
    and keeps of the queued packets the newest one only (none when the
    queue is empty); it never pops an empty queue. *)
Theorem set_send_mode_latest_only N m :
  exists m',
    set_send_mode LATEST_ONLY N m = (Returns tt, m') /\
    _send_mode m' = LATEST_ONLY /\
    _max_queue_size m' = N /\
    _realtime_packets m'
    = drop (length (_realtime_packets m) - 1) (_realtime_packets m) /\
    _transporter m' = _transporter m.
Proof.
  unfold set_send_mode, queue_push. munfold. simpl.
  destruct (_realtime_packets m) as [|p q] eqn:Hq using rev_ind.
  - eexists. split; [reflexivity|]. simpl. by rewrite Hq.
  - clear IHq.
    rewrite bool_decide_false by (by destruct q).
    rewrite last_snoc. simpl. rewrite pop_all_nil. simpl.
    eexists. split; [reflexivity|]. simpl.
    split; [done|]. split; [done|]. split; [|done].
    rewrite length_app. simpl.
    replace (length q + 1 - 1)%nat with (length q) by lia.
    by rewrite drop_app_length.
Qed.

(** X9. [set_send_mode(LIMITED_FIFO, N)] records the mode and the bound
    and keeps the newest [N] queued packets in their order, all of them
    when there are at most [N]. *)
Theorem set_send_mode_limited_fifo_newest N m :
  0 <= N ->
  exists m',
    set_send_mode LIMITED_FIFO N m = (Returns tt, m') /\
    _send_mode m' = LIMITED_FIFO /\
    _max_queue_size m' = N /\
    _realtime_packets m'
    = drop (length (_realtime_packets m) - Z.to_nat N) (_realtime_packets m) /\
    _transporter m' = _transporter m.
Proof.
  intros HN. unfold set_send_mode. munfold. simpl.
  destruct (Z.of_nat (length (_realtime_packets m)) >? N) eqn:Habove.
  - eexists. split; [reflexivity|]. simpl.
    split; [done|]. split; [done|]. split; [|done].
    by apply pop_while_above_drop.
  - rewrite Z.gtb_ltb in Habove. apply Z.ltb_ge in Habove.
    eexists. split; [reflexivity|]. simpl.
    split; [done|]. split; [done|]. split; [|done].
    by replace (length (_realtime_packets m) - Z.to_nat N)%nat with 0%nat by lia.
Qed.

(** X10. With the send thread active, [send_packet] only queues: the
    transport is left as it was, however the call ends. It returns true
    with the packet at the back of the queue, except under
    [LIMITED_FIFO] with an empty queue and a bound of zero, where it pops
    the empty queue. *)
Theorem send_packet_queues_only packet m :
  _use_realtime_send m = true ->
  let r := send_packet Capacity packet m in
  _transporter r.2 = _transporter m /\
  (r.1 = Returns true /\ last (_realtime_packets r.2) = Some packet \/
   r.1 = Undefined /\ _send_mode m = LIMITED_FIFO /\
   _realtime_packets m = [] /\ _max_queue_size m <= 0).
Proof.
  intros Huse. unfold send_packet, try_catch, queue_push, queue_pop. munfold.
  rewrite Huse. destruct (_send_mode m) eqn:Hmode; simpl.
  - split; [done|]. left. split; [done|]. apply last_snoc.
  - split; [done|]. left. split; [done|]. by rewrite pop_all_nil.
  - destruct (Z.of_nat (length (_realtime_packets m)) >=? _max_queue_size m)
      eqn:Hfull; simpl.
    + destruct (_realtime_packets m) as [|p q] eqn:Hq; simpl.
      * split; [done|]. right. rewrite Z.geb_leb in Hfull.
        apply Z.leb_le in Hfull. simpl in Hfull. done.
      * split; [done|]. left. split; [done|]. apply last_snoc.
    + split; [done|]. left. split; [done|]. apply last_snoc.
Qed.

End QueueFurther.

Section QueueBound.
Variable Capacity : Z.
Context {T : Type} `{ProtocolInterface T}.
Implicit Type m : TransceiverManager T.

(** A synchronous send always returns, and touches the transport only. *)
Lemma simple_send_packet_keeps_queue packet m :
  exists b m',
    simple_send_packet Capacity packet m = (Returns b, m') /\
    _realtime_packets m' = _realtime_packets m /\
    _use_realtime_send m' = _use_realtime_send m /\
    _send_mode m' = _send_mode m /\
    _max_queue_size m' = _max_queue_size m.
Proof.
  unfold simple_send_packet, try_catch, transport_write, transport_close,
    transport_open. munfold.
  destruct (write (_transporter m) (buffer packet) Capacity) as [[n|] t1]; simpl.
  - case_bool_decide.
    + by do 2 eexists.
    + simpl. destruct (open (close t1)) as [[b|] t2]; simpl; by do 2 eexists.
  - by do 2 eexists.
Qed.

(** X11. Under [LIMITED_FIFO] with a bound of at least one and the send
    thread active, in whatever order clients send and the thread runs its
    loop, every call returns, the queue never holds more than the bound,
    and what it holds is always the tail of the packets queued and sent
    so far, in their order. *)
Theorem limited_fifo_keeps_newest (es : list send_event) : forall local m,
  _use_realtime_send m = true ->
  _send_mode m = LIMITED_FIFO ->
  1 <= _max_queue_size m ->
  Z.of_nat (length (_realtime_packets m)) <= _max_queue_size m ->
  exists local' m' (k : nat),
    send_events Capacity es local m = (Returns local', m') /\
    Z.of_nat (length (_realtime_packets m')) <= _max_queue_size m /\
    _realtime_packets m' = drop k (_realtime_packets m ++ sent_by_clients es).
Proof.
  induction es as [|[packet|] es IH]; intros local m Huse Hmode Hmax Hlen.
  - exists local, m, 0%nat. split; [done|]. split; [done|].
    simpl. by rewrite app_nil_r.
  - destruct (send_packet_limited_fifo Capacity packet m Huse Hmode Hmax Hlen)
      as (Hsend & Hkept & _).
    cbv zeta in Hsend, Hkept.
    set (kept := drop (length (_realtime_packets m ++ [packet])
                       - Z.to_nat (_max_queue_size m))
                   (_realtime_packets m ++ [packet])) in *.
    destruct (IH local (set_realtime_packets kept m))
      as (local' & m' & k & Hrun & Hbound & Hqueue); [done..|].
    exists local', m', (length (_realtime_packets m ++ [packet])
                        - Z.to_nat (_max_queue_size m) + k)%nat.
    split; [|split; [done|]].
    + cbn [send_events]. munfold. by rewrite Hsend.
    + rewrite Hqueue. cbn [_realtime_packets set_realtime_packets sent_by_clients omap].
      unfold kept. rewrite <- drop_drop. f_equal.
      change (sent_by_clients (ClientSends packet :: es))
        with ([packet] ++ sent_by_clients es).
      rewrite app_assoc.
      by rewrite (drop_app_le (_ ++ [packet]) (sent_by_clients es)) by lia.
  - cbn [send_events]. munfold. rewrite Huse.
    unfold realtime_send_iteration, queue_pop. munfold.
    destruct (_realtime_packets m) as [|front q] eqn:Hq.
    + destruct (IH local m) as (local' & m' & k & Hrun & Hbound & Hqueue);
        [done..|by rewrite Hq|].
      exists local', m', k. rewrite Hq in Hqueue. by rewrite Hrun.
    + rewrite Hq. cbn beta iota.
      destruct (simple_send_packet_keeps_queue front (set_realtime_packets q m))
        as (b & m1 & Hsend & Hq1 & Huse1 & Hmode1 & Hmax1).
      rewrite Hsend. cbn beta iota.
      simpl in Hlen.
      destruct (IH front m1) as (local' & m' & k & Hrun & Hbound & Hqueue).
      { by rewrite Huse1. }
      { by rewrite Hmode1. }
      { by rewrite Hmax1. }
      { rewrite Hq1, Hmax1. simpl. lia. }
      exists local', m', (S k). rewrite Hrun. split; [done|].
      rewrite Hmax1 in Hbound. split; [done|].
      rewrite Hqueue, Hq1. done.
Qed.

(** X12. Under [LATEST_ONLY] with the send thread active, in whatever
    order clients send and the thread runs its loop, every call returns
    and the queue holds at most one packet, which is the newest of the
    packets queued and sent so far. *)
Theorem latest_only_keeps_newest (es : list send_event) : forall local m,
  _use_realtime_send m = true ->
  _send_mode m = LATEST_ONLY ->
  Z.of_nat (length (_realtime_packets m)) <= 1 ->
  exists local' m' (k : nat),
    send_events Capacity es local m = (Returns local', m') /\
    Z.of_nat (length (_realtime_packets m')) <= 1 /\
    _realtime_packets m' = drop k (_realtime_packets m ++ sent_by_clients es).
Proof.
  induction es as [|[packet|] es IH]; intros local m Huse Hmode Hlen.
  - exists local, m, 0%nat. split; [done|]. split; [done|].
    simpl. by rewrite app_nil_r.
  - pose proof (send_packet_latest_only Capacity packet m Huse Hmode) as Hsend.
    destruct (IH local (set_realtime_packets [packet] m))
      as (local' & m' & k & Hrun & Hbound & Hqueue); [done..|simpl; lia|].
    exists local', m', (length (_realtime_packets m) + k)%nat.
    split; [|split; [done|]].
    + cbn [send_events]. munfold. by rewrite Hsend.
    + rewrite Hqueue. cbn [_realtime_packets set_realtime_packets].
      change (sent_by_clients (ClientSends packet :: es))
        with ([packet] ++ sent_by_clients es).
      by rewrite <- drop_drop, drop_app_length.
  - cbn [send_events]. munfold. rewrite Huse.
    unfold realtime_send_iteration, queue_pop. munfold.
    destruct (_realtime_packets m) as [|front q] eqn:Hq.
    + destruct (IH local m) as (local' & m' & k & Hrun & Hbound & Hqueue);
        [done..|by rewrite Hq|].
      exists local', m', k. rewrite Hq in Hqueue. by rewrite Hrun.
    + rewrite Hq. cbn beta iota.
      destruct (simple_send_packet_keeps_queue front (set_realtime_packets q m))
        as (b & m1 & Hsend & Hq1 & Huse1 & Hmode1 & Hmax1).
      rewrite Hsend. cbn beta iota.
      simpl in Hlen.
      destruct (IH front m1) as (local' & m' & k & Hrun & Hbound & Hqueue).
      { by rewrite Huse1. }
      { by rewrite Hmode1. }
      { rewrite Hq1. simpl. lia. }
      exists local', m', (S k). rewrite Hrun. split; [done|]. split; [done|].
      rewrite Hqueue, Hq1. done.
Qed.

End QueueBound.

Section RecordedFurther.
Variable Capacity : Z.
Context {T : Type} `{ProtocolInterface T}.
Implicit Type m : TransceiverManager (recorded T).

Lemma written_app (cs cs' : list call) :
  written (cs ++ cs') = written cs ++ written cs'.
Proof. unfold written. apply omap_app. Qed.

(** A synchronous send always returns, after exactly one [write], of the
    packet's buffer; the queue and the send settings are not touched. *)
Lemma simple_send_packet_recorded packet m :
  exists b m',
    simple_send_packet Capacity packet m = (Returns b, m') /\
    written (calls (_transporter m'))
    = written (calls (_transporter m)) ++ [buffer packet] /\
    _realtime_packets m' = _realtime_packets m /\
    _use_realtime_send m' = _use_realtime_send m /\
    _send_mode m' = _send_mode m.
Proof.
  unfold simple_send_packet, try_catch, transport_write, transport_close,
    transport_open. munfold. simpl. unfold record_call.
  destruct (write (inner (_transporter m)) (buffer packet) Capacity)
    as [[n|] t1]; simpl.
  - case_bool_decide.
    + do 2 eexists. split; [reflexivity|]. simpl.
      by rewrite written_app.
    + simpl. destruct (open (close t1)) as [[b|] t2]; simpl;
        (do 2 eexists; split; [reflexivity|]; simpl;
         rewrite !written_app; simpl; by rewrite !app_nil_r).
  - do 2 eexists. split; [reflexivity|]. simpl. by rewrite written_app.
Qed.

(** X13. Under [FIFO] with the send thread active, whatever the order in
    which clients call [send_packet] and the thread runs its loop, and
    whatever the transport answers, no packet is lost, repeated or
    overtaken: the buffers handed to [write] so far, followed by the
    packets still queued, are the packets sent, in the order sent. *)
Theorem fifo_preserves_order (es : list send_event) : forall local m,
  _use_realtime_send m = true ->
  _send_mode m = FIFO ->
  exists local' m',
    send_events Capacity es local m = (Returns local', m') /\
    written (calls (_transporter m')) ++ map buffer (_realtime_packets m')
    = written (calls (_transporter m)) ++ map buffer (_realtime_packets m)
      ++ map buffer (sent_by_clients es).
Proof.
  induction es as [|[packet|] es IH]; intros local m Huse Hmode.
  - exists local, m. split; [done|]. simpl. by rewrite app_nil_r.
  - cbn [send_events]. munfold.
    unfold send_packet, try_catch, queue_push. munfold.
    rewrite Huse, Hmode. simpl.
    destruct (IH local (set_realtime_packets (_realtime_packets m ++ [packet]) m))
      as (local' & m' & Hrun & Hinv); [done..|].
    exists local', m'. split; [done|]. rewrite Hinv. simpl.
    rewrite map_app. simpl. by rewrite <- !app_assoc.
  - cbn [send_events]. munfold. rewrite Huse.
    unfold realtime_send_iteration, queue_pop. munfold.
    destruct (_realtime_packets m) as [|front q] eqn:Hq.
    + destruct (IH local m) as (local' & m' & Hrun & Hinv); [done..|].
      exists local', m'. split; [done|]. rewrite Hinv, Hq. done.
    + destruct (simple_send_packet_recorded front (set_realtime_packets q m))
        as (b & m1 & Hsend & Hw & Hq1 & Huse1 & Hmode1).
      rewrite Hq. cbn beta iota. rewrite Hsend. cbn beta iota.
      destruct (IH front m1) as (local' & m' & Hrun & Hinv);
        [by rewrite Huse1|by rewrite Hmode1|].
      exists local', m'. split; [done|]. rewrite Hinv, Hw, Hq1. simpl.
      by rewrite <- !app_assoc.
Qed.

(** X14. A [read] that reports no byte, or an error code, makes
    [recv_packet] return false after exactly one [close] followed by one
    [open] of the transport, whether or not the [open] succeeds; the
    output packet and the carry-over buffer are left as they were. *)
Theorem recv_packet_reconnects packet m n stored t1 :
  read (inner (_transporter m)) Capacity = (Reply (n, stored), t1) ->
  n <= 0 ->
  (length stored <= length (_tmp_buffer m))%nat ->
  exists m',
    recv_packet Capacity packet m = (Returns (false, packet), m') /\
    calls (_transporter m')
    = calls (_transporter m) ++ [CallRead Capacity; CallClose; CallOpen] /\
    _recv_buffer m' = _recv_buffer m /\
    _recv_buf_len m' = _recv_buf_len m.
Proof.
  intros Hread Hn Hstored.
  unfold recv_packet, try_catch, transport_read_tmp, transport_close,
    transport_open. munfold. simpl. unfold record_call. rewrite Hread. simpl.
  rewrite decide_True by done.
  rewrite (proj2 (Z.ltb_ge 0 n)) by lia. simpl.
  destruct (open (close t1)) as [[b|] t2]; simpl;
    (eexists; split; [reflexivity|]; simpl; by rewrite <- !app_assoc).
Qed.

(** X15. A [read] that throws makes [recv_packet] return false at once:
    the exception does not leave the call, the transport is neither
    closed nor reopened, and the output packet and every buffer are left
    as they were. *)
Theorem recv_packet_read_raises packet m t1 :
  read (inner (_transporter m)) Capacity = (Raise, t1) ->
  exists m',
    recv_packet Capacity packet m = (Returns (false, packet), m') /\
    calls (_transporter m') = calls (_transporter m) ++ [CallRead Capacity] /\
    _tmp_buffer m' = _tmp_buffer m /\
    _recv_buffer m' = _recv_buffer m /\
    _recv_buf_len m' = _recv_buf_len m.
Proof.
  intros Hread.
  unfold recv_packet, try_catch, transport_read_tmp. munfold. simpl.
  unfold record_call. rewrite Hread. simpl.
  eexists. split; [reflexivity|]. done.
Qed.

End RecordedFurther.

Section ManagerFurther.
Variable Capacity : Z.
Hypothesis Capacity_min : 3 <= Capacity.
Hypothesis Capacity_int : 3 * Capacity <= INT_MAX.
Context {T : Type} `{ProtocolInterface T}.
Implicit Type m : TransceiverManager T.



(** X17. One iteration of the receive thread: when [recv_packet] returns
    true, [get_latest_packet] hands out the packet it produced from then
    on; when it returns false, [get_latest_packet] hands out what it did
    before the iteration. *)
Theorem realtime_read_iteration_latest packet m r m1 :
  recv_packet Capacity packet m = (Returns r, m1) ->
  exists m2,
    realtime_read_iteration Capacity packet m = (Returns r.2, m2) /\
    (get_latest_packet m2).1
    = Returns (if r.1 then Some r.2 else _latest_packet m) /\
    (get_latest_packet m2).2 = m2.
Proof.
  intros Hrecv.
  pose proof (keeps_latest_recv_packet Capacity packet m) as Hkeep.
  rewrite Hrecv in Hkeep. simpl in Hkeep.
  unfold realtime_read_iteration. munfold. rewrite Hrecv.
  destruct r as [[|] packet']; simpl.
  - eexists. split; [reflexivity|]. unfold get_latest_packet. munfold. simpl.
    done.
  - eexists. split; [reflexivity|]. unfold get_latest_packet. munfold. simpl.
    rewrite Hkeep. split; [|done]. f_equal.
    by destruct (_latest_packet m).
Qed.

(** X18. On a transport that honours the contract of [read], any number
    of [recv_packet] calls on a freshly constructed manager all return,
    none of them reading or writing outside the two buffers, and the live
    length stays within [0, 2 * Capacity]; a frame that the transport
    then delivers whole is returned by the next call. *)
Theorem recv_packet_run_safe (transporter : T) mode max_queue_size
    packet packet' (k : nat) :
  transport_honours_contract Capacity ->
  exists m',
    recv_run Capacity k packet
      (TransceiverManager_new Capacity transporter mode max_queue_size)
    = Some m' /\
    manager_wf Capacity m' /\
    forall frame t,
      well_formed_frame Capacity frame ->
      read (_transporter m') Capacity = (Reply (Capacity, frame), t) ->
      exists m'',
        recv_packet Capacity packet' m'
        = (Returns (true, {| _buffer := frame |}), m'').
Proof using Capacity_min Capacity_int.
  intros Hcontract.
  destruct (recv_run_bounded Capacity Capacity_min Capacity_int packet k
              (TransceiverManager_new Capacity transporter mode max_queue_size)
              Hcontract
              (TransceiverManager_new_wf Capacity Capacity_min Capacity_int
                 transporter mode max_queue_size))
    as (m' & Hrun & Hwf').
  exists m'. split; [done|]. split; [done|].
  intros frame t Hframe Hread. eexists.
  apply (recv_packet_aligned Capacity Capacity_min Capacity_int);
    [apply Hwf'|done|done].
Qed.

End ManagerFurther.

(** ** Resynchronisation on a stream *)

Lemma recv_frames_step Capacity {T : Type} `{ProtocolInterface T}
    (n : nat) packet (m m1 : TransceiverManager T) r :
  recv_packet Capacity packet m = (Returns r, m1) ->
  recv_frames Capacity (S n) packet m
  = match recv_frames Capacity n r.2 m1 with
    | (Returns rest, m2) => (Returns (if r.1 then r.2 :: rest else rest), m2)
    | (Throws, m2) => (Throws, m2)
    | (Undefined, m2) => (Undefined, m2)
    end.
Proof. intros Hrecv. cbn [recv_frames]. munfold. by rewrite Hrecv. Qed.

Section Resynchronise.
Variable Capacity : Z.
Hypothesis Capacity_min : 3 <= Capacity.
Hypothesis Capacity_int : 3 * Capacity <= INT_MAX.
Implicit Type m : TransceiverManager byte_stream.

Lemma read_stream_full (s : byte_stream) (a b : list byte) :
  pending s = a ++ b ->
  Z.of_nat (length a) = Capacity ->
  read s Capacity = (Reply (Capacity, a), {| pending := b |}).
Proof using Capacity_min.
  intros Hs Ha. simpl. rewrite Hs, length_app.
  rewrite Z.min_l by lia.
  rewrite take_app_length' by lia. by rewrite drop_app_length' by lia.
Qed.

Lemma read_stream_rest (s : byte_stream) :
  Z.of_nat (length (pending s)) <= Capacity ->
  read s Capacity
  = (Reply (Z.of_nat (length (pending s)), pending s), {| pending := [] |}).
Proof using Type.
  intros Hs. simpl. rewrite Z.min_r by lia. rewrite Nat2Z.id.
  by rewrite firstn_all, drop_all.
Qed.

Lemma framed_at_app_l (mem rest : list byte) i :
  framed_at Capacity mem i -> framed_at Capacity (mem ++ rest) i.
Proof.
  intros [Hhead Htail]. split.
  - rewrite lookup_app_l; [done|]. by eapply lookup_lt_Some.
  - rewrite lookup_app_l; [done|]. by eapply lookup_lt_Some.
Qed.

(** On a stream that has run dry the call fails. *)
Lemma recv_packet_dry packet m :
  pending (_transporter m) = [] ->
  exists m', recv_packet Capacity packet m = (Returns (false, packet), m').
Proof using Capacity_min.
  intros Hdry. unfold recv_packet, try_catch, transport_read_tmp,
    transport_close, transport_open. munfold. simpl. rewrite Hdry. simpl.
  rewrite Z.min_r by lia. simpl. by eexists.
Qed.

(** Frames that arrive aligned are returned one per call. *)
Lemma recv_frames_aligned (frames : list (list byte)) : forall packet m,
  Z.of_nat (length (_tmp_buffer m)) = Capacity ->
  pending (_transporter m) = concat frames ->
  Forall (well_formed_frame Capacity) frames ->
  exists m',
    recv_frames Capacity (S (length frames)) packet m
    = (Returns (map (fun f => {| _buffer := f |}) frames), m').
Proof using Capacity_min Capacity_int.
  induction frames as [|f rest IH]; intros packet m Htmp Hpending Hframes.
  - destruct (recv_packet_dry packet m Hpending) as [m' Hrecv].
    exists m'. by rewrite (recv_frames_step _ _ _ _ _ _ Hrecv).
  - apply Forall_cons in Hframes as [Hf Hrest]. pose proof Hf as [Hlen _].
    pose proof (read_stream_full (_transporter m) f (concat rest) Hpending Hlen)
      as Hread.
    pose proof (recv_packet_aligned Capacity Capacity_min Capacity_int packet m f _
                  Htmp Hread Hf) as Hrecv.
    destruct (IH {| _buffer := f |}
                (set_tmp_buffer f (set_transporter {| pending := concat rest |} m)))
      as [m' Hrun]; [done..|].
    exists m'. rewrite (recv_frames_step _ _ _ _ _ _ Hrecv). cbn [fst snd length].
    by rewrite Hrun.
Qed.

(** The steady state of a stream that is [Capacity - k] bytes out of
    step: the carry-over buffer holds the first [k] bytes of the next
    frame, after bytes [pre] that hold no head byte, and every call
    returns one frame. *)
Lemma recv_frames_steady (rest : list (list byte)) : forall pre f packet m k,
  manager_wf Capacity m ->
  1 <= k <= Capacity - 1 ->
  Z.of_nat (length pre) + k <= Capacity ->
  HEAD_BYTE ∉ pre ->
  carry_over m = pre ++ take (Z.to_nat k) f ->
  pending (_transporter m) = drop (Z.to_nat k) f ++ concat rest ->
  Forall (fun f => well_formed_frame Capacity f /\ HEAD_BYTE ∉ drop 1 f)
    (f :: rest) ->
  exists m',
    recv_frames Capacity (S (length rest)) packet m
    = (Returns (map (fun f => {| _buffer := f |}) (f :: rest)), m').
Proof using Capacity_min Capacity_int.
  induction rest as [|f2 rest IH];
    intros pre f packet m k Hwf Hk Hpre Hjunk Hcarry Hpending Hframes.
  - apply Forall_cons in Hframes as [[Hf Hclean] _]. pose proof Hf as [Hlen _].
    simpl in Hpending. rewrite app_nil_r in Hpending.
    pose proof (length_carry_over Capacity Capacity_min m Hwf) as Hlive.
    rewrite Hcarry, length_app, length_take in Hlive.
    pose proof (read_stream_rest (_transporter m)) as Hread.
    rewrite Hpending, length_drop in Hread. specialize (Hread ltac:(lia)).
    assert (joined Capacity m (drop (Z.to_nat k) f) = pre ++ f) as Hjoin.
    { unfold joined. rewrite length_drop.
      rewrite Z.gtb_ltb, (proj2 (Z.ltb_ge _ _)) by lia.
      by rewrite Hcarry, <- app_assoc, take_drop. }
    destruct (recv_packet_takes Capacity Capacity_min Capacity_int packet m
                (Z.of_nat (length f - Z.to_nat k)) (drop (Z.to_nat k) f)
                {| pending := [] |} (Z.of_nat (length pre)))
      as (m1 & Hrecv & _); try done; try lia.
    { by rewrite length_drop. }
    { rewrite Hjoin, length_app. lia. }
    { rewrite Hjoin. by apply framed_at_app_frame. }
    { rewrite Hjoin. intros i Hi. apply framed_at_app_head; [done|lia]. }
    exists m1. rewrite (recv_frames_step _ _ _ _ _ _ Hrecv). cbn [fst snd recv_frames].
    munfold. rewrite Hjoin, Nat2Z.id, drop_app_length.
    by rewrite firstn_all2 by lia.
  - apply Forall_cons in Hframes as [[Hf Hclean] Hrest]. pose proof Hf as [Hlen _].
    pose proof Hrest as Hrest'.
    apply Forall_cons in Hrest' as [[Hf2 _] _]. pose proof Hf2 as [Hlen2 _].
    pose proof (length_carry_over Capacity Capacity_min m Hwf) as Hlive.
    rewrite Hcarry, length_app, length_take in Hlive.
    set (stored := drop (Z.to_nat k) f ++ take (Z.to_nat k) f2).
    assert (Z.of_nat (length stored) = Capacity) as Hstored.
    { unfold stored. rewrite length_app, length_drop, length_take. lia. }
    assert (pending (_transporter m)
            = stored ++ (drop (Z.to_nat k) f2 ++ concat rest)) as Hsplit.
    { rewrite Hpending. unfold stored. simpl.
      rewrite <- !app_assoc. f_equal.
      by rewrite (app_assoc (take _ f2)), take_drop. }
    pose proof (read_stream_full (_transporter m) stored _ Hsplit Hstored) as Hread.
    assert (joined Capacity m stored = pre ++ f ++ take (Z.to_nat k) f2) as Hjoin.
    { unfold joined. rewrite Hstored.
      rewrite Z.gtb_ltb, (proj2 (Z.ltb_ge _ _)) by lia.
      rewrite Hcarry. unfold stored.
      rewrite <- !app_assoc. f_equal.
      by rewrite (app_assoc (take _ f)), take_drop. }
    destruct (recv_packet_takes Capacity Capacity_min Capacity_int packet m
                Capacity stored {| pending := drop (Z.to_nat k) f2 ++ concat rest |}
                (Z.of_nat (length pre)))
      as (m1 & Hrecv & Hwf1 & Hlive1 & Ht1 & _); try done; try lia.
    { intros _ [Hhead _]. apply Hclean.
      unfold stored in Hhead. change (Z.to_nat 0) with 0%nat in Hhead.
      rewrite lookup_app_l in Hhead by (rewrite length_drop; lia).
      rewrite lookup_drop in Hhead.
      apply (list_elem_of_lookup_2 _ (Z.to_nat k - 1)).
      rewrite lookup_drop. rewrite <- Hhead. f_equal. lia. }
    { rewrite Hjoin, !length_app, length_take. lia. }
    { rewrite Hjoin, app_assoc. apply framed_at_app_l.
      by apply framed_at_app_frame. }
    { rewrite Hjoin. intros i Hi. apply framed_at_app_head; [done|lia]. }
    rewrite Hjoin in Hrecv, Hlive1.
    assert (take (Z.to_nat Capacity)
              (drop (Z.to_nat (Z.of_nat (length pre)))
                 (pre ++ f ++ take (Z.to_nat k) f2)) = f) as Hwindow.
    { rewrite Nat2Z.id, drop_app_length. by rewrite take_app_length' by lia. }
    rewrite Hwindow in Hrecv.
    assert (carry_over m1 = [] ++ take (Z.to_nat k) f2) as Hcarry1.
    { rewrite Hlive1. rewrite app_assoc.
      by rewrite drop_app_length' by (rewrite length_app; lia). }
    destruct (IH [] f2 {| _buffer := f |} m1 k)
      as [m' Hrun]; try done; try (simpl; lia).
    { apply not_elem_of_nil. }
    { by rewrite Ht1. }
    exists m'. rewrite (recv_frames_step _ _ _ _ _ _ Hrecv). cbn [fst snd length].
    by rewrite Hrun.
Qed.

(** X19. A stream of well-formed frames that starts with fewer than
    [Capacity] stray bytes, read [Capacity] bytes at a time: when neither
    the stray bytes nor the frames past their first byte hold a head
    byte, the calls return every frame of the stream, in order and
    nothing else, one call after the last frame included. *)
Theorem recv_frames_resynchronises (junk : list byte)
    (frames : list (list byte)) packet m :
  manager_wf Capacity m ->
  _recv_buf_len m = 0 ->
  pending (_transporter m) = junk ++ concat frames ->
  Z.of_nat (length junk) < Capacity ->
  HEAD_BYTE ∉ junk ->
  Forall (fun f => well_formed_frame Capacity f /\ HEAD_BYTE ∉ drop 1 f) frames ->
  exists m',
    recv_frames Capacity (S (length frames)) packet m
    = (Returns (map (fun f => {| _buffer := f |}) frames), m').
Proof using Capacity_min Capacity_int.
  intros Hwf Hempty Hpending Hshort Hjunk Hframes.
  pose proof Hwf as (Htmp & _ & _).
  assert (carry_over m = []) as Hcarry
    by (unfold carry_over; by rewrite Hempty).
  destruct junk as [|b junk'] eqn:Hj.
  { apply recv_frames_aligned; [done|done|].
    eapply Forall_impl; [exact Hframes|]. by intros f [? _]. }
  rewrite <- Hj in *. assert (1 <= Z.of_nat (length junk)) as Hj1
    by (rewrite Hj; simpl; lia).
  clear Hj b junk'.
  destruct frames as [|f rest].
  - simpl in Hpending. rewrite app_nil_r in Hpending.
    pose proof (read_stream_rest (_transporter m)) as Hread.
    rewrite Hpending in Hread. specialize (Hread ltac:(lia)).
    assert (joined Capacity m junk = junk) as Hjoin.
    { unfold joined. rewrite Hempty, Hcarry.
      by rewrite Z.gtb_ltb, (proj2 (Z.ltb_ge _ _)) by lia. }
    destruct (recv_packet_keeps Capacity Capacity_min Capacity_int packet m
                (Z.of_nat (length junk)) junk {| pending := [] |})
      as (m1 & Hrecv & _); try done; try lia.
    { rewrite Hjoin. intros i Hi Hin. lia. }
    exists m1. by rewrite (recv_frames_step _ _ _ _ _ _ Hrecv).
  - pose proof Hframes as Hframes'.
    apply Forall_cons in Hframes' as [[Hf _] _]. pose proof Hf as [Hlen _].
    set (k := Capacity - Z.of_nat (length junk)).
    set (stored := junk ++ take (Z.to_nat k) f).
    assert (Z.of_nat (length stored) = Capacity) as Hstored.
    { unfold stored. rewrite length_app, length_take. lia. }
    assert (pending (_transporter m)
            = stored ++ (drop (Z.to_nat k) f ++ concat rest)) as Hsplit.
    { rewrite Hpending. unfold stored. simpl.
      rewrite <- !app_assoc. f_equal.
      by rewrite (app_assoc (take _ f)), take_drop. }
    pose proof (read_stream_full (_transporter m) stored _ Hsplit Hstored) as Hread.
    assert (joined Capacity m stored = stored) as Hjoin.
    { unfold joined. rewrite Hempty, Hcarry, Hstored.
      by rewrite Z.gtb_ltb, (proj2 (Z.ltb_ge _ _)) by lia. }
    destruct (recv_packet_keeps Capacity Capacity_min Capacity_int packet m
                Capacity stored {| pending := drop (Z.to_nat k) f ++ concat rest |})
      as (m1 & Hrecv & Hwf1 & Hlive1 & Ht1 & _); try done; try lia.
    { intros _. apply framed_at_app_head; [done|lia]. }
    { rewrite Hjoin. intros i Hi Hin.
      assert (i = 0) as -> by lia. apply framed_at_app_head; [done|lia]. }
    rewrite Hjoin in Hlive1.
    destruct (recv_frames_steady rest junk f packet m1 k)
      as [m' Hrun]; try done; try lia.
    { by rewrite Ht1. }
    exists m'. rewrite (recv_frames_step _ _ _ _ _ _ Hrecv). cbn [fst snd length].
    by rewrite Hrun.
Qed.

End Resynchronise.

(** ** [UartProtocol] *)

Section UartProperties.
Context {platform : Platform}.
Import UartProtocol.

Lemma find_baud_accepts (speed : Z) :
  is_Some (find_baud speed) <->
  speed ∈ [230400; 115200; 19200; 9600; 4800; 2400; 1200; 300; 0].
Proof.
  unfold find_baud, baud_rates. simpl.
  rewrite !elem_of_cons, elem_of_nil.
  repeat case_bool_decide; simpl; split;
    try (intros _; eexists; reflexivity); try (intros _; tauto);
    try (intros [? [=]]); try (intros ?; exfalso; intuition congruence).
Qed.

Lemma tolower_accepts (parity lower : Z) :
  tolower parity = Returns lower ->
  lower ∈ [110; 111; 101; 115] <->
  parity ∈ [78; 110; 79; 111; 69; 101; 83; 115].
Proof.
  unfold tolower. case_decide; [|done]. intros [= <-].
  rewrite !elem_of_cons, !elem_of_nil. case_decide; lia.
Qed.

Lemma flow_control_accepts (flow_ctrl : Z) (o : termios) :
  is_Some (flow_control flow_ctrl o) <-> flow_ctrl ∈ [0; 1; 2].
Proof.
  unfold flow_control. rewrite !elem_of_cons, elem_of_nil.
  repeat case_bool_decide; split;
    try (intros _; eexists; reflexivity); try (intros _; tauto);
    try (intros [? [=]]); try (intros ?; exfalso; intuition congruence).
Qed.

Lemma parity_bits_accepts (lower : Z) (o : termios) :
  is_Some (parity_bits lower o) <-> lower ∈ [110; 111; 101; 115].
Proof.
  unfold parity_bits. rewrite !elem_of_cons, elem_of_nil.
  repeat case_bool_decide; split;
    try (intros _; eexists; reflexivity); try (intros _; tauto);
    try (intros [? [=]]); try (intros ?; exfalso; intuition congruence).
Qed.

Lemma stop_bits_accepts (stopbits : Z) (o : termios) :
  is_Some (stop_bits stopbits o) <-> stopbits ∈ [1; 2].
Proof.
  unfold stop_bits. rewrite !elem_of_cons, elem_of_nil.
  repeat case_bool_decide; split;
    try (intros _; eexists; reflexivity); try (intros _; tauto);
    try (intros [? [=]]); try (intros ?; exfalso; intuition congruence).
Qed.

(** X20. Which parameters [set_param] accepts, once [tcgetattr] has
    succeeded: the eight speeds of the table and, through the six pairs
    of the table that are left value-initialised, the speed 0, for which
    the system speed 0 is selected; flow control 0, 1 or 2; 5 to 8 data
    bits; a parity in [N O E S], in either case; 1 or 2 stop bits. *)
Theorem uart_configure_accepts (options : termios)
    (speed flow_ctrl databits stopbits parity : Z) :
  -1 <= parity <= 255 ->
  ((exists installed,
      configure options speed flow_ctrl databits stopbits parity
      = Returns (inr installed)) <->
   speed ∈ [230400; 115200; 19200; 9600; 4800; 2400; 1200; 300; 0] /\
   flow_ctrl ∈ [0; 1; 2] /\
   databits ∈ [5; 6; 7; 8] /\
   parity ∈ [78; 110; 79; 111; 69; 101; 83; 115] /\
   stopbits ∈ [1; 2]) /\
  find_baud 0 = Some 0.
Proof.
  intros Hparity. split; [|reflexivity].
  rewrite <- find_baud_accepts. unfold configure.
  destruct (find_baud speed) as [sys_baud|].
  2:{ split; [by intros [? ?]|]. by intros [[? [=]] _]. }
  destruct (tolower parity) as [lower| |] eqn:Hlower;
    [|unfold tolower in Hlower; by case_decide..].
  rewrite <- (tolower_accepts parity lower Hlower).
  match goal with
  | |- context [flow_control flow_ctrl ?o] =>
      pose proof (flow_control_accepts flow_ctrl o) as Hflow;
      destruct (flow_control flow_ctrl o) as [o1|]
  end.
  2:{ split; [by intros [? ?]|]. intros (_ & Hf & _).
      apply Hflow in Hf. by destruct Hf. }
  unfold valid_databits. case_bool_decide as Hdata.
  2:{ split; [by intros [? ?]|]. by intros (_ & _ & ? & _). }
  match goal with
  | |- context [parity_bits lower ?o] =>
      pose proof (parity_bits_accepts lower o) as Hpar;
      destruct (parity_bits lower o) as [o2|]
  end.
  2:{ split; [by intros [? ?]|]. intros (_ & _ & _ & Hp & _).
      apply Hpar in Hp. by destruct Hp. }
  match goal with
  | |- context [stop_bits stopbits ?o] =>
      pose proof (stop_bits_accepts stopbits o) as Hstop;
      destruct (stop_bits stopbits o) as [o3|]
  end.
  2:{ split; [by intros [? ?]|]. intros (_ & _ & _ & _ & Hs).
      apply Hstop in Hs. by destruct Hs. }
  split; [intros _|intros _; eexists; reflexivity].
  split; [by eexists|]. split; [by apply Hflow|]. split; [done|].
  split; [by apply Hpar|by apply Hstop].
Qed.

(** A bit of [mask] is off in [clear_bits flags mask]. *)
Definition within (bits mask : Z) : Prop :=
  forall n, 0 <= n -> Z.testbit bits n = true -> Z.testbit mask n = true.

Lemma within_refl bits : within bits bits.
Proof. by intros n Hn Hb. Qed.

Lemma within_lor_l bits a b : within bits a -> within bits (Z.lor a b).
Proof.
  intros Ha n Hn Hb. rewrite Z.lor_spec. by rewrite (Ha n Hn Hb).
Qed.

Lemma within_lor_r bits a b : within bits b -> within bits (Z.lor a b).
Proof.
  intros Ha n Hn Hb. rewrite Z.lor_spec, (Ha n Hn Hb). apply orb_true_r.
Qed.

Lemma clear_bits_within flags bits mask :
  within bits mask -> Z.land (clear_bits flags mask) bits = 0.
Proof.
  intros Hin. apply Z.bits_inj'. intros n Hn.
  unfold clear_bits. rewrite !Z.land_spec, Z.lnot_spec, Z.bits_0 by done.
  destruct (Z.testbit bits n) eqn:Hb; [|apply andb_false_r].
  rewrite (Hin n Hn Hb). simpl. by rewrite andb_false_r.
Qed.

Lemma configure_raw_mode (options installed : termios)
    (speed flow_ctrl databits stopbits parity : Z) :
  configure options speed flow_ctrl databits stopbits parity
  = Returns (inr installed) ->
  exists o, installed = raw_mode o.
Proof.
  unfold configure.
  destruct (find_baud speed); [|done].
  destruct (flow_control _ _); [|done].
  case_bool_decide; [|done].
  destruct (tolower parity); [|done..].
  destruct (parity_bits _ _); [|done].
  destruct (stop_bits _ _); [|done].
  intros [= <-]. by eexists.
Qed.

(** X21. Whatever parameters [set_param] accepts, the settings it
    installs have input parity checking and XON/XOFF output control off,
    also when odd or even parity or software flow control was asked for;
    break interrupts, CR-to-NL mapping, stripping, output processing,
    canonical mode, echo and signals are off as well. *)
Theorem uart_configure_raw (options installed : termios)
    (speed flow_ctrl databits stopbits parity : Z) :
  configure options speed flow_ctrl databits stopbits parity
  = Returns (inr installed) ->
  Forall (fun bits => Z.land (c_iflag installed) bits = 0)
    [BRKINT; ICRNL; INPCK; ISTRIP; IXON] /\
  Z.land (c_oflag installed) OPOST = 0 /\
  Forall (fun bits => Z.land (c_lflag installed) bits = 0)
    [ICANON; ECHO; ECHOE; ISIG].
Proof.
  intros Hconf. destruct (configure_raw_mode _ _ _ _ _ _ _ Hconf) as [o ->].
  unfold raw_mode. simpl.
  split; [|split].
  - repeat apply Forall_cons_2; try apply Forall_nil_2;
      apply clear_bits_within;
      eauto 10 using within_refl, within_lor_l, within_lor_r.
  - apply clear_bits_within, within_refl.
  - repeat apply Forall_cons_2; try apply Forall_nil_2;
      apply clear_bits_within;
      eauto 10 using within_refl, within_lor_l, within_lor_r.
Qed.

End UartProperties.

Section UartStates.
Context {platform : Platform} {W : Type} {posix : Posix W}.
Import UartProtocol.

Lemma set_param_keeps (speed flow_ctrl databits stopbits parity : Z)
    (u : t) (w : W) :
  let r := set_param speed flow_ctrl databits stopbits parity u w in
  _fd r.1.2 = _fd u /\ _is_open r.1.2 = _is_open u /\
  (r.1.1 = Returns true -> r.1.2 = u).
Proof.
  unfold set_param.
  destruct (tcgetattr w (_fd u)) as [[ret options] w1].
  case_bool_decide; [done|].
  destruct (configure _ _ _ _ _ _) as [[msg|installed]| |]; [done| |done..].
  destruct (tcflush w1 (_fd u) TCIFLUSH) as [ret1 w2].
  case_bool_decide; [done|].
  destruct (tcsetattr w2 (_fd u) TCSANOW installed) as [ret2 w3].
  by case_bool_decide.
Qed.

(** X22. A successful [open] leaves the port open. From then on [open]
    returns true without a system call; [close] hands the descriptor to
    [::close] once, and leaves the port closed with descriptor -1; a
    second [close] makes no system call; and [read], which does not look
    at the state, then calls [::read] on descriptor -1. *)
Theorem uart_open_close_cycle (u u1 : t) (w w1 : W) :
  open u w = (Returns true, u1, w1) ->
  is_open u1 = true /\
  (forall w', open u1 w' = (Returns true, u1, w')) /\
  forall w', exists u2,
    close u1 w' = (u2, (sys_close w' (_fd u1)).2) /\
    is_open u2 = false /\
    _fd u2 = -1 /\
    (forall w'', close u2 w'' = (u2, w'')) /\
    (forall w'' len,
       (read u2 w'' len).1.1.1 = int_wrap (sys_read w'' (-1) len).1.1 /\
       (read u2 w'' len).2 = (sys_read w'' (-1) len).2).
Proof.
  intros Hopen.
  assert (_is_open u1 = true) as Hu1.
  { unfold open in Hopen. destruct (_is_open u) eqn:Hu.
    - by injection Hopen as <- <-.
    - destruct (sys_open _ _ _) as [fd w2].
      case_bool_decide; [done|].
      destruct (sys_fcntl _ _ _ _) as [ret w3].
      destruct (ret <? 0); [done|].
      destruct (set_param _ _ _ _ _ _ _) as [[[[|]| |] u3] w4]; try done.
      by injection Hopen as <- <-. }
  split; [done|]. split.
  { intros w'. unfold open. by rewrite Hu1. }
  intros w'. unfold close. rewrite Hu1. simpl.
  destruct (sys_close w' (_fd u1)) as [ret w2]. simpl.
  eexists. split; [reflexivity|]. split; [by case_bool_decide|].
  split; [by case_bool_decide|]. split.
  { intros w''. by case_bool_decide. }
  intros w'' len. unfold read.
  replace (_fd (set_is_open false (set_fd (-1) _))) with (-1)
    by by case_bool_decide.
  destruct (sys_read w'' (-1) len) as [[n stored] w3]. done.
Qed.

(** X23. When [::open] has given a descriptor and [open] then fails, in
    [fcntl] or in [set_param], the descriptor is kept in [_fd] but the
    port counts as closed: [close] makes no system call, so nothing
    hands the descriptor back to the system, and the next [open] asks
    [::open] for a new one. *)
Theorem uart_failed_open_keeps_descriptor (u u' : t) (w w1 w' : W) (fd : Z) :
  _is_open u = false ->
  sys_open w (_device_path u) (Z.lor (Z.lor O_RDWR O_NOCTTY) O_NDELAY) = (fd, w1) ->
  fd <> -1 ->
  open u w = (Returns false, u', w') ->
  _fd u' = fd /\
  is_open u' = false /\
  (forall w2, close u' w2 = (u', w2)) /\
  (forall w2, exists fd2 w3,
     sys_open w2 (_device_path u) (Z.lor (Z.lor O_RDWR O_NOCTTY) O_NDELAY)
     = (fd2, w3) /\
     _fd (open u' w2).1.2 = fd2).
Proof.
  intros Hu Hsys Hfd Hopen.
  assert (_fd u' = fd /\ _is_open u' = false /\ _device_path u' = _device_path u
          /\ _speed u' = _speed u /\ _flow_ctrl u' = _flow_ctrl u
          /\ _databits u' = _databits u /\ _stopbits u' = _stopbits u
          /\ _parity u' = _parity u)
    as (Hfd' & Hclosed & Hpath & _).
  { unfold open in Hopen. rewrite Hu, Hsys in Hopen. simpl in Hopen.
    rewrite bool_decide_false in Hopen by congruence.
    destruct (sys_fcntl w1 fd F_SETFL 0) as [ret w2].
    destruct (ret <? 0); [by injection Hopen as <- <-|].
    match type of Hopen with
    | context [set_param ?a ?b ?c ?d ?e ?v ?x] =>
        pose proof (set_param_keeps a b c d e v x) as (Hk1 & Hk2 & _);
        destruct (set_param a b c d e v x) as [[[[|]| |] u3] w4] eqn:Hset
    end; try done.
    injection Hopen as <- <-. simpl in Hk1, Hk2.
    unfold set_param in Hset.
    destruct (tcgetattr w2 _) as [[ret0 options] w5].
    revert Hset. case_bool_decide; [by intros [= <- <-]|].
    destruct (configure _ _ _ _ _ _) as [[msg|installed]| |];
      [by intros [= <- <-]| |done..].
    destruct (tcflush _ _ _) as [ret1 w6].
    case_bool_decide; [by intros [= <- <-]|].
    destruct (tcsetattr _ _ _ _) as [ret2 w7].
    case_bool_decide; [by intros [= <- <-]|done]. }
  split; [done|]. split; [done|]. split.
  { intros w2. unfold close. by rewrite Hclosed. }
  intros w2.
  destruct (sys_open w2 (_device_path u) (Z.lor (Z.lor O_RDWR O_NOCTTY) O_NDELAY))
    as [fd2 w3] eqn:Hsys2.
  exists fd2, w3. split; [done|].
  unfold open. rewrite Hclosed, Hpath, Hsys2. simpl.
  case_bool_decide; [done|].
  destruct (sys_fcntl w3 fd2 F_SETFL 0) as [ret w4].
  destruct (ret <? 0); [done|].
  match goal with
  | |- context [set_param ?a ?b ?c ?d ?e ?v ?x] =>
      pose proof (set_param_keeps a b c d e v x) as (Hk1 & _ & _);
      destruct (set_param a b c d e v x) as [[[[|]| |] u3] w5]
  end; done.
Qed.

End UartStates.

(** ** [UsbBulkProtocol] *)

Section UsbProperties.
Context {L : Type} {libusb : Libusb L}.
Import UsbBulkProtocol.

Lemma serial_string_not_empty (stored actual : list byte) (serial_result : Z) :
  0 < serial_result ->
  serial_string stored serial_result = Returns actual ->
  actual <> [].
Proof.
  unfold serial_string. intros Hpos.
  case_decide as Hstored; [|done]. case_decide; [|done].
  intros [= <-] Hnil. apply (f_equal length) in Hnil.
  rewrite length_take, length_app, length_replicate in Hnil. simpl in Hnil. lia.
Qed.

(** What the loop of [find_and_open_device] leaves: the port is as open
    as it was; a device found has a serial that is not empty, and the
    serial asked for if one was asked for; otherwise the serial asked for
    is unchanged. *)
Lemma find_devices_serial dev_list (remaining : nat) :
  forall (i : Z) (u : t) (l : L) (found : bool) (u' : t) (l' : L),
  find_devices dev_list remaining i u l = (Returns found, u', l') ->
  _is_open u' = _is_open u /\
  _descriptor u' = _descriptor u /\
  if found
  then _serial_number u' <> [] /\
       (_serial_number u <> [] -> _serial_number u' = _serial_number u)
  else _serial_number u' = _serial_number u.
Proof.
  induction remaining as [|n IH]; intros i u l found u' l' Hfind;
    cbn [find_devices] in Hfind.
  - by injection Hfind as <- <- <-.
  - destruct (dev_list !! Z.to_nat i) as [device|]; [|done].
    cbv zeta in Hfind.
    destruct (libusb_get_device_descriptor l device) as [[result desc] l1].
    case_bool_decide; [by eapply IH|].
    destruct (bool_decide (idVendor desc = _) && _); [|by eapply IH].
    destruct (libusb_open l1 device None) as [[result2 temp_handle] l2].
    destruct (bool_decide (result2 = _) && _); [|by eapply IH].
    destruct (libusb_get_string_descriptor_ascii l2 temp_handle _ 256)
      as [[serial_result stored] l3].
    destruct (if 0 <? serial_result then _ else _)
      as [actual_serial| |] eqn:Hserial; [|done..].
    assert (actual_serial <> []) as Hactual.
    { destruct (0 <? serial_result) eqn:Hpos.
      - apply Z.ltb_lt in Hpos. by eapply serial_string_not_empty.
      - case_decide; [|done]. by injection Hserial as <-. }
    destruct (negb _ && _) eqn:Hfilter; [by eapply IH|].
    destruct (libusb_open _ device (_handle u)) as [[result3 handle] l4].
    case_bool_decide.
    + injection Hfind as <- <- <-. simpl. split; [done|]. split; [done|].
      split; [done|]. intros Hasked.
      apply andb_false_iff in Hfilter as [Hempty|Hsame].
      * apply negb_false_iff, bool_decide_eq_true in Hempty. done.
      * apply bool_decide_eq_false in Hsame.
        by destruct (decide (actual_serial = _serial_number u)).
    + apply IH in Hfind. exact Hfind.
Qed.

Lemma configure_device_keeps (u : t) (l : L) :
  _is_open (configure_device u l).1.2 = _is_open u /\
  _serial_number (configure_device u l).1.2 = _serial_number u /\
  _handle (configure_device u l).1.2 = _handle u.
Proof.
  unfold configure_device. destruct (negb _); [done|]. cbv zeta.
  destruct (libusb_kernel_driver_active _ _ _) as [active l1].
  case_bool_decide.
  - destruct (libusb_detach_kernel_driver _ _ _) as [result l2].
    case_bool_decide; [done|].
    destruct (libusb_claim_interface _ _ _) as [result2 l3].
    by case_bool_decide.
  - destruct (libusb_claim_interface _ _ _) as [result2 l3].
    by case_bool_decide.
Qed.

Lemma release_device_keeps (u : t) (l : L) :
  _is_open (release_device u l).1 = _is_open u /\
  _serial_number (release_device u l).1 = _serial_number u /\
  _handle (release_device u l).1 = None.
Proof.
  unfold release_device. case_bool_decide as Hh; [done|].
  split; [done|]. split; [done|].
  simpl. destruct (_handle u); [|done]. exfalso. apply Hh. by eexists.
Qed.

(** What a successful [open] of a closed port leaves. *)
Lemma open_succeeded (u u' : t) (l l' : L) :
  _is_open u = false ->
  open u l = (Returns true, u', l') ->
  _is_open u' = true /\
  is_Some (_handle u') /\
  _serial_number u' <> [] /\
  (_serial_number u <> [] -> _serial_number u' = _serial_number u).
Proof.
  intros Hclosed. unfold open. rewrite Hclosed.
  unfold init_libusb. cbn [_libusb_initialized set_error_message].
  set (u0 := set_error_message NoMessage u).
  assert (find_and_open_device_serial : forall v l1 v' l1',
    _serial_number v = _serial_number u ->
    find_and_open_device v l1 = (Returns true, v', l1') ->
    is_Some (_handle v') /\ _serial_number v' <> [] /\
    (_serial_number u <> [] -> _serial_number v' = _serial_number u)).
  { intros v l1 v' l1' Hv. unfold find_and_open_device.
    destruct (libusb_get_device_list l1 (_ctx v)) as [[count devs] l2].
    destruct (count <? 0); [done|].
    destruct (find_devices devs (Z.to_nat count) 0 v l2)
      as [[[found| |] v1] l3] eqn:Hfind; [|done..].
    destruct found; simpl; [|done].
    case_bool_decide as Hh; simpl; [|done].
    intros [= <- <-].
    apply find_devices_serial in Hfind as (_ & _ & Hne & Hsame).
    rewrite Hv in Hsame. done. }
  assert (forall v l1,
    _serial_number v = _serial_number u ->
    match find_and_open_device v l1 with
    | (Returns true, v1, l2) =>
        let '(ok, v2, l3) := configure_device v1 l2 in
        if negb ok
        then let '(v3, l4) := release_device v2 l3 in (Returns false, v3, l4)
        else (Returns true, set_is_open true v2, l3)
    | r => r
    end = (Returns true, u', l') ->
    _is_open u' = true /\ is_Some (_handle u') /\ _serial_number u' <> [] /\
    (_serial_number u <> [] -> _serial_number u' = _serial_number u)) as Hrest.
  { intros v l1 Hv.
    destruct (find_and_open_device v l1) as [[[[|]| |] v1] l2] eqn:Hfind;
      [|done..].
    destruct (find_and_open_device_serial v l1 v1 l2 Hv Hfind)
      as (Hh & Hne & Hsame).
    pose proof (configure_device_keeps v1 l2) as (_ & Hs & Hh').
    destruct (configure_device v1 l2) as [[ok v2] l3]. simpl in Hs, Hh'.
    destruct ok; simpl.
    - intros [= <- <-]. simpl. rewrite Hs, Hh'. done.
    - by destruct (release_device v2 l3). }
  destruct (_libusb_initialized u).
  - simpl. by apply Hrest.
  - destruct (libusb_init l (_ctx u0)) as [[result ctx] l1].
    case_bool_decide; simpl; [done|]. by apply Hrest.
Qed.

(** X24. Once [open] has succeeded on a closed port, the serial of the
    device it opened is kept in place of the one asked for, and it is
    not empty, a device without a serial string counting as
    [Device_] and its position in the list. A later [close] and [open],
    as in the manager's reconnect, therefore succeeds only on a device
    with that same serial. *)
Theorem usb_open_pins_serial (u u1 u3 : t) (l l1 l2 l3 : L) :
  _is_open u = false ->
  open u l = (Returns true, u1, l1) ->
  open (close u1 l2).1 (close u1 l2).2 = (Returns true, u3, l3) ->
  _serial_number u1 <> [] /\
  (_serial_number u <> [] -> _serial_number u1 = _serial_number u) /\
  _serial_number u3 = _serial_number u1.
Proof.
  intros Hclosed Hopen Hreopen.
  destruct (open_succeeded u u1 l l1 Hclosed Hopen) as (Ho1 & _ & Hne & Hsame).
  split; [done|]. split; [done|].
  pose proof (release_device_keeps u1 l2) as (_ & Hs & _).
  assert (_is_open (close u1 l2).1 = false /\
          _serial_number (close u1 l2).1 = _serial_number u1) as [Hc Hcs].
  { unfold close. rewrite Ho1.
    by destruct (release_device u1 l2) as [v l4]. }
  destruct (open_succeeded _ _ _ _ Hc Hreopen) as (_ & _ & _ & Hsame3).
  rewrite Hcs in Hsame3. by apply Hsame3.
Qed.

(** X25. From a closed port, [is_open] afterwards tells whether [open]
    succeeded, and a port that is open holds a device handle. An open
    port answers [open] with true without a call to libusb. [close]
    releases the interface, re-attaches the kernel driver and closes the
    handle, in this order; after it the port is closed and holds no
    handle, a further [close] calls nothing, and [read] and [write]
    return -1 without a transfer. *)
Theorem usb_open_close_cycle (u u1 : t) (l l1 : L) (b : bool) :
  _is_open u = false ->
  open u l = (Returns b, u1, l1) ->
  is_open u1 = b /\
  (b = true ->
   is_Some (_handle u1) /\
   (forall l', open u1 l' = (Returns true, u1, l')) /\
   forall l', exists u2,
     close u1 l'
     = (u2,
        libusb_close
          (libusb_attach_kernel_driver
             (libusb_release_interface l' (_handle u1)
                (interface_number (_descriptor u1))).2
             (_handle u1) (interface_number (_descriptor u1))).2
          (_handle u1)) /\
     is_open u2 = false /\
     _handle u2 = None /\
     (forall l'', close u2 l'' = (u2, l'')) /\
     (forall l'' buffer len,
        (read u2 l'' buffer len).1.1.1 = -1 /\ (read u2 l'' buffer len).2 = l'') /\
     (forall l'' buffer len,
        (write u2 l'' buffer len).1.1 = -1 /\ (write u2 l'' buffer len).2 = l'')).
Proof.
  intros Hclosed Hopen.
  destruct b.
  - destruct (open_succeeded u u1 l l1 Hclosed Hopen) as (Ho1 & Hh & _).
    split; [done|]. intros _. split; [done|]. split.
    { intros l'. unfold open. by rewrite Ho1. }
    intros l'. unfold close, release_device. rewrite Ho1.
    rewrite bool_decide_true by done. cbv zeta.
    eexists. split; [reflexivity|]. split; [done|]. split; [done|]. split.
    { done. }
    split; intros l'' buffer len; by unfold read, write.
  - split; [|done]. revert Hopen. unfold open. rewrite Hclosed.
    unfold init_libusb. cbn [_libusb_initialized set_error_message].
    assert (forall v l2,
      _is_open v = false ->
      match find_and_open_device v l2 with
      | (Returns true, v1, l3) =>
          let '(ok, v2, l4) := configure_device v1 l3 in
          if negb ok
          then let '(v3, l5) := release_device v2 l4 in (Returns false, v3, l5)
          else (Returns true, set_is_open true v2, l4)
      | r => r
      end = (Returns false, u1, l1) -> is_open u1 = false) as Hrest.
    { intros v l2 Hv. unfold find_and_open_device.
      destruct (libusb_get_device_list l2 (_ctx v)) as [[count devs] l3].
      destruct (count <? 0); [by intros [= <- <-]|].
      destruct (find_devices devs (Z.to_nat count) 0 v l3)
        as [[[found| |] v1] l4] eqn:Hfind; [|done..].
      apply find_devices_serial in Hfind as (Hv1 & _).
      destruct (negb found || _).
      { intros [= <- <-]. simpl. by rewrite Hv1. }
      pose proof (configure_device_keeps v1 (libusb_free_device_list l4 devs 1))
        as (Hc & _).
      destruct (configure_device v1 _) as [[ok v2] l5]. simpl in Hc.
      destruct ok; simpl; [done|].
      pose proof (release_device_keeps v2 l5) as (Hr & _).
      destruct (release_device v2 l5) as [v3 l6]. simpl in Hr.
      intros [= <- <-]. unfold is_open. by rewrite Hr, Hc, Hv1. }
    destruct (_libusb_initialized u).
    + simpl. by apply Hrest.
    + destruct (libusb_init l _) as [[result ctx] l2].
      case_bool_decide; simpl.
      * by intros [= <- <-].
      * by apply Hrest.
Qed.

End UsbProperties.

(** ** The further properties at [Capacity = 16] *)

Lemma clear_zeroes_payload_witness :
  length (_buffer (clear 16 packet16)) = length (_buffer packet16) /\
  _buffer (clear 16 packet16) !! 0%nat = _buffer packet16 !! 0%nat /\
  _buffer (clear 16 packet16) !! Z.to_nat (16 - 1)
  = _buffer packet16 !! Z.to_nat (16 - 1) /\
  (forall i : nat, 1 <= Z.of_nat i <= 16 - 2 ->
     _buffer (clear 16 packet16) !! i = Some Byte.x00) /\
  is_valid 16 (clear 16 packet16) = is_valid 16 packet16.
Proof.
  apply (clear_zeroes_payload 16 Capacity16_min packet16). reflexivity.
Defined.

Lemma clear_valid_is_new_witness : clear 16 packet16 = FixedPacket_new 16.
Proof.
  apply (clear_valid_is_new 16 Capacity16_min packet16); reflexivity.
Defined.

Lemma set_check_byte_only_witness :
  _buffer (set_check_byte 16 packet16 Byte.x77) !! Z.to_nat (16 - 2)
  = Some Byte.x77 /\
  (forall i : nat, i <> Z.to_nat (16 - 2) ->
     _buffer (set_check_byte 16 packet16 Byte.x77) !! i = _buffer packet16 !! i) /\
  length (_buffer (set_check_byte 16 packet16 Byte.x77))
  = length (_buffer packet16) /\
  is_valid 16 (set_check_byte 16 packet16 Byte.x77) = is_valid 16 packet16.
Proof.
  apply (set_check_byte_only 16 Capacity16_min packet16 Byte.x77). reflexivity.
Defined.

Lemma check_byte_survives_loads_witness :
  exists p' : FixedPacket,
    run_loads 16 two_loads (set_check_byte 16 packet16 Byte.x77) = Some p' /\
    _buffer p' !! Z.to_nat (16 - 2) = Some Byte.x77 /\
    is_valid 16 p' = is_valid 16 packet16.
Proof.
  eexists. split; [reflexivity|].
  apply (check_byte_survives_loads 16 Capacity16_min Capacity16_max two_loads
           packet16 _ Byte.x77).
  - reflexivity.
  - repeat (apply Forall_cons_2 || apply Forall_nil_2);
      (split; [simpl; lia|split; [simpl; lia|vm_compute; discriminate]]).
  - reflexivity.
Defined.

Lemma copy_from_check_packet_witness :
  exists p' : FixedPacket,
    copy_from 16 (FixedPacket_new 16) (Some (frame16 ++ [Byte.xaa])) = Returns p' /\
    _buffer p' = take (Z.to_nat 16) (frame16 ++ [Byte.xaa]) /\
    check_packet 16 (frame16 ++ [Byte.xaa]) (static_cast_int 16)
    = Returns (is_valid 16 p').
Proof.
  apply (copy_from_check_packet 16 Capacity16_min (FixedPacket_new 16)
           (frame16 ++ [Byte.xaa]) Capacity16_max).
  simpl. lia.
Defined.

Lemma copy_from_buffer_witness :
  copy_from 16 (FixedPacket_new 16) (Some (buffer packet16 ++ [Byte.xaa]))
  = Returns packet16 /\
  copy_from 16 (FixedPacket_new 16) None = Throws.
Proof.
  apply (copy_from_buffer 16 Capacity16_min (FixedPacket_new 16) packet16
           [Byte.xaa]).
  reflexivity.
Defined.

(** A [uint32_t] at offset 3 and a [uint16_t] at offset 9. *)
Lemma load_data_disjoint_witness :
  exists p1 p2 : FixedPacket,
    load_data 16 (H := uint32_t) 4 (FixedPacket_new 16) 3735928559 3
    = (Some true, InBounds p1) /\
    load_data 16 (H := uint16_t) 2 p1 48879 9 = (Some true, InBounds p2) /\
    unload_data 16 (H := uint32_t) 4 p2 0 3 = (Some true, InBounds 3735928559) /\
    unload_data 16 (H := uint16_t) 2 p2 0 9 = (Some true, InBounds 48879).
Proof.
  apply (load_data_disjoint 16 Capacity16_min Capacity16_max
           (C1 := uint32_t) (C2 := uint16_t)
           (FixedPacket_new 16) 3735928559 0 48879 0 3 9).
  - reflexivity.
  - reflexivity.
  - reflexivity.
  - split; reflexivity.
  - split; reflexivity.
  - split; reflexivity.
  - split; reflexivity.
  - lia.
  - simpl. lia.
  - lia.
  - simpl. lia.
  - simpl. lia.
Defined.

(** Three packets queued, a bound of two. *)
Lemma set_send_mode_limited_fifo_newest_witness :
  exists m' : TransceiverManager scripted,
    set_send_mode LIMITED_FIFO 2
      (queued16 [FixedPacket_new 16; packet16; {| _buffer := decoy_frame16 |}]
         FIFO 100)
    = (Returns tt, m') /\
    _send_mode m' = LIMITED_FIFO /\
    _max_queue_size m' = 2 /\
    _realtime_packets m' = [packet16; {| _buffer := decoy_frame16 |}] /\
    _transporter m' = script16 [] [].
Proof.
  apply (set_send_mode_limited_fifo_newest 2
           (queued16 [FixedPacket_new 16; packet16; {| _buffer := decoy_frame16 |}]
              FIFO 100)).
  lia.
Defined.

Lemma send_packet_queues_only_witness :
  _transporter (send_packet 16 packet16 (queued16 [FixedPacket_new 16] FIFO 100)).2
  = _transporter (queued16 [FixedPacket_new 16] FIFO 100) /\
  ((send_packet 16 packet16 (queued16 [FixedPacket_new 16] FIFO 100)).1
   = Returns true /\
   last (_realtime_packets
           (send_packet 16 packet16 (queued16 [FixedPacket_new 16] FIFO 100)).2)
   = Some packet16 \/
   (send_packet 16 packet16 (queued16 [FixedPacket_new 16] FIFO 100)).1
   = Undefined /\
   _send_mode (queued16 [FixedPacket_new 16] FIFO 100) = LIMITED_FIFO /\
   _realtime_packets (queued16 [FixedPacket_new 16] FIFO 100) = [] /\
   _max_queue_size (queued16 [FixedPacket_new 16] FIFO 100) <= 0).
Proof.
  apply (send_packet_queues_only 16 packet16 (queued16 [FixedPacket_new 16] FIFO 100)).
  reflexivity.
Defined.

(** Two packets sent, one written, a third sent, one more written. *)
Lemma fifo_preserves_order_witness :
  exists (local' : FixedPacket) (m' : TransceiverManager (recorded scripted)),
    send_events 16
      [ClientSends packet16; ClientSends (FixedPacket_new 16); ThreadIterates;
       ClientSends {| _buffer := decoy_frame16 |}; ThreadIterates]
      (FixedPacket_new 16) fifo_recorder
    = (Returns local', m') /\
    written (calls (_transporter m')) ++ map buffer (_realtime_packets m')
    = written (calls (_transporter fifo_recorder))
      ++ map buffer (_realtime_packets fifo_recorder)
      ++ map buffer
           (sent_by_clients
              [ClientSends packet16; ClientSends (FixedPacket_new 16);
               ThreadIterates; ClientSends {| _buffer := decoy_frame16 |};
               ThreadIterates]).
Proof.
  apply (fifo_preserves_order 16
           [ClientSends packet16; ClientSends (FixedPacket_new 16); ThreadIterates;
            ClientSends {| _buffer := decoy_frame16 |}; ThreadIterates]
           (FixedPacket_new 16) fifo_recorder).
  - reflexivity.
  - reflexivity.
Defined.

Lemma recv_packet_reconnects_witness :
  exists m' : TransceiverManager (recorded scripted),
    recv_packet 16 (FixedPacket_new 16) silent_reader
    = (Returns (false, FixedPacket_new 16), m') /\
    calls (_transporter m')
    = calls (_transporter silent_reader) ++ [CallRead 16; CallClose; CallOpen] /\
    _recv_buffer m' = _recv_buffer silent_reader /\
    _recv_buf_len m' = _recv_buf_len silent_reader.
Proof.
  apply (recv_packet_reconnects 16 (FixedPacket_new 16) silent_reader (-1) []
           (script16 [] [])).
  - reflexivity.
  - lia.
  - simpl. lia.
Defined.

Lemma recv_packet_read_raises_witness :
  exists m' : TransceiverManager (recorded unplugged),
    recv_packet 16 (FixedPacket_new 16) unplugged_reader
    = (Returns (false, FixedPacket_new 16), m') /\
    calls (_transporter m') = calls (_transporter unplugged_reader) ++ [CallRead 16] /\
    _tmp_buffer m' = _tmp_buffer unplugged_reader /\
    _recv_buffer m' = _recv_buffer unplugged_reader /\
    _recv_buf_len m' = _recv_buf_len unplugged_reader.
Proof.
  apply (recv_packet_read_raises 16 (FixedPacket_new 16) unplugged_reader Unplugged).
  reflexivity.
Defined.

(** An iteration that reads a whole frame. *)
Lemma realtime_read_iteration_latest_witness :
  exists m2 : TransceiverManager scripted,
    realtime_read_iteration 16 (FixedPacket_new 16) (manager16 [(16, frame16)] [])
    = (Returns packet16, m2) /\
    (get_latest_packet m2).1 = Returns (Some packet16) /\
    (get_latest_packet m2).2 = m2.
Proof.
  apply (realtime_read_iteration_latest 16 (FixedPacket_new 16)
           (manager16 [(16, frame16)] []) (true, packet16)
           (recv_packet 16 (FixedPacket_new 16) (manager16 [(16, frame16)] [])).2).
  reflexivity.
Defined.

(** Three calls on a stream of twenty stray bytes. *)
Lemma recv_packet_run_safe_witness :
  exists m' : TransceiverManager byte_stream,
    recv_run 16 3 (FixedPacket_new 16)
      (TransceiverManager_new 16 {| pending := replicate 20 Byte.xaa |} FIFO 100)
    = Some m' /\
    manager_wf 16 m' /\
    forall frame t,
      well_formed_frame 16 frame ->
      read (_transporter m') 16 = (Reply (16, frame), t) ->
      exists m'',
        recv_packet 16 (FixedPacket_new 16) m'
        = (Returns (true, {| _buffer := frame |}), m'').
Proof.
  apply (recv_packet_run_safe 16 Capacity16_min Capacity16_int
           {| pending := replicate 20 Byte.xaa |} FIFO 100
           (FixedPacket_new 16) (FixedPacket_new 16) 3).
  intros [bytes]. simpl. unfold read_answer. rewrite length_take. lia.
Defined.

(** ** [UartProtocol] on the example platform *)

(** The default parameters of the constructor. *)
Lemma uart_configure_accepts_witness :
  ((exists installed,
      UartProtocol.configure zero_termios 115200 0 8 1 78
      = Returns (inr installed)) <->
   115200 ∈ [230400; 115200; 19200; 9600; 4800; 2400; 1200; 300; 0] /\
   0 ∈ [0; 1; 2] /\
   8 ∈ [5; 6; 7; 8] /\
   78 ∈ [78; 110; 79; 111; 69; 101; 83; 115] /\
   1 ∈ [1; 2]) /\
  UartProtocol.find_baud 0 = Some 0.
Proof.
  apply (uart_configure_accepts (platform := linux) zero_termios 115200 0 8 1 78).
  lia.
Defined.

(** Odd parity with software flow control. *)
Lemma uart_configure_raw_witness :
  Forall (fun bits => Z.land (c_iflag odd_parity_settings) bits = 0)
    [BRKINT; ICRNL; INPCK; ISTRIP; IXON] /\
  Z.land (c_oflag odd_parity_settings) OPOST = 0 /\
  Forall (fun bits => Z.land (c_lflag odd_parity_settings) bits = 0)
    [ICANON; ECHO; ECHOE; ISIG].
Proof.
  apply (uart_configure_raw (platform := linux) zero_termios odd_parity_settings
           115200 2 8 1 79).
  vm_compute. reflexivity.
Defined.

(** Descriptor 3, every call succeeding. *)
Lemma uart_open_close_cycle_witness :
  UartProtocol.is_open ttyUSB0_opened.1 = true /\
  (forall w',
     UartProtocol.open ttyUSB0_opened.1 w' = (Returns true, ttyUSB0_opened.1, w')) /\
  forall w', exists u2,
    UartProtocol.close ttyUSB0_opened.1 w'
    = (u2, (sys_close w' (UartProtocol._fd ttyUSB0_opened.1)).2) /\
    UartProtocol.is_open u2 = false /\
    UartProtocol._fd u2 = -1 /\
    (forall w'', UartProtocol.close u2 w'' = (u2, w'')) /\
    (forall w'' len,
       (UartProtocol.read u2 w'' len).1.1.1
       = int_wrap (sys_read w'' (-1) len).1.1 /\
       (UartProtocol.read u2 w'' len).2 = (sys_read w'' (-1) len).2).
Proof.
  apply (uart_open_close_cycle (platform := linux) (W := list Z) ttyUSB0
           ttyUSB0_opened.1 [3; 0; 0; 0; 0] ttyUSB0_opened.2).
  vm_compute. reflexivity.
Defined.

(** Descriptor 3, then [tcgetattr] fails. *)
Lemma uart_failed_open_keeps_descriptor_witness :
  UartProtocol._fd ttyUSB0_failed.1 = 3 /\
  UartProtocol.is_open ttyUSB0_failed.1 = false /\
  (forall w2, UartProtocol.close ttyUSB0_failed.1 w2 = (ttyUSB0_failed.1, w2)) /\
  (forall w2, exists fd2 w3,
     sys_open w2 (UartProtocol._device_path ttyUSB0)
       (Z.lor (Z.lor O_RDWR O_NOCTTY) O_NDELAY)
     = (fd2, w3) /\
     UartProtocol._fd (UartProtocol.open ttyUSB0_failed.1 w2).1.2 = fd2).
Proof.
  apply (uart_failed_open_keeps_descriptor (platform := linux) (W := list Z)
           ttyUSB0 ttyUSB0_failed.1 [3; 0; -1] [0; -1] ttyUSB0_failed.2 3).
  - reflexivity.
  - reflexivity.
  - lia.
  - vm_compute. reflexivity.
Defined.

Lemma no_head_byte (l : list byte) :
  bool_decide (HEAD_BYTE ∈ l) = false -> HEAD_BYTE ∉ l.
Proof. apply bool_decide_eq_false_1. Qed.

(** Five stray bytes and two frames, read sixteen bytes at a time. *)
Lemma recv_frames_resynchronises_witness :
  exists m' : TransceiverManager byte_stream,
    recv_frames 16 (S (length [frame16; decoy_frame16])) (FixedPacket_new 16) stream16
    = (Returns (map (fun f => {| _buffer := f |}) [frame16; decoy_frame16]), m').
Proof.
  apply (recv_frames_resynchronises 16 Capacity16_min Capacity16_int
           (replicate 5 Byte.xaa) [frame16; decoy_frame16]
           (FixedPacket_new 16) stream16).
  - split; [reflexivity|]. split; [reflexivity|]. vm_compute. split; discriminate.
  - reflexivity.
  - reflexivity.
  - simpl. lia.
  - apply no_head_byte. reflexivity.
  - repeat (apply Forall_cons_2 || apply Forall_nil_2);
      (split; [split; [reflexivity|split; reflexivity]
              |apply no_head_byte; reflexivity]).
Defined.

(** A bound of two: three packets sent, one written, one more sent. *)
Lemma limited_fifo_keeps_newest_witness :
  exists (local' : FixedPacket) (m' : TransceiverManager scripted) (k : nat),
    send_events 16
      [ClientSends packet16; ClientSends (FixedPacket_new 16);
       ClientSends {| _buffer := decoy_frame16 |}; ThreadIterates;
       ClientSends packet16]
      (FixedPacket_new 16) (queued16 [] LIMITED_FIFO 2)
    = (Returns local', m') /\
    Z.of_nat (length (_realtime_packets m'))
    <= _max_queue_size (queued16 [] LIMITED_FIFO 2) /\
    _realtime_packets m'
    = drop k
        (_realtime_packets (queued16 [] LIMITED_FIFO 2)
         ++ sent_by_clients
              [ClientSends packet16; ClientSends (FixedPacket_new 16);
               ClientSends {| _buffer := decoy_frame16 |}; ThreadIterates;
               ClientSends packet16]).
Proof.
  apply (limited_fifo_keeps_newest 16
           [ClientSends packet16; ClientSends (FixedPacket_new 16);
            ClientSends {| _buffer := decoy_frame16 |}; ThreadIterates;
            ClientSends packet16]
           (FixedPacket_new 16) (queued16 [] LIMITED_FIFO 2)).
  - reflexivity.
  - reflexivity.
  - simpl. lia.
  - simpl. lia.
Defined.

(** Two packets sent, one written, two more sent. *)
Lemma latest_only_keeps_newest_witness :
  exists (local' : FixedPacket) (m' : TransceiverManager scripted) (k : nat),
    send_events 16
      [ClientSends packet16; ClientSends (FixedPacket_new 16); ThreadIterates;
       ClientSends {| _buffer := decoy_frame16 |}; ClientSends packet16]
      (FixedPacket_new 16) (queued16 [] LATEST_ONLY 100)
    = (Returns local', m') /\
    Z.of_nat (length (_realtime_packets m')) <= 1 /\
    _realtime_packets m'
    = drop k
        (_realtime_packets (queued16 [] LATEST_ONLY 100)
         ++ sent_by_clients
              [ClientSends packet16; ClientSends (FixedPacket_new 16);
               ThreadIterates; ClientSends {| _buffer := decoy_frame16 |};
               ClientSends packet16]).
Proof.
  apply (latest_only_keeps_newest 16
           [ClientSends packet16; ClientSends (FixedPacket_new 16); ThreadIterates;
            ClientSends {| _buffer := decoy_frame16 |}; ClientSends packet16]
           (FixedPacket_new 16) (queued16 [] LATEST_ONLY 100)).
  - reflexivity.
  - reflexivity.
  - simpl. lia.
Defined.

(** ** [UsbBulkProtocol] on the example device *)

Lemma usb_open_pins_serial_witness :
  UsbBulkProtocol._serial_number usb_port_opened.1 <> [] /\
  (UsbBulkProtocol._serial_number usb_port <> [] ->
   UsbBulkProtocol._serial_number usb_port_opened.1
   = UsbBulkProtocol._serial_number usb_port) /\
  UsbBulkProtocol._serial_number usb_port_reopened.1
  = UsbBulkProtocol._serial_number usb_port_opened.1.
Proof.
  apply (usb_open_pins_serial (libusb := one_device) usb_port
           usb_port_opened.1 usb_port_reopened.1
           0%nat usb_port_opened.2 usb_port_opened.2 usb_port_reopened.2).
  - reflexivity.
  - vm_compute. reflexivity.
  - vm_compute. reflexivity.
Defined.

Lemma usb_open_close_cycle_witness :
  UsbBulkProtocol.is_open usb_port_opened.1 = true /\
  (true = true ->
   is_Some (UsbBulkProtocol._handle usb_port_opened.1) /\
   (forall l',
      UsbBulkProtocol.open usb_port_opened.1 l'
      = (Returns true, usb_port_opened.1, l')) /\
   forall l', exists u2,
     UsbBulkProtocol.close usb_port_opened.1 l'
     = (u2,
        libusb_close
          (libusb_attach_kernel_driver
             (libusb_release_interface l'
                (UsbBulkProtocol._handle usb_port_opened.1)
                (UsbBulkProtocol.interface_number
                   (UsbBulkProtocol._descriptor usb_port_opened.1))).2
             (UsbBulkProtocol._handle usb_port_opened.1)
             (UsbBulkProtocol.interface_number
                (UsbBulkProtocol._descriptor usb_port_opened.1))).2
          (UsbBulkProtocol._handle usb_port_opened.1)) /\
     UsbBulkProtocol.is_open u2 = false /\
     UsbBulkProtocol._handle u2 = None /\
     (forall l'', UsbBulkProtocol.close u2 l'' = (u2, l'')) /\
     (forall l'' buffer len,
        (UsbBulkProtocol.read u2 l'' buffer len).1.1.1 = -1 /\
        (UsbBulkProtocol.read u2 l'' buffer len).2 = l'') /\
     (forall l'' buffer len,
        (UsbBulkProtocol.write u2 l'' buffer len).1.1 = -1 /\
        (UsbBulkProtocol.write u2 l'' buffer len).2 = l'')).
Proof.
  apply (usb_open_close_cycle (libusb := one_device) usb_port
           usb_port_opened.1 0%nat usb_port_opened.2 true).
  - reflexivity.
  - vm_compute. reflexivity.
Defined.
